(** * GraphQLer: dependency resolver, materializers, retrier and engine

    A shallow embedding of the dependency-aware query synthesis core
    ([compiler/resolvers/object_dependency_resolver.py],
    [fuzzer/fengine/materializers/*.py], [fuzzer/fengine/retrier/retrier.py],
    [fuzzer/fengine/fengine.py], [constants.py]) and of the constructor of the
    compiler ([compiler/compiler.py]), with the properties of it that the
    specification states and further properties that the code shows. *)

From stdpp Require Import gmap strings list fin_maps pretty.
From Stdlib Require Import ZArith Lia.


Set Warnings "-register-all".

(** ** Python values, exceptions and outcomes *)

Module Py.

(** The exception classes the modelled code raises, catches or lets through.
    [KeyboardInterrupt] derives from [BaseException] only; all the others
    derive from [Exception]. *)
Inductive exn : Type :=
  | TypeError (msg : string)
  | KeyError (key : string)
  | IndexError (msg : string)
  | UnboundLocalError (var : string)
  | AttributeError (attr : string)
  | ValueError (msg : string)
  | HardDependencyNotMetException (name : string)
  | BdbQuit
  | KeyboardInterrupt
  | OtherException (msg : string).

(** [isinstance(e, Exception)] *)
Definition is_Exception (e : exn) : bool :=
  match e with
  | KeyboardInterrupt => false
  | _ => true
  end.

Definition is_BdbQuit (e : exn) : bool :=
  match e with
  | BdbQuit => true
  | _ => false
  end.

Definition is_HardDependencyNotMet (e : exn) : bool :=
  match e with
  | HardDependencyNotMetException _ => true
  | _ => false
  end.

(** The result of running a piece of Python: a value, a raised exception, or
    no result because the recursion budget of the model ran out. *)
Inductive outcome (A : Type) : Type :=
  | Ret (a : A)
  | Raise (e : exn)
  | Diverge.
Arguments Ret {A} a.
Arguments Raise {A} e.
Arguments Diverge {A}.

#[export] Instance outcome_ret : MRet outcome := fun A a => Ret a.
#[export] Instance outcome_bind : MBind outcome := fun A B f m =>
  match m with
  | Ret a => f a
  | Raise e => Raise e
  | Diverge => Diverge
  end.

#[export] Instance outcome_fmap : FMap outcome := fun A B f m =>
  match m with
  | Ret a => Ret (f a)
  | Raise e => Raise e
  | Diverge => Diverge
  end.

(** JSON-like run-time values: what a decoded response is made of, plus the
    tuple the transport returns and the HTTP response object in it. *)
Inductive pyval : Type :=
  | PNone
  | PBool (b : bool)
  | PInt (n : Z)
  | PStr (s : string)
  | PList (l : list pyval)
  | PTuple (l : list pyval)
  | PDict (kv : list (string * pyval))
  | PResponse (status_code : nat).

Definition is_str (s : string) (v : pyval) : bool :=
  match v with
  | PStr s' => bool_decide (s = s')
  | _ => false
  end.

Fixpoint assoc {A : Type} (k : string) (kv : list (string * A)) : option A :=
  match kv with
  | [] => None
  | (k', v) :: rest => if bool_decide (k = k') then Some v else assoc k rest
  end.

(** [s1 in s2] on strings: substring test. *)
Fixpoint is_prefix (p s : string) : bool :=
  match p, s with
  | EmptyString, _ => true
  | String a p', String b s' => bool_decide (a = b) && is_prefix p' s'
  | String _ _, EmptyString => false
  end.

Fixpoint str_contains (p s : string) : bool :=
  is_prefix p s ||
  match s with
  | EmptyString => false
  | String _ s' => str_contains p s'
  end.

(** [key in v] for a string [key]. *)
Definition contains (key : string) (v : pyval) : outcome bool :=
  match v with
  | PDict kv => Ret (bool_decide (is_Some (assoc key kv)))
  | PList l | PTuple l => Ret (existsb (is_str key) l)
  | PStr s => Ret (str_contains key s)
  | _ => Raise (TypeError "argument is not iterable")
  end.

(** [v[key]] for a string [key]. *)
Definition getitem (v : pyval) (key : string) : outcome pyval :=
  match v with
  | PDict kv =>
      match assoc key kv with
      | Some x => Ret x
      | None => Raise (KeyError key)
      end
  | PList _ | PTuple _ => Raise (TypeError "indices must be integers or slices, not str")
  | PStr _ => Raise (TypeError "string indices must be integers, not str")
  | _ => Raise (TypeError "object is not subscriptable")
  end.

(** [v[i]] for a non-negative integer [i]. *)
Definition getindex (v : pyval) (i : nat) : outcome pyval :=
  match v with
  | PList l | PTuple l =>
      match l !! i with
      | Some x => Ret x
      | None => Raise (IndexError "index out of range")
      end
  | PDict _ => Raise (KeyError "<int>")
  | PStr s =>
      match String.get i s with
      | Some c => Ret (PStr (String c EmptyString))
      | None => Raise (IndexError "string index out of range")
      end
  | _ => Raise (TypeError "object is not subscriptable")
  end.

(** Truth value of a value ([not v] is its negation). *)
Definition truthy (v : pyval) : bool :=
  match v with
  | PNone => false
  | PBool b => b
  | PInt n => negb (Z.eqb n 0)
  | PStr s => negb (bool_decide (s = ""))
  | PList l | PTuple l => negb (bool_decide (length l = 0))
  | PDict kv => negb (bool_decide (length kv = 0))
  | PResponse c => bool_decide (c < 400)
  end.

Definition is_dict (v : pyval) : bool :=
  match v with
  | PDict _ => true
  | _ => false
  end.

Definition is_None (v : pyval) : bool :=
  match v with
  | PNone => true
  | _ => false
  end.

(** [a, b = v]: unpacking into two targets. A dict iterates over its keys, a
    string over its characters. *)
Definition unpack2 (v : pyval) : outcome (pyval * pyval) :=
  match v with
  | PList [a; b] | PTuple [a; b] => Ret (a, b)
  | PDict [(k1, _); (k2, _)] => Ret (PStr k1, PStr k2)
  | PStr (String a (String b EmptyString)) =>
      Ret (PStr (String a EmptyString), PStr (String b EmptyString))
  | PList _ | PTuple _ | PDict _ | PStr _ => Raise (ValueError "wrong number of values to unpack")
  | _ => Raise (TypeError "cannot unpack non-iterable object")
  end.

(** [v.status_code] *)
Definition status_code_of (v : pyval) : outcome nat :=
  match v with
  | PResponse c => Ret c
  | _ => Raise (AttributeError "status_code")
  end.

(** [a == b]. Booleans are integers in Python, so [True == 1]. *)
Fixpoint eqb (a b : pyval) : bool :=
  let fix eqb_list (l1 l2 : list pyval) : bool :=
    match l1, l2 with
    | [], [] => true
    | x :: l1', y :: l2' => eqb x y && eqb_list l1' l2'
    | _, _ => false
    end in
  let fix eqb_items (l1 l2 : list (string * pyval)) : bool :=
    match l1, l2 with
    | [], [] => true
    | (k1, x) :: l1', (k2, y) :: l2' => bool_decide (k1 = k2) && eqb x y && eqb_items l1' l2'
    | _, _ => false
    end in
  match a, b with
  | PNone, PNone => true
  | PBool x, PBool y => Bool.eqb x y
  | PBool x, PInt n | PInt n, PBool x => Z.eqb n (if x then 1 else 0)
  | PInt n, PInt m => Z.eqb n m
  | PStr s, PStr t => bool_decide (s = t)
  | PList l1, PList l2 => eqb_list l1 l2
  | PTuple l1, PTuple l2 => eqb_list l1 l2
  | PDict l1, PDict l2 => eqb_items l1 l2
  | PResponse c, PResponse d => bool_decide (c = d)
  | _, _ => false
  end.

(** [v in l] on a list. *)
Definition mem (v : pyval) (l : list pyval) : bool := existsb (eqb v) l.

(** [l.remove(v)]: drops the first element equal to [v]; raises when there is
    none. *)
Fixpoint list_remove (v : pyval) (l : list pyval) : option (list pyval) :=
  match l with
  | [] => None
  | x :: l' => if eqb x v then Some l' else cons x <$> list_remove v l'
  end.

End Py.
Export Py.

(** ** constants.py *)

Module constants.

Definition BUILT_IN_TYPES : list string := ["ID"; "Int"; "Float"; "String"; "Boolean"].
Definition BUILT_IN_TYPE_KINDS : list string :=
  ["SCALAR"; "OBJECT"; "INTERFACE"; "UNION"; "ENUM"; "INPUT_OBJECT"; "LIST"; "NON_NULL"].

Definition MAX_OBJECT_CYCLES : nat := 2.
Definition MAX_OUTPUT_SELECTOR_DEPTH : nat := 2.
Definition HARD_CUTOFF_DEPTH : nat := 10.
Definition MAX_INPUT_DEPTH : nat := 10.

Definition NO_DATA_COUNT_AS_SUCCESS : bool := false.

End constants.

(** ** compiler/resolvers/object_dependency_resolver.py *)

Module Resolver.
Import constants.

(** A field as [parse_gql_object] reads it: [field["kind"]], [field["type"]]
    and [field["ofType"]]. The resolver compares the last two with the
    built-in names and stores them as they are, whatever values they
    hold. *)
Record field : Type := mk_field {
  kind : string;
  type : pyval;
  ofType : pyval
}.

Record gql_object : Type := mk_object {
  fields : list field;
  softDependsOn : list pyval;
  hardDependsOn : list pyval
}.

(** [t in BUILT_IN_TYPES] *)
Definition in_BUILT_IN_TYPES (t : pyval) : bool := mem t (PStr <$> BUILT_IN_TYPES).

(** One iteration of the loop over [gql_object["fields"]], on the two
    accumulators [(soft_dependent_objects, hard_dependent_objects)]. *)
Definition parse_field (acc : list pyval * list pyval) (f : field)
  : list pyval * list pyval :=
  let '(soft, hard) := acc in
  let soft :=
    if bool_decide (kind f ∈ BUILT_IN_TYPE_KINDS)
       && negb (bool_decide (kind f = "NON_NULL"))
       && negb (bool_decide (kind f = "LIST"))
    then (if negb (in_BUILT_IN_TYPES (type f)) then soft ++ [type f] else soft)
    else soft in
  if bool_decide (kind f = "NON_NULL") then
    (soft, if negb (in_BUILT_IN_TYPES (ofType f)) then hard ++ [ofType f] else hard)
  else if bool_decide (kind f = "LIST") then
    (if negb (in_BUILT_IN_TYPES (ofType f)) then soft ++ [ofType f] else soft, hard)
  else (soft, hard).

Definition parse_gql_object (o : gql_object) : gql_object :=
  let '(soft, hard) := foldl parse_field ([], []) (fields o) in
  {| fields := fields o; softDependsOn := soft; hardDependsOn := hard |}.

(** [resolve]: every object of the schema is parsed in place. *)
Definition resolve (objects : gmap string gql_object) : gmap string gql_object :=
  parse_gql_object <$> objects.

(** What one iteration of the loop does with a field, read off its three
    cases: the value it appends to [hard_dependent_objects], the value it
    appends to [soft_dependent_objects], or nothing. The test is the one of
    the code, [in BUILT_IN_TYPES] on the value found under [ofType] or
    [type], whatever that value is. *)
Inductive classification : Type :=
  | Hard (t : pyval)
  | Soft (t : pyval)
  | Neither.

Definition classify (f : field) : classification :=
  if bool_decide (kind f = "NON_NULL") then
    if in_BUILT_IN_TYPES (ofType f) then Neither else Hard (ofType f)
  else if bool_decide (kind f = "LIST") then
    if in_BUILT_IN_TYPES (ofType f) then Neither else Soft (ofType f)
  else if bool_decide (kind f ∈ BUILT_IN_TYPE_KINDS) then
    if in_BUILT_IN_TYPES (type f) then Neither else Soft (type f)
  else Neither.

Definition hard_of (f : field) : option pyval :=
  match classify f with Hard t => Some t | _ => None end.

Definition soft_of (f : field) : option pyval :=
  match classify f with Soft t => Some t | _ => None end.

End Resolver.

(** ** The schema model *)

Module Schema.

(** A type descriptor as the materializers read it: [kind], [name], [type]
    and the nested [ofType] ([None] for Python's [None]). *)
Inductive TypeDescriptor : Type :=
  mk_type { kind : string; name : string; type : string; ofType : option TypeDescriptor }.

Record ObjectType : Type := mk_object_type {
  fields : list TypeDescriptor
}.

Record InputObjectType : Type := mk_input_object {
  inputFields : list (string * TypeDescriptor)
}.

(** A query or a mutation. [inputs] keeps the insertion order of the Python
    dict, which the loop over [inputs.items()] follows. *)
Record OperationDescriptor : Type := mk_operation {
  inputs : list (string * TypeDescriptor);
  output : TypeDescriptor;
  hardDependsOn : gmap string string;
  softDependsOn : gmap string string;
  mutationType : string
}.

End Schema.
Export Schema.

(** ** The mutable store, the environment and Python calls *)

Module Runtime.

(** The objects that the modelled code shares and mutates in place: the
    [objects_bucket] dict that the engine is handed (type name to the list of
    identifiers known to be live), the [used_objects] dict of the materializer
    in use, the state of the random generator, and the payloads sent to the
    server so far. *)
Record world : Type := mk_world {
  objects_bucket : gmap string (list pyval);
  used_objects : gmap string pyval;
  rand_state : nat;
  sent : list string
}.

(** A computation on the store. The store survives a raised exception, as
    mutations made before a Python [raise] do. *)
Definition M (A : Type) : Type := world -> outcome A * world.

#[export] Instance M_ret : MRet M := fun A a w => (Ret a, w).
#[export] Instance M_bind : MBind M := fun A B f m w =>
  match m w with
  | (Ret a, w') => f a w'
  | (Raise e, w') => (Raise e, w')
  | (Diverge, w') => (Diverge, w')
  end.

Definition lift {A : Type} (o : outcome A) : M A := fun w => (o, w).
Definition raise {A : Type} (e : exn) : M A := lift (Raise e).
Definition diverge {A : Type} : M A := lift Diverge.

Definition get_objects_bucket : M (gmap string (list pyval)) :=
  fun w => (Ret (objects_bucket w), w).
Definition set_objects_bucket (b : gmap string (list pyval)) : M unit :=
  fun w => (Ret tt, mk_world b (used_objects w) (rand_state w) (sent w)).
Definition get_used_objects : M (gmap string pyval) :=
  fun w => (Ret (used_objects w), w).
Definition set_used_objects (u : gmap string pyval) : M unit :=
  fun w => (Ret tt, mk_world (objects_bucket w) u (rand_state w) (sent w)).

(** What the modelled files call in modules whose code is not modelled:
    helpers of the project, the logger, the random generator and the
    transport. None of them is handed the bucket or the [used_objects] dict,
    so they are functions of their arguments (and, for the random ones, of the
    generator state; for the transport, of the requests sent before). *)
Record Env : Type := mk_env {
  (** [random._randbelow(n)] at a generator state *)
  randbelow : nat -> nat -> nat;
  (** [fuzzer.fengine.materializers.utils.get_random_scalar(name, type)] *)
  get_random_scalar : string -> string -> nat -> outcome string;
  (** [fuzzer.fengine.materializers.utils.prettify_graphql_payload] *)
  prettify_graphql_payload : string -> outcome string;
  (** [str()] of a value that is neither a string, a number nor [None] *)
  repr : pyval -> string;
  (** [logging.Logger.info] of the fuzzer logger, by the fixed text of the
      message *)
  logger_info : string -> outcome unit;
  (** [utils.request_utils.send_graphql_request(url, payload)], after the
      given earlier requests *)
  send_graphql_request : list string -> string -> string -> outcome pyval;
  (** [utils.stats.Stats().add_http_status_code(name, status_code)] *)
  add_http_status_code : string -> nat -> outcome unit;
  (** [utils.parser_utils.get_output_type(name, operations)] *)
  get_output_type : string -> gmap string OperationDescriptor -> outcome string;
  (** [fuzzer.fengine.utils.check_is_data_empty] *)
  check_is_data_empty : pyval -> outcome bool;
  (** [fuzzer.fengine.retrier.utils.find_block_end(payload, line)] *)
  find_block_end : string -> Z -> outcome Z;
  (** [fuzzer.fengine.retrier.utils.remove_lines_within_range] *)
  remove_lines_within_range : string -> Z -> Z -> outcome string
}.

(** Every external call comes back, with a value or an exception. *)
Definition external_calls_return (env : Env) : Prop :=
  (forall name ty seed, get_random_scalar env name ty seed <> Diverge)
  /\ (forall p, prettify_graphql_payload env p <> Diverge)
  /\ (forall msg, logger_info env msg <> Diverge)
  /\ (forall hist url p, send_graphql_request env hist url p <> Diverge)
  /\ (forall name code, add_http_status_code env name code <> Diverge)
  /\ (forall name ops, get_output_type env name ops <> Diverge)
  /\ (forall data, check_is_data_empty env data <> Diverge)
  /\ (forall p line, find_block_end env p line <> Diverge)
  /\ (forall p a b, remove_lines_within_range env p a b <> Diverge).

(** [str(v)], as an f-string renders [v]. *)
Definition str (env : Env) (v : pyval) : string :=
  match v with
  | PStr s => s
  | PInt n => pretty n
  | PBool true => "True"
  | PBool false => "False"
  | PNone => "None"
  | _ => repr env v
  end.

(** [random.choice(seq)]: raises [IndexError] on an empty sequence. *)
Definition random_choice (env : Env) (seq : list pyval) : M pyval :=
  fun w =>
    match seq with
    | [] => (Raise (IndexError "Cannot choose from an empty sequence"), w)
    | x :: _ =>
        (Ret (nth (randbelow env (rand_state w) (length seq) `mod` length seq) seq x),
         mk_world (objects_bucket w) (used_objects w) (S (rand_state w)) (sent w))
    end.

(** A call that draws from the random generator. *)
Definition with_random {A : Type} (f : nat -> outcome A) : M A :=
  fun w => (f (rand_state w),
            mk_world (objects_bucket w) (used_objects w) (S (rand_state w)) (sent w)).

(** The transport call: the payload is recorded as sent, whatever comes
    back. *)
Definition send (env : Env) (url payload : string) : M pyval :=
  fun w => (send_graphql_request env (sent w) url payload,
            mk_world (objects_bucket w) (used_objects w) (rand_state w) (sent w ++ [payload])).

Definition log (env : Env) (msg : string) : M unit := lift (logger_info env msg).

(** The parameters of a Python function (without [self]): those without a
    default and those with one. *)
Record signature : Type := mk_signature {
  required : list string;
  optional : list string
}.

(** Binding the arguments of a call with [npos] positional arguments and the
    keyword arguments [kw]: a [TypeError] where Python raises one. *)
Definition check_call (sg : signature) (npos : nat) (kw : list string) : outcome unit :=
  let params := required sg ++ optional sg in
  if bool_decide (length params < npos) then
    Raise (TypeError "too many positional arguments")
  else if existsb (fun k => negb (bool_decide (k ∈ params))) kw then
    Raise (TypeError "got an unexpected keyword argument")
  else if existsb (fun k => bool_decide (k ∈ take npos params)) kw then
    Raise (TypeError "got multiple values for argument")
  else if existsb (fun p => negb (bool_decide (p ∈ kw))) (drop npos (required sg)) then
    Raise (TypeError "missing required positional argument")
  else Ret tt.

Definition call {A : Type} (sg : signature) (npos : nat) (kw : list string) (body : M A) : M A :=
  lift (check_call sg npos kw) ;; body.

End Runtime.
Export Runtime.

(** ** fuzzer/fengine/materializers/regular_materializer.py *)

Module Materializer.
Import constants.
Export Schema.

(** The attributes that [RegularMaterializer.__init__] sets, apart from
    [used_objects], which lives in the store. *)
Record RegularMaterializer : Type := mk_materializer {
  objects : gmap string ObjectType;
  operator_info : gmap string OperationDescriptor;
  input_objects : gmap string InputObjectType;
  enums : gmap string (list string)
}.

(** Modelled from the spec: [utils.parser_utils.get_base_oftype] is not among
    the sources. "For NON_NULL/LIST, unwrap to the base type": follow
    [ofType] down to the descriptor that has none. *)
Fixpoint get_base_oftype (t : TypeDescriptor) : TypeDescriptor :=
  match t with
  | mk_type _ _ _ (Some t') => get_base_oftype t'
  | mk_type _ _ _ None => t
  end.

(** The double quote character, as a string. *)
Definition dquote : string := String (Ascii.ascii_of_nat 34) EmptyString.

(** [l.count(x)] *)
Fixpoint count (x : string) (l : list string) : nat :=
  match l with
  | [] => 0
  | y :: l' => (if bool_decide (y = x) then 1 else 0) + count x l'
  end.

Section output.
Variable self : RegularMaterializer.

(** The loop [for field in object_info["fields"]] of
    [materialize_output_object_fields], with [rec] for the call of
    [self.materialize_output]. The list [used_objects] is one Python list,
    appended to in place, so it is threaded through. *)
Fixpoint output_fields_loop
    (rec : TypeDescriptor -> list string -> bool -> outcome (string * list string))
    (fs : list TypeDescriptor) (built_str : string) (used_objects : list string)
  : outcome (string * list string) :=
  match fs with
  | [] => Ret (built_str, used_objects)
  | field :: rest =>
      '(field_output, used_objects) ← rec field used_objects true;
      let built_str :=
        if negb (bool_decide (field_output = "")) && negb (bool_decide (field_output = "{}"))
        then built_str +:+ field_output
        else built_str in
      output_fields_loop rec rest built_str used_objects
  end.

Definition materialize_output_object_fields_with
    (rec : TypeDescriptor -> list string -> bool -> outcome (string * list string))
    (object_name : string) (used_objects : list string)
  : outcome (string * list string) :=
  let built_str := "" in
  if bool_decide (MAX_OBJECT_CYCLES <= count object_name used_objects) then
    Ret (built_str, used_objects)
  else
    let used_objects := used_objects ++ [object_name] in
    match objects self !! object_name with
    | None => Raise (KeyError object_name)
    | Some object_info => output_fields_loop rec (fields object_info) built_str used_objects
    end.

(** [materialize_output(output, used_objects, include_name)]; the optional
    [skip_keys] is never read. One unit of [fuel] per call. *)
Fixpoint materialize_output (fuel : nat) (output : TypeDescriptor)
    (used_objects : list string) (include_name : bool) : outcome (string * list string) :=
  match fuel with
  | 0 => Diverge
  | S fuel =>
      let built_str := "" in
      if bool_decide (kind output = "OBJECT") then
        '(materialized_object_fields, used_objects) ←
          materialize_output_object_fields_with (materialize_output fuel)
            (type output) used_objects;
        if negb (bool_decide (materialized_object_fields = "")) then
          let built_str := if include_name then built_str +:+ name output else built_str in
          Ret (built_str +:+ " {" +:+ materialized_object_fields +:+ "},", used_objects)
        else Ret (built_str, used_objects)
      else if bool_decide (kind output = "NON_NULL") || bool_decide (kind output = "LIST") then
        match ofType output with
        | None => Raise (TypeError "'NoneType' object is not subscriptable")
        | Some oftype =>
            let base_oftype := get_base_oftype oftype in
            if bool_decide (kind base_oftype = "SCALAR") then
              Ret (built_str +:+ name output +:+ ", ", used_objects)
            else
              '(materialized_output, used_objects) ←
                materialize_output fuel base_oftype used_objects false;
              if negb (bool_decide (materialized_output = "")) then
                if include_name then
                  Ret (built_str +:+ name output +:+ materialized_output +:+ ", ", used_objects)
                else Ret (built_str +:+ materialized_output, used_objects)
              else Ret (built_str, used_objects)
        end
      else
        if include_name then Ret (built_str +:+ name output +:+ ", ", used_objects)
        else Ret (built_str, used_objects)
  end.

Definition materialize_output_object_fields (fuel : nat) :=
  materialize_output_object_fields_with (materialize_output fuel).

End output.

Section input.
Variable env : Env.
Variable self : RegularMaterializer.

(** Reading a local variable: [UnboundLocalError] when no assignment to it
    has run. *)
Definition local {A : Type} (var : string) (v : option A) : M A :=
  match v with
  | Some a => mret a
  | None => raise (UnboundLocalError var)
  end.

(** [self.used_objects[key] = val] *)
Definition record_used (key : string) (val : pyval) : M unit :=
  u ← get_used_objects; set_used_objects (<[key := val]> u).

(** The loop [for input_name, input_field in inputs.items()] of
    [materialize_inputs], with [rec] for [self.materialize_input_field]. *)
Fixpoint inputs_loop (rec : TypeDescriptor -> bool -> M string)
    (items : list (string * TypeDescriptor)) (built_str : string) : M string :=
  match items with
  | [] => mret built_str
  | (input_name, input_field) :: rest =>
      s ← rec input_field true;
      inputs_loop rec rest (built_str +:+ (input_name +:+ ": ") +:+ s +:+ ",")
  end.

(** [materialize_input_field(operator_info, input_field, objects_bucket,
    check_deps)]; [objects_bucket] is the bucket of the store. One unit of
    [fuel] per call. *)
Fixpoint materialize_input_field (fuel : nat) (operator_info : OperationDescriptor)
    (input_field : TypeDescriptor) (check_deps : bool) : M string :=
  match fuel with
  | 0 => diverge
  | S fuel =>
      let built_str := "" in
      let hard_dependencies := hardDependsOn operator_info in
      let soft_dependencies := softDependsOn operator_info in
      if check_deps && bool_decide (is_Some (hard_dependencies !! name input_field)) then
        let hard_dependency_name := default "" (hard_dependencies !! name input_field) in
        objects_bucket ← get_objects_bucket;
        match objects_bucket !! hard_dependency_name with
        | Some ids =>
            randomly_chosen_dependency_val ← random_choice env ids;
            record_used hard_dependency_name randomly_chosen_dependency_val;;
            mret (built_str +:+ (dquote +:+ str env randomly_chosen_dependency_val +:+ dquote))
        | None =>
            if bool_decide (hard_dependency_name = "UNKNOWN") then
              log env "Using UNKNOWN input for field";;
              s ← materialize_input_field fuel operator_info input_field false;
              mret (built_str +:+ s)
            else raise (HardDependencyNotMetException hard_dependency_name)
        end
      else if check_deps && bool_decide (is_Some (soft_dependencies !! name input_field)) then
        (* no assignment to [hard_dependency_name] runs on this path *)
        let hard_dependency_name : option string := None in
        let soft_depedency_name := default "" (soft_dependencies !! name input_field) in
        objects_bucket ← get_objects_bucket;
        if bool_decide (is_Some (objects_bucket !! soft_depedency_name)) then
          key ← local "hard_dependency_name" hard_dependency_name;
          match objects_bucket !! key with
          | None => raise (KeyError key)
          | Some ids =>
              randomly_chosen_dependency_val ← random_choice env ids;
              key ← local "hard_dependency_name" hard_dependency_name;
              record_used key randomly_chosen_dependency_val;;
              mret (built_str +:+ (dquote +:+ str env randomly_chosen_dependency_val +:+ dquote))
          end
        else
          s ← materialize_input_field fuel operator_info input_field false;
          mret (built_str +:+ s)
      else if bool_decide (kind input_field = "NON_NULL") then
        match ofType input_field with
        | None => raise (TypeError "'NoneType' object is not subscriptable")
        | Some oftype =>
            s ← materialize_input_field fuel operator_info oftype true;
            mret (built_str +:+ s)
        end
      else if bool_decide (kind input_field = "LIST") then
        match ofType input_field with
        | None => raise (TypeError "'NoneType' object is not subscriptable")
        | Some oftype =>
            s ← materialize_input_field fuel operator_info oftype true;
            mret (built_str +:+ ("[" +:+ s +:+ "]"))
        end
      else if bool_decide (kind input_field = "INPUT_OBJECT") then
        match input_objects self !! type input_field with
        | None => raise (KeyError (type input_field))
        | Some input_object =>
            s ← inputs_loop (materialize_input_field fuel operator_info)
                  (inputFields input_object) "";
            mret (built_str +:+ ("{" +:+ s +:+ "}"))
        end
      else if bool_decide (kind input_field = "SCALAR") then
        s ← with_random (get_random_scalar env (name input_field) (type input_field));
        mret (built_str +:+ s)
      else mret (built_str +:+ "")
  end.

(** [materialize_inputs(operator_info, inputs, objects_bucket)] *)
Definition materialize_inputs (fuel : nat) (operator_info : OperationDescriptor)
    (inputs : list (string * TypeDescriptor)) : M string :=
  inputs_loop (materialize_input_field fuel operator_info) inputs "".

End input.

(** The parameter lists of the methods, as declared. *)
Definition init_signature : signature :=
  {| required := ["objects"; "operator_info"; "input_objects"; "enums"; "logger"];
     optional := [] |}.
Definition materialize_output_signature : signature :=
  {| required := ["output"; "used_objects"; "include_name"]; optional := ["skip_keys"] |}.
Definition materialize_inputs_signature : signature :=
  {| required := ["operator_info"; "inputs"; "objects_bucket"]; optional := [] |}.

(** [RegularMaterializer.__init__], called with [npos] positional arguments
    (the first four are bound as given). *)
Definition init (npos : nat)
    (objects : gmap string ObjectType) (operator_info : gmap string OperationDescriptor)
    (input_objects : gmap string InputObjectType) (enums : gmap string (list string))
  : M RegularMaterializer :=
  call init_signature npos []
    (set_used_objects ∅;;
     mret (mk_materializer objects operator_info input_objects enums)).

End Materializer.

(** ** Selection sets, to read the materialized output back *)

Module Selection.

(** What [materialize_output] can write for one field: its bare name
    ([name, ]), a named block ([name {...},]), or a name in front of
    the selection of its unwrapped type ([name] then the selection, then
    [, ]). *)
Inductive selection : Type :=
  | Leaf (name : string)
  | Block (name : string) (body : list selection)
  | Wrapped (name : string) (inner : selection).

Fixpoint render (s : selection) : string :=
  match s with
  | Leaf name => name +:+ ", "
  | Block name body =>
      name +:+ " {" +:+
        (fix render_all (l : list selection) : string :=
           match l with
           | [] => ""
           | x :: l' => render x +:+ render_all l'
           end) body +:+ "},"
  | Wrapped name inner => name +:+ render inner +:+ ", "
  end.

Fixpoint render_all (l : list selection) : string :=
  match l with
  | [] => ""
  | x :: l' => render x +:+ render_all l'
  end.

(** No block of the selection is empty. *)
Fixpoint no_empty_block (s : selection) : bool :=
  match s with
  | Leaf _ => true
  | Block _ body =>
      match body with
      | [] => false
      | _ :: _ => forallb no_empty_block body
      end
  | Wrapped _ inner => no_empty_block inner
  end.

(** The number of bare names in a selection: the fields selected without
    a block of their own, of whatever kind they are. *)
Fixpoint bare_names (s : selection) : nat :=
  match s with
  | Leaf _ => 1
  | Block _ body => sum_list (map bare_names body)
  | Wrapped _ inner => bare_names inner
  end.

(** The names written in a selection. *)
Fixpoint selection_names (s : selection) : list string :=
  match s with
  | Leaf name => [name]
  | Block name body =>
      name ::
        (fix all_names (l : list selection) : list string :=
           match l with
           | [] => []
           | x :: l' => selection_names x ++ all_names l'
           end) body
  | Wrapped name inner => name :: selection_names inner
  end.

Fixpoint all_names (l : list selection) : list string :=
  match l with
  | [] => []
  | x :: l' => selection_names x ++ all_names l'
  end.

(** The characters of a GraphQL name: letters, digits and the underscore. *)
Definition name_char (c : Ascii.ascii) : bool :=
  let n := Ascii.nat_of_ascii c in
  (48 <=? n) && (n <=? 57) || (65 <=? n) && (n <=? 90)
  || (97 <=? n) && (n <=? 122) || (n =? 95).

Definition graphql_name (s : string) : bool :=
  forallb name_char (String.list_ascii_of_string s).

(** The characters [{] and [}]. *)
Definition lbrace : Ascii.ascii := Ascii.ascii_of_nat 123.
Definition rbrace : Ascii.ascii := Ascii.ascii_of_nat 125.

Definition first_is (c : Ascii.ascii) (s : string) : bool :=
  match s with
  | String d _ => bool_decide (d = c)
  | EmptyString => false
  end.

(** The text has an opening brace directly followed by a closing one. *)
Fixpoint has_empty_braces (s : string) : bool :=
  match s with
  | EmptyString => false
  | String c s' => bool_decide (c = lbrace) && first_is rbrace s' || has_empty_braces s'
  end.

Fixpoint last_is (c : Ascii.ascii) (s : string) : bool :=
  match s with
  | EmptyString => false
  | String d EmptyString => bool_decide (d = c)
  | String _ s' => last_is c s'
  end.

End Selection.

(** ** How far output materialization can still descend *)

Module OutputBound.
Import constants Materializer.

(** The descents that are left: for every object type of the schema, the
    visits that [used_objects] still allows. *)
Definition budget (self : RegularMaterializer) (used_objects : list string) : nat :=
  sum_list ((fun o => MAX_OBJECT_CYCLES - count o used_objects)
              <$> (map_to_list (objects self)).*1).

(** Calls of [materialize_output] that are enough on any schema with these
    object types: two per visit of an object type, and two more. *)
Definition output_fuel (self : RegularMaterializer) : nat :=
  2 * (MAX_OBJECT_CYCLES * size (objects self)) + 2.

(** Every object type occurs in [used_objects] at least as often as on the
    selection path. *)
Definition path_counted (path used_objects : list string) : bool :=
  forallb (fun o => bool_decide (count o path <= count o used_objects)) path.

(** [materialize_output] with the current selection path made explicit: the
    object types whose fields are being materialized, outermost first. The
    path is pushed where the fields of an object are entered; a call whose
    [used_objects] does not count its path stops with an error. *)
Fixpoint materialize_output_on_path (self : RegularMaterializer) (fuel : nat)
    (path : list string) (output : TypeDescriptor)
    (used_objects : list string) (include_name : bool) : outcome (string * list string) :=
  match fuel with
  | 0 => Diverge
  | S fuel =>
      if negb (path_counted path used_objects) then
        Raise (OtherException "path not counted in used_objects")
      else
      let built_str := "" in
      if bool_decide (kind output = "OBJECT") then
        '(materialized_object_fields, used_objects) ←
          materialize_output_object_fields_with self
            (materialize_output_on_path self fuel (path ++ [type output]))
            (type output) used_objects;
        if negb (bool_decide (materialized_object_fields = "")) then
          let built_str := if include_name then built_str +:+ name output else built_str in
          Ret (built_str +:+ " {" +:+ materialized_object_fields +:+ "},", used_objects)
        else Ret (built_str, used_objects)
      else if bool_decide (kind output = "NON_NULL") || bool_decide (kind output = "LIST") then
        match ofType output with
        | None => Raise (TypeError "'NoneType' object is not subscriptable")
        | Some oftype =>
            let base_oftype := get_base_oftype oftype in
            if bool_decide (kind base_oftype = "SCALAR") then
              Ret (built_str +:+ name output +:+ ", ", used_objects)
            else
              '(materialized_output, used_objects) ←
                materialize_output_on_path self fuel path base_oftype used_objects false;
              if negb (bool_decide (materialized_output = "")) then
                if include_name then
                  Ret (built_str +:+ name output +:+ materialized_output +:+ ", ", used_objects)
                else Ret (built_str +:+ materialized_output, used_objects)
              else Ret (built_str, used_objects)
        end
      else
        if include_name then Ret (built_str +:+ name output +:+ ", ", used_objects)
        else Ret (built_str, used_objects)
  end.

End OutputBound.

(** ** fuzzer/fengine/materializers/regular_query_materializer.py and
       regular_mutation_materializer.py *)

(** The line feed, as a string. *)
Definition nl : string := String (Ascii.ascii_of_nat 10) EmptyString.

Module RegularQueryMaterializer.
Import Materializer.

Definition init_signature : signature :=
  {| required := ["objects"; "queries"; "input_objects"; "enums"; "logger"];
     optional := [] |}.

(** [__init__], called with [npos] positional arguments: it hands all five of
    its parameters on to the base class. *)
Definition init (npos : nat)
    (objects : gmap string ObjectType) (queries : gmap string OperationDescriptor)
    (input_objects : gmap string InputObjectType) (enums : gmap string (list string))
  : M RegularMaterializer :=
  call init_signature npos []
    (Materializer.init 5 objects queries input_objects enums).

Definition get_payload (env : Env) (self : RegularMaterializer) (fuel : nat)
    (query_name : string) : M (string * gmap string pyval) :=
  set_used_objects ∅;;
  match operator_info self !! query_name with
  | None => raise (KeyError query_name)
  | Some query_info =>
      query_inputs ←
        call materialize_inputs_signature 3 []
          (materialize_inputs env self fuel query_info (inputs query_info));
      query_outputs ←
        call materialize_output_signature 3 []
          (lift (fst <$> materialize_output self fuel (output query_info) [] false));
      let query_inputs :=
        if negb (bool_decide (query_inputs = "")) then "(" +:+ query_inputs +:+ ")"
        else query_inputs in
      let payload :=
        nl +:+ "        query {" +:+ nl +:+
        "            " +:+ query_name +:+ " " +:+ query_inputs +:+ nl +:+
        "            " +:+ query_outputs +:+ nl +:+
        "        }" +:+ nl +:+ "        " in
      pretty_payload ← lift (prettify_graphql_payload env payload);
      used ← get_used_objects;
      mret (pretty_payload, used)
  end.

End RegularQueryMaterializer.

Module RegularMutationMaterializer.
Import Materializer.

Definition init_signature : signature :=
  {| required := ["objects"; "mutations"; "input_objects"; "enums"]; optional := [] |}.

(** [__init__], called with [npos] positional arguments: it hands its four
    parameters on to the base class, which declares five. *)
Definition init (npos : nat)
    (objects : gmap string ObjectType) (mutations : gmap string OperationDescriptor)
    (input_objects : gmap string InputObjectType) (enums : gmap string (list string))
  : M RegularMaterializer :=
  call init_signature npos []
    (Materializer.init 4 objects mutations input_objects enums).

Definition get_payload (env : Env) (self : RegularMaterializer) (fuel : nat)
    (mutation_name : string) : M (string * gmap string pyval) :=
  set_used_objects ∅;;
  match operator_info self !! mutation_name with
  | None => raise (KeyError mutation_name)
  | Some mutation_info =>
      mutation_inputs ←
        call materialize_inputs_signature 3 ["max_depth"]
          (materialize_inputs env self fuel mutation_info (inputs mutation_info));
      mutation_output ←
        call materialize_output_signature 3 ["max_depth"]
          (lift (fst <$> materialize_output self fuel (output mutation_info) [] false));
      let mutation_payload :=
        nl +:+ "        mutation {" +:+ nl +:+
        "            " +:+ mutation_name +:+ " (" +:+ nl +:+
        "                " +:+ mutation_inputs +:+ nl +:+
        "            )" +:+ nl +:+
        "            " +:+ mutation_output +:+ nl +:+
        "        }" +:+ nl +:+ "        " in
      pretty_payload ← lift (prettify_graphql_payload env mutation_payload);
      used ← get_used_objects;
      mret (pretty_payload, used)
  end.

End RegularMutationMaterializer.

(** ** fuzzer/fengine/retrier/retrier.py *)

Module Retrier.

Definition max_retries : nat := 3.

(** The elements a [for] loop over a value goes through. *)
Definition iterate (v : pyval) : outcome (list pyval) :=
  match v with
  | PList l | PTuple l => Ret l
  | PDict kv => Ret (PStr <$> kv.*1)
  | PStr s => Ret ((fun c => PStr (String c EmptyString)) <$> String.list_ascii_of_string s)
  | _ => Raise (TypeError "object is not iterable")
  end.

(** [v - 1] *)
Definition minus_one (v : pyval) : outcome Z :=
  match v with
  | PInt n => Ret (n - 1)%Z
  | PBool b => Ret ((if b then 1 else 0) - 1)%Z
  | _ => Raise (TypeError "unsupported operand type(s) for -")
  end.

Definition get_new_payload_for_retry_non_null (env : Env) (payload : string)
    (location : pyval) : outcome string :=
  line_number ← getitem location "line";
  line ← minus_one line_number;
  block_end ← find_block_end env payload line;
  remove_lines_within_range env payload line block_end.

(** The loop [for location in locations] of [retry]. *)
Fixpoint repair (env : Env) (payload : string) (locations : list pyval) : outcome string :=
  match locations with
  | [] => Ret payload
  | location :: rest =>
      payload ← get_new_payload_for_retry_non_null env payload location;
      repair env payload rest
  end.

(** [retry(url, payload, response, retry_count)]. One unit of [fuel] per
    call. *)
Fixpoint retry (env : Env) (fuel : nat) (url payload : string) (response : pyval)
    (retry_count : nat) : M (pyval * bool) :=
  match fuel with
  | 0 => diverge
  | S fuel =>
      errors ← lift (getitem response "errors");
      error ← lift (getindex errors 0);
      message ← lift (getitem error "message");
      matched ← lift (contains "Cannot return null for non-nullable field" message);
      if (matched : bool) then
        locations ← lift (getitem error "locations");
        locations ← lift (iterate locations);
        payload ← lift (repair env payload locations);
        log env "Retrying with new payload";;
        response ← send env url payload;
        has_errors ← lift (contains "errors" response);
        if (has_errors : bool) then
          if bool_decide (retry_count < max_retries) then
            retry env fuel url payload response (retry_count + 1)
          else mret (response, false)
        else mret (response, true)
      else mret (response, false)
  end.

(** Calls of [retry] that are enough from a given [retry_count]. *)
Definition retry_fuel (retry_count : nat) : nat := S (max_retries - retry_count).

End Retrier.

(** ** fuzzer/fengine/fengine.py *)

Module FEngine.
Import constants.

Record FEngine : Type := mk_engine {
  queries : gmap string OperationDescriptor;
  objects : gmap string ObjectType;
  mutations : gmap string OperationDescriptor;
  input_objects : gmap string InputObjectType;
  enums : gmap string (list string);
  url : string
}.

(** A materializer class as the engine uses one: the constructor, called
    with a number of positional arguments, and [get_payload]. *)
Record materializer_class : Type := mk_class {
  new : nat -> gmap string ObjectType -> gmap string OperationDescriptor ->
        gmap string InputObjectType -> gmap string (list string) ->
        M Materializer.RegularMaterializer;
  get_payload : Materializer.RegularMaterializer -> string -> M (string * gmap string pyval)
}.

(** The two classes that [fengine.py] imports. *)
Definition RegularMutationMaterializer (env : Env) (fuel : nat) : materializer_class :=
  {| new := RegularMutationMaterializer.init;
     get_payload := fun self name => RegularMutationMaterializer.get_payload env self fuel name |}.

Definition RegularQueryMaterializer (env : Env) (fuel : nat) : materializer_class :=
  {| new := RegularQueryMaterializer.init;
     get_payload := fun self name => RegularQueryMaterializer.get_payload env self fuel name |}.

(** Modelled from the spec: [fuzzer.utils.put_in_object_bucket] is not among
    the sources. The bucket maps a type name to the set of identifiers
    believed live, and CREATE "inserts the identifier into the Object Bucket
    under the operation's output type": the identifier joins the collection of
    that type unless it is in it already. *)
Definition put_in_object_bucket (bucket : gmap string (list pyval))
    (object_name : string) (object_val : pyval) : gmap string (list pyval) :=
  match bucket !! object_name with
  | Some ids =>
      if mem object_val ids then bucket else <[object_name := ids ++ [object_val]]> bucket
  | None => <[object_name := [object_val]]> bucket
  end.

(** Modelled from the spec: [fuzzer.utils.remove_from_object_bucket] is not
    among the sources. DELETE "removes the identifier ... from the bucket":
    the identifier leaves the collection of that type, which stays (possibly
    empty). *)
Definition remove_from_object_bucket (bucket : gmap string (list pyval))
    (object_name : string) (object_val : pyval) : gmap string (list pyval) :=
  match bucket !! object_name with
  | Some ids => <[object_name := filter (fun x => eqb x object_val = false) ids]> bucket
  | None => bucket
  end.

Section engine.
Variable env : Env.
Variable self : FEngine.

(** Step 3 of [run_regular_mutation]: what the returned value does to the
    bucket. Both helpers work on the one bucket dict of the store. *)
Definition process_mutation_result (mutation_name : string)
    (used_objects : gmap string pyval) (result : pyval) : M unit :=
  if is_dict result then
    mutation_output_type ← lift (get_output_type env mutation_name (mutations self));
    has_id ← lift (contains "id" result);
    if (has_id : bool) then
      returned_id ← lift (getitem result "id");
      match mutations self !! mutation_name with
      | None => raise (KeyError mutation_name)
      | Some mutation_info =>
          let mutation_type := mutationType mutation_info in
          if bool_decide (mutation_type = "CREATE") then
            if negb (is_None returned_id) then
              objects_bucket ← get_objects_bucket;
              set_objects_bucket (put_in_object_bucket objects_bucket mutation_output_type returned_id)
            else mret tt
          else if bool_decide (mutation_type = "UPDATE") then mret tt
          else if bool_decide (mutation_type = "DELETE") then
            match used_objects !! mutation_output_type with
            | Some used_object_value =>
                objects_bucket ← get_objects_bucket;
                set_objects_bucket
                  (remove_from_object_bucket objects_bucket mutation_output_type used_object_value)
            | None => mret tt
            end
          else mret tt
      end
    else mret tt
  else mret tt.

(** The same step of [run_regular_query]. *)
Definition process_query_result (query_name : string) (result : pyval) : M unit :=
  if is_dict result then
    query_output_type ← lift (get_output_type env query_name (queries self));
    has_id ← lift (contains "id" result);
    if (has_id : bool) then
      returned_id ← lift (getitem result "id");
      if negb (is_None returned_id) then
        objects_bucket ← get_objects_bucket;
        set_objects_bucket (put_in_object_bucket objects_bucket query_output_type returned_id)
      else mret tt
    else mret tt
  else mret tt.

(** From [if "data" not in graphql_response] to the final [return] of the
    [try] block; [process] is step 3. The result is the success flag. *)
Definition interpret (name : string) (process : pyval -> M unit)
    (graphql_response : pyval) : M bool :=
  has_data ← lift (contains "data" graphql_response);
  if negb has_data then
    log env "No data in response";; mret false
  else
    data ← lift (getitem graphql_response "data");
    result ← lift (getitem data name);
    if is_None result then
      log env "returned no data -- returning early";;
      mret NO_DATA_COUNT_AS_SUCCESS
    else
      log env "Response";;
      data ← lift (getitem graphql_response "data");
      empty ← lift (check_is_data_empty env data);
      if (empty : bool) then
        log env "Empty data in response, returning early";; mret false
      else
        data ← lift (getitem graphql_response "data");
        result ← lift (getitem data name);
        process result;; mret true.

(** Step 2: the request and, on [errors], the one call of the retrier. *)
Definition send_and_interpret (fuel : nat) (name payload_string : string)
    (process : pyval -> M unit) : M bool :=
  log env "Sending payload string";;
  response ← send env (url self) payload_string;
  '(graphql_response, request_response) ← lift (unpack2 response);
  status_code ← lift (status_code_of request_response);
  log env "Request Response code";;
  lift (add_http_status_code env name status_code);;
  if negb (truthy graphql_response) then mret false
  else
    has_errors ← lift (contains "errors" graphql_response);
    if (has_errors : bool) then
      errors ← lift (getitem graphql_response "errors");
      lift (getindex errors 0);;
      log env "failed";;
      log env "Retrying ---";;
      '(graphql_response, retry_success) ←
        Retrier.retry env fuel (url self) payload_string graphql_response 0;
      if negb retry_success then mret false
      else interpret name process graphql_response
    else interpret name process graphql_response.

(** The [try] block of [run_regular_mutation], for the materializer class
    [cls] that the name [RegularMutationMaterializer] is bound to. *)
Definition mutation_try (cls : materializer_class) (fuel : nat) (mutation_name : string)
  : M bool :=
  log env "Running mutation";;
  log env "Objects bucket";;
  materializer ← new cls 4 (objects self) (mutations self) (input_objects self) (enums self);
  '(mutation_payload_string, used_objects) ← get_payload cls materializer mutation_name;
  send_and_interpret fuel mutation_name mutation_payload_string
    (process_mutation_result mutation_name used_objects).

Definition query_try (cls : materializer_class) (fuel : nat) (query_name : string)
  : M bool :=
  log env "Running query";;
  log env "Objects bucket";;
  materializer ← new cls 4 (objects self) (queries self) (input_objects self) (enums self);
  '(query_payload_string, used_objects) ← get_payload cls materializer query_name;
  send_and_interpret fuel query_name query_payload_string (process_query_result query_name).

(** [return (objects_bucket, False)] in a handler, after its log line. *)
Definition failed (msg : string) : M (gmap string (list pyval) * bool) :=
  log env msg;;
  objects_bucket ← get_objects_bucket;
  mret (objects_bucket, false).

(** [run_regular_mutation]: the [try] block and its three [except]
    clauses. [Diverge] is no exception of the model, so no clause sees it
    and it leaves the run as it came: it stands for an outside call that does
    not come back and for a recursion that has used up its fuel. Where
    CPython cuts such a recursion short with a [RecursionError], the last
    clause would take it, as it takes every [Exception]; that case is outside
    this definition. *)
Definition run_regular_mutation_with (cls : materializer_class) (fuel : nat)
    (mutation_name : string) : M (gmap string (list pyval) * bool) :=
  fun w =>
    match mutation_try cls fuel mutation_name w with
    | (Ret success, w') => (Ret (objects_bucket w', success), w')
    | (Raise e, w') =>
        if is_HardDependencyNotMet e then failed "Hard dependency not met" w'
        else if is_BdbQuit e then (Raise e, w')
        else if is_Exception e then failed "Exception when running" w'
        else (Raise e, w')
    | (Diverge, w') => (Diverge, w')
    end.

(** [run_regular_query]: the [try] block and its two [except] clauses, with
    [Diverge] passed on as in [run_regular_mutation_with]. *)
Definition run_regular_query_with (cls : materializer_class) (fuel : nat)
    (query_name : string) : M (gmap string (list pyval) * bool) :=
  fun w =>
    match query_try cls fuel query_name w with
    | (Ret success, w') => (Ret (objects_bucket w', success), w')
    | (Raise e, w') =>
        if is_BdbQuit e then (Raise e, w')
        else if is_Exception e then failed "Exception when running" w'
        else (Raise e, w')
    | (Diverge, w') => (Diverge, w')
    end.

Definition run_regular_mutation (fuel : nat) (mutation_name : string)
  : M (gmap string (list pyval) * bool) :=
  run_regular_mutation_with (RegularMutationMaterializer env fuel) fuel mutation_name.

Definition run_regular_query (fuel : nat) (query_name : string)
  : M (gmap string (list pyval) * bool) :=
  run_regular_query_with (RegularQueryMaterializer env fuel) fuel query_name.

End engine.

End FEngine.

(** ** Example schemas *)

Module Examples.
Import Materializer.

Definition scalar (name ty : string) : TypeDescriptor := mk_type "SCALAR" name ty None.
Definition object (name ty : string) : TypeDescriptor := mk_type "OBJECT" name ty None.
Definition input_object (name ty : string) : TypeDescriptor :=
  mk_type "INPUT_OBJECT" name ty None.
Definition non_null (name : string) (inner : TypeDescriptor) : TypeDescriptor :=
  mk_type "NON_NULL" name "" (Some inner).
Definition list_of (name : string) (inner : TypeDescriptor) : TypeDescriptor :=
  mk_type "LIST" name "" (Some inner).

(** [type User { id: ID!, name: String! }] *)
Definition User : ObjectType :=
  mk_object_type [non_null "id" (scalar "ID" "ID"); non_null "name" (scalar "String" "String")].

(** [type A { id: ID!, friend: A! }] *)
Definition A : ObjectType :=
  mk_object_type [non_null "id" (scalar "ID" "ID"); non_null "friend" (object "A" "A")].

(** [type Group { owner: Empty, members: [Empty] }] over [type Empty {}] *)
Definition Group : ObjectType :=
  mk_object_type [object "owner" "Empty"; list_of "members" (object "Empty" "Empty")].
Definition Empty : ObjectType := mk_object_type [].

Definition example_objects : gmap string ObjectType :=
  <["User" := User]> (<["A" := A]> (<["Group" := Group]> (<["Empty" := Empty]> ∅))).

Definition example_materializer : RegularMaterializer :=
  mk_materializer example_objects ∅ ∅ ∅.

(** An environment in which nothing external fails: the generator always
    draws 0, scalars are the literal [0], payloads are sent as they are, the
    server answers every request with an empty [data] and status 200. *)
Definition quiet_env : Env :=
  {| randbelow := fun _ _ => 0;
     get_random_scalar := fun _ _ _ => Ret "0";
     prettify_graphql_payload := fun p => Ret p;
     repr := fun _ => "<object>";
     logger_info := fun _ => Ret tt;
     send_graphql_request := fun _ _ _ => Ret (PTuple [PDict [("data", PDict [])]; PResponse 200]);
     add_http_status_code := fun _ _ => Ret tt;
     get_output_type := fun name ops =>
       match ops !! name with
       | Some op => Ret (type (output op))
       | None => Raise (KeyError name)
       end;
     check_is_data_empty := fun _ => Ret false;
     find_block_end := fun _ line => Ret line;
     remove_lines_within_range := fun p _ _ => Ret p |}.

Definition empty_world : world := mk_world ∅ ∅ 0 [].

(** [createUser(name: String!): User] and [deleteUser(id: ID!): User], the
    latter with [id] hard-dependent on [User]. *)
Definition createUser : OperationDescriptor :=
  {| inputs := [("name", non_null "name" (scalar "name" "String"))];
     output := object "createUser" "User";
     hardDependsOn := ∅; softDependsOn := ∅; mutationType := "CREATE" |}.
Definition deleteUser : OperationDescriptor :=
  {| inputs := [("id", non_null "id" (scalar "id" "ID"))];
     output := object "deleteUser" "User";
     hardDependsOn := {["id" := "User"]}; softDependsOn := ∅; mutationType := "DELETE" |}.
Definition example_mutations : gmap string OperationDescriptor :=
  <["createUser" := createUser]> (<["deleteUser" := deleteUser]> ∅).

(** [user(id: ID!): User] *)
Definition user : OperationDescriptor :=
  {| inputs := [("id", non_null "id" (scalar "id" "ID"))];
     output := object "user" "User";
     hardDependsOn := ∅; softDependsOn := ∅; mutationType := "" |}.
Definition example_queries : gmap string OperationDescriptor := <["user" := user]> ∅.

(** [deleteUser] against buckets with and without a live [User]. *)
Definition id_field : TypeDescriptor := non_null "id" (scalar "id" "ID").
Definition world_with (bucket : gmap string (list pyval)) : world := mk_world bucket ∅ 0 [].

(** [usersOf(ownerId: ID): User], with [ownerId] soft-dependent on [User]. *)
Definition usersOf : OperationDescriptor :=
  {| inputs := [("ownerId", scalar "ownerId" "ID")];
     output := object "usersOf" "User";
     hardDependsOn := ∅; softDependsOn := {["ownerId" := "User"]}; mutationType := "" |}.

(** [input Filter { and: Filter }] and [search(filter: Filter): User]. *)
Definition Filter : InputObjectType :=
  mk_input_object [("and", input_object "and" "Filter")].
Definition search : OperationDescriptor :=
  {| inputs := [("filter", input_object "filter" "Filter")];
     output := object "search" "User";
     hardDependsOn := ∅; softDependsOn := ∅; mutationType := "" |}.
Definition recursive_materializer : RegularMaterializer :=
  mk_materializer example_objects {["search" := search]} {["Filter" := Filter]} ∅.

(** The response of the retrier's docstring, and two servers that answer
    every request with it: one through the transport as the engine uses it
    (the decoded body paired with the HTTP response), one handing back the
    decoded body alone. *)
Definition null_field_error : pyval :=
  PDict [("errors",
          PList [PDict [("message",
                         PStr "Cannot return null for non-nullable field Transaction.payer.");
                        ("locations", PList [PDict [("line", PInt 4%Z); ("column", PInt 5%Z)]])]])].
Definition other_error : pyval :=
  PDict [("errors", PList [PDict [("message", PStr "Syntax Error: Unexpected Name.")]])].

Definition with_transport (send : list string -> string -> string -> outcome pyval) : Env :=
  {| randbelow := randbelow quiet_env;
     get_random_scalar := get_random_scalar quiet_env;
     prettify_graphql_payload := prettify_graphql_payload quiet_env;
     repr := repr quiet_env;
     logger_info := logger_info quiet_env;
     send_graphql_request := send;
     add_http_status_code := add_http_status_code quiet_env;
     get_output_type := get_output_type quiet_env;
     check_is_data_empty := check_is_data_empty quiet_env;
     find_block_end := find_block_end quiet_env;
     remove_lines_within_range := remove_lines_within_range quiet_env |}.

Definition rejecting_env : Env :=
  with_transport (fun _ _ _ => Ret (PTuple [null_field_error; PResponse 200])).
Definition rejecting_bare_env : Env :=
  with_transport (fun _ _ _ => Ret null_field_error).

Definition example_engine : FEngine.FEngine :=
  FEngine.mk_engine example_queries example_objects example_mutations ∅ ∅ "http://localhost/graphql".

(** A materializer class called with the logger as a fifth argument. *)
Definition with_logger (cls : FEngine.materializer_class) : FEngine.materializer_class :=
  {| FEngine.new := fun npos => FEngine.new cls (S npos);
     FEngine.get_payload := FEngine.get_payload cls |}.

(** A server that answers every request with the given body. *)
Definition answering_env (body : pyval) : Env :=
  with_transport (fun _ _ _ => Ret (PTuple [body; PResponse 200])).

(** A transport that fails to connect. *)
Definition unreachable_env : Env :=
  with_transport (fun _ _ _ => Raise (OtherException "ConnectionError")).

(** A debugger session that is quit during the transport call. *)
Definition debugged_transport_env : Env :=
  with_transport (fun _ _ _ => Raise BdbQuit).

(** A debugger session that is quit while the fuzzer logger runs. *)
Definition debugger_env : Env :=
  {| randbelow := randbelow quiet_env;
     get_random_scalar := get_random_scalar quiet_env;
     prettify_graphql_payload := prettify_graphql_payload quiet_env;
     repr := repr quiet_env;
     logger_info := fun _ => Raise BdbQuit;
     send_graphql_request := send_graphql_request quiet_env;
     add_http_status_code := add_http_status_code quiet_env;
     get_output_type := get_output_type quiet_env;
     check_is_data_empty := check_is_data_empty quiet_env;
     find_block_end := find_block_end quiet_env;
     remove_lines_within_range := remove_lines_within_range quiet_env |}.

(** [type Lookup { result: SearchResult, node: Node }], with
    [union SearchResult] and [interface Node]. *)
Definition Lookup : ObjectType :=
  mk_object_type [mk_type "UNION" "result" "SearchResult" None;
                  mk_type "INTERFACE" "node" "Node" None].

Definition lookup_materializer : RegularMaterializer :=
  mk_materializer (<["Lookup" := Lookup]> ∅) ∅ ∅ ∅.

End Examples.

(** ** Predicates on materializations and computations *)

Module Predicates.
Import constants Materializer Selection FEngine.

(** The text written for one field: nothing, or a selection without empty
    blocks, with names that satisfy [P]. *)
Definition selection_text (P : string -> Prop) (s : string) : Prop :=
  s = ""
  \/ exists sel, s = render sel /\ no_empty_block sel = true /\ 1 <= bare_names sel
                 /\ Forall P (selection_names sel).

(** A call writes the name of its descriptor when asked to include it, and
    for a wrapper type. *)
Definition name_written (t : TypeDescriptor) (include_name : bool) : Prop :=
  include_name = true \/ ofType t <> None.

Definition writes_selections (P : string -> Prop)
    (rec : TypeDescriptor -> list string -> bool -> outcome (string * list string)) : Prop :=
  forall t used incl s used',
    (name_written t incl -> P (name t)) ->
    rec t used incl = Ret (s, used') -> selection_text P s.

(** The fields of every object type of the schema have names that satisfy
    [P]. *)
Definition field_names (P : string -> Prop) (self : RegularMaterializer) : Prop :=
  forall o info f, Materializer.objects self !! o = Some info -> f ∈ fields info -> P (name f).

(** The text stays free of [{}] when put next to any other such text. *)
Definition tidy (s : string) : Prop :=
  has_empty_braces s = false /\ first_is rbrace s = false /\ last_is lbrace s = false.

(** What a call leaves in [used_objects]: the list it was given, extended,
    and no object type more often than the bound allows. *)
Definition grows_within_bound
    (rec : TypeDescriptor -> list string -> bool -> outcome (string * list string)) : Prop :=
  forall t used incl s used',
    rec t used incl = Ret (s, used') ->
    used `prefix_of` used'
    /\ forall o, count o used' <= count o used `max` MAX_OBJECT_CYCLES.

(** A call that has the fuel for every state of [used_objects] that extends
    [used0]. *)
Definition returns_from (used0 : list string)
    (rec : TypeDescriptor -> list string -> bool -> outcome (string * list string)) : Prop :=
  forall t used incl, used0 `prefix_of` used -> rec t used incl <> Diverge.

(** [m] never changes the bucket, whatever its outcome. *)
Definition keeps_bucket {A : Type} (m : M A) : Prop :=
  forall w r w', m w = (r, w') -> objects_bucket w' = objects_bucket w.

(** [m] has not changed the bucket when it raises. *)
Definition raises_with_bucket_kept {A : Type} (m : M A) : Prop :=
  forall w e w', m w = (Raise e, w') -> objects_bucket w' = objects_bucket w.

(** A computation that comes back on every store. *)
Definition returns {A : Type} (m : M A) : Prop := forall w, (m w).1 <> Diverge.

(** A materializer class whose methods leave the bucket alone. *)
Definition class_keeps_bucket (cls : materializer_class) : Prop :=
  (forall npos objects ops input_objects enums,
     keeps_bucket (new cls npos objects ops input_objects enums))
  /\ (forall materializer name, keeps_bucket (get_payload cls materializer name)).

(** The payloads that [k] rounds of repairing and resending send. *)
Fixpoint resent (patch : string -> string) (payload : string) (k : nat) : list string :=
  match k with
  | 0 => []
  | S k => patch payload :: resent patch (patch payload) k
  end.

End Predicates.
Export Predicates.
(** ** What a computation does to the store *)

Module Effects.
Import FEngine.

(** [m] takes every store to one that is related to it by [R], whatever its
    outcome. *)
Definition frame {A : Type} (R : world -> world -> Prop) (m : M A) : Prop :=
  forall w, R w (m w).2.

(** The part [proj] of the store is as it was. *)
Definition same {B : Type} (proj : world -> B) : world -> world -> Prop :=
  fun w w' => proj w' = proj w.

(** Requests were only added to those sent, and at most [n] of them. *)
Definition sent_upto (n : nat) : world -> world -> Prop :=
  fun w w' => exists more, sent w' = sent w ++ more /\ length more <= n.

(** Nothing but the requests sent has changed. *)
Definition sends_only : world -> world -> Prop :=
  fun w w' =>
    objects_bucket w' = objects_bucket w /\ used_objects w' = used_objects w
    /\ rand_state w' = rand_state w.

(** The store of a materializer at work: the bucket and the requests sent are
    as they were, and the random generator has only advanced. *)
Definition materializes : world -> world -> Prop :=
  fun w w' =>
    objects_bucket w' = objects_bucket w /\ sent w' = sent w
    /\ rand_state w <= rand_state w'.

(** Every identifier that [used_objects] records is in the bucket, under the
    type it is recorded for. *)
Definition used_in_bucket (w : world) : Prop :=
  forall T v, used_objects w !! T = Some v ->
    exists ids, objects_bucket w !! T = Some ids /\ v ∈ ids.

(** [m] keeps the property [I] of the store. *)
Definition maintains {A : Type} (I : world -> Prop) (m : M A) : Prop :=
  forall w, I w -> I (m w).2.

(** [m] leaves the bucket as it was unless it comes back with a result that
    [ok] accepts. *)
Definition writes_bucket_only_when {A : Type} (ok : A -> bool) (m : M A) : Prop :=
  forall w, (forall a, (m w).1 = Ret a -> ok a = false) ->
            objects_bucket (m w).2 = objects_bucket w.

(** Both methods of a materializer class take the store to a related
    one. *)
Definition class_frame (R : world -> world -> Prop) (cls : materializer_class) : Prop :=
  (forall npos objects ops input_objects enums,
     frame R (new cls npos objects ops input_objects enums))
  /\ (forall materializer name, frame R (get_payload cls materializer name)).

(** The transport hands back a pair whenever it returns, as [fengine.py]
    unpacks its result. *)
Definition answers_with_pairs (env : Env) : Prop :=
  forall hist url payload r,
    send_graphql_request env hist url payload = Ret r -> exists body http, r = PTuple [body; http].

End Effects.
Export Effects.

Module RetrierFacts.
Import Retrier.

(** Whether [response["errors"][0]["message"]] holds the phrase that [retry]
    looks for; the lookups on the way raise as they do in [retry]. *)
Definition reports_null_field (response : pyval) : outcome bool :=
  errors ← getitem response "errors";
  error ← getindex errors 0;
  message ← getitem error "message";
  contains "Cannot return null for non-nullable field" message.

End RetrierFacts.

(** ** Bounds on the schema *)

Module SchemaBounds.
Import constants Materializer.

(** The input descriptor nests less than [n] levels deep: each wrapper
    ([ofType]) and each step into the fields of an input object is one
    level. *)
Fixpoint input_nests_within (self : RegularMaterializer) (n : nat) (t : TypeDescriptor)
  : bool :=
  match n with
  | 0 => false
  | S n =>
      if bool_decide (kind t = "NON_NULL") || bool_decide (kind t = "LIST") then
        match ofType t with
        | Some oftype => input_nests_within self n oftype
        | None => true
        end
      else if bool_decide (kind t = "INPUT_OBJECT") then
        match input_objects self !! type t with
        | Some input_object =>
            forallb (fun item => input_nests_within self n item.2) (inputFields input_object)
        | None => true
        end
      else true
  end.

(** A descriptor that [materialize_output] can read: an object type is one
    of the schema, a wrapper has an [ofType], and what the wrappers end in is
    a scalar, an object type of the schema, or some other kind that is not
    itself a wrapper. *)
Definition readable (self : RegularMaterializer) (t : TypeDescriptor) : bool :=
  if bool_decide (kind t = "OBJECT") then bool_decide (is_Some (objects self !! type t))
  else if bool_decide (kind t = "NON_NULL") || bool_decide (kind t = "LIST") then
    match ofType t with
    | None => false
    | Some oftype =>
        let base_oftype := get_base_oftype oftype in
        if bool_decide (kind base_oftype = "SCALAR") then true
        else if bool_decide (kind base_oftype = "OBJECT") then
          bool_decide (is_Some (objects self !! type base_oftype))
        else negb (bool_decide (kind base_oftype = "NON_NULL")
                   || bool_decide (kind base_oftype = "LIST"))
    end
  else true.

(** The errors of a schema that is not closed: an object type that the
    schema does not have, a wrapper without [ofType]. *)
Definition schema_error (self : RegularMaterializer) (e : exn) : Prop :=
  (exists o, e = KeyError o /\ objects self !! o = None)
  \/ e = TypeError "'NoneType' object is not subscriptable".

(** Every field of every object type of the schema is readable. *)
Definition closed (self : RegularMaterializer) : Prop :=
  forall o info f, objects self !! o = Some info -> f ∈ fields info -> readable self f = true.

(** A field that is selected by its bare name: not an object, and when it
    is a wrapper, one around a scalar. *)
Definition flat (t : TypeDescriptor) : bool :=
  negb (bool_decide (kind t = "OBJECT"))
  && (if bool_decide (kind t = "NON_NULL") || bool_decide (kind t = "LIST") then
        match ofType t with
        | Some oftype => bool_decide (kind (get_base_oftype oftype) = "SCALAR")
        | None => false
        end
      else true).

(** The bare names of the fields, each followed by a comma and a space. *)
Fixpoint listing (fs : list TypeDescriptor) : string :=
  match fs with
  | [] => ""
  | f :: rest => name f +:+ ", " +:+ listing rest
  end.

End SchemaBounds.

(** ** The fields of an object type, for the resolver and for the
    specification *)

Module FieldTypes.
Import constants Materializer.

(** A type descriptor as the dict it is. The materializers read such a dict
    under [ofType] ([output["ofType"]] goes to [get_base_oftype],
    [input_field["ofType"]] back into [materialize_input_field]), and the
    fields they read are those of the objects that the resolver has
    enriched. *)
Fixpoint descriptor (t : TypeDescriptor) : pyval :=
  match t with
  | mk_type kind name type oftype =>
      PDict [("kind", PStr kind); ("name", PStr name); ("type", PStr type);
             ("ofType", match oftype with
                        | Some t' => descriptor t'
                        | None => PNone
                        end)]
  end.

(** What [parse_gql_object] finds under ["kind"], ["type"] and ["ofType"]
    of a field of the schema. *)
Definition resolver_field (t : TypeDescriptor) : Resolver.field :=
  Resolver.mk_field (kind t) (PStr (type t))
    (match ofType t with
     | Some t' => descriptor t'
     | None => PNone
     end).

(** An object type of the schema before it is resolved. *)
Definition resolver_object (info : ObjectType) : Resolver.gql_object :=
  Resolver.mk_object (resolver_field <$> fields info) [] [].

(** In the words of the specification: the named type of a field, which for
    a NON_NULL or LIST field is the named type of its [ofType], down to the
    descriptor that the wrappers end in. *)
Definition named_type (t : TypeDescriptor) : string := type (get_base_oftype t).

(** In the words of the specification: a NON_NULL field whose inner named
    type is not a built-in scalar is a hard dependency on that type, a LIST
    field and an unwrapped field whose named type is not a built-in scalar
    are soft dependencies on it, and a field whose named type is one of ID,
    Int, Float, String, Boolean is no dependency. *)
Definition spec_classification (t : TypeDescriptor) : Resolver.classification :=
  if bool_decide (named_type t ∈ ["ID"; "Int"; "Float"; "String"; "Boolean"]) then
    Resolver.Neither
  else if bool_decide (kind t = "NON_NULL") then Resolver.Hard (PStr (named_type t))
  else if bool_decide (kind t = "LIST") then Resolver.Soft (PStr (named_type t))
  else Resolver.Soft (PStr (named_type t)).

End FieldTypes.

(** ** constants.py as a module object, and compiler/compiler.py *)

Module Compiler.

(** The names that [constants.py] binds, in the order of the file, with
    their values. *)
Definition EXTRACTED_DIR_NAME : string := "extracted".
Definition COMPILED_DIR_NAME : string := "compiled".

Definition constants_module : list (string * pyval) :=
  [("AUTHORIZATION", PNone);
   ("EXTRACTED_DIR_NAME", PStr EXTRACTED_DIR_NAME);
   ("COMPILED_DIR_NAME", PStr COMPILED_DIR_NAME);
   ("INTROSPECTION_RESULT_FILE_NAME", PStr "introspection_result.json");
   ("QUERY_PARAMETER_FILE_NAME", PStr (EXTRACTED_DIR_NAME +:+ "/query_parameter_list.yml"));
   ("MUTATION_PARAMETER_FILE_NAME",
    PStr (EXTRACTED_DIR_NAME +:+ "/mutation_parameter_list.yml"));
   ("OBJECT_LIST_FILE_NAME", PStr (EXTRACTED_DIR_NAME +:+ "/object_list.yml"));
   ("INPUT_OBJECT_LIST_FILE_NAME", PStr (EXTRACTED_DIR_NAME +:+ "/input_object_list.yml"));
   ("ENUM_LIST_FILE_NAME", PStr (EXTRACTED_DIR_NAME +:+ "/enum_list.yml"));
   ("COMPILED_OBJECTS_FILE_NAME", PStr (COMPILED_DIR_NAME +:+ "/compiled_objects.yml"));
   ("COMPILED_MUTATIONS_FILE_NAME", PStr (COMPILED_DIR_NAME +:+ "/compiled_mutations.yml"));
   ("COMPILED_QUERIES_FILE_NAME", PStr (COMPILED_DIR_NAME +:+ "/compiled_queries.yml"));
   ("MAX_LEVENSHTEIN_THRESHOLD", PInt 20);
   ("GRAPH_VISUALIZATION_OUTPUT", PStr "dependency_graph.png");
   ("BUILT_IN_TYPES", PList (PStr <$> constants.BUILT_IN_TYPES));
   ("BUILT_IN_TYPE_KINDS", PList (PStr <$> constants.BUILT_IN_TYPE_KINDS));
   ("MAX_OBJECT_CYCLES", PInt (Z.of_nat constants.MAX_OBJECT_CYCLES));
   ("MAX_OUTPUT_SELECTOR_DEPTH", PInt (Z.of_nat constants.MAX_OUTPUT_SELECTOR_DEPTH));
   ("HARD_CUTOFF_DEPTH", PInt (Z.of_nat constants.HARD_CUTOFF_DEPTH));
   ("MAX_INPUT_DEPTH", PInt (Z.of_nat constants.MAX_INPUT_DEPTH));
   ("FUZZER_LOG_FILE_PATH", PStr "logs/fuzzer.log");
   ("COMPILER_LOG_FILE_PATH", PStr "logs/compiler.log");
   ("STATS_FILE_PATH", PStr "stats.txt");
   ("USE_OBJECTS_BUCKET", PBool true);
   ("USE_DEPENDENCY_GRAPH", PBool true);
   ("NO_DATA_COUNT_AS_SUCCESS", PBool constants.NO_DATA_COUNT_AS_SUCCESS)].

(** [constants.NAME] *)
Definition getattr_constants (name : string) : outcome pyval :=
  match assoc name constants_module with
  | Some v => Ret v
  | None => Raise (AttributeError name)
  end.

(** A [pathlib] path, as the expression that builds it: [Path(s)] and
    [p / q]. *)
Inductive path : Type :=
  | Path (s : string)
  | Join (p q : path).

(** [Path(v)] *)
Definition to_path (v : pyval) : outcome path :=
  match v with
  | PStr s => Ret (Path s)
  | _ => Raise (TypeError "expected str, bytes or os.PathLike object")
  end.

(** [p / v] for a string [v], which is taken as a path. *)
Definition join (p : path) (v : pyval) : outcome path :=
  match v with
  | PStr s => Ret (Join p (Path s))
  | _ => Raise (TypeError "unsupported operand type(s) for /")
  end.

(** What the constructor does outside the interpreter: the parsers it
    creates, the directory it makes, the files it initializes. *)
Inductive effect : Type :=
  | NewParser (class : string)
  | Mkdir (p : path)
  | InitializeFile (p : path).

(** The calls that leave [compiler.py], each with the effects made so far;
    what they answer is not modelled. *)
Record CompilerEnv : Type := mk_compiler_env {
  new_parser : string -> list effect -> outcome unit;
  mkdir : path -> list effect -> outcome unit;
  initialize_file : path -> list effect -> outcome unit
}.

(** The attributes that [__init__] sets, apart from the parsers. *)
Record Compiler : Type := mk_compiler {
  save_path : string;
  introspection_result_save_path : path;
  object_list_save_path : path;
  input_object_list_save_path : path;
  mutation_parameter_save_path : path;
  query_parameter_save_path : path;
  enum_list_save_path : path;
  compiled_object_list_save_path : path;
  url : string
}.

(** A computation on the effects made so far; they stay made when it
    raises. *)
Definition C (A : Type) : Type := list effect -> outcome A * list effect.

#[export] Instance C_ret : MRet C := fun A a log => (Ret a, log).
#[export] Instance C_bind : MBind C := fun A B f m log =>
  match m log with
  | (Ret a, log') => f a log'
  | (Raise e, log') => (Raise e, log')
  | (Diverge, log') => (Diverge, log')
  end.

Definition pure {A : Type} (o : outcome A) : C A := fun log => (o, log).

(** An outside call: the effect is made, whatever the call answers. *)
Definition outside (e : effect) (call : list effect -> outcome unit) : C unit :=
  fun log => (call log, log ++ [e]).

(** [Compiler.__init__(save_path, url)] *)
Definition init (cenv : CompilerEnv) (save_path url : string) : C Compiler :=
  let in_save_path (name : string) : C path :=
    pure (getattr_constants name ≫= join (Path save_path)) in
  introspection_result_save_path ←
    pure (name ← getattr_constants "INTROSPECTION_RESULT_FILE_NAME";
          q ← to_path name;
          mret (Join (Path save_path) q));
  object_list_save_path ← in_save_path "OBJECT_LIST_FILE_NAME";
  input_object_list_save_path ← in_save_path "INPUT_OBJECT_LIST_FILE_NAME";
  mutation_parameter_save_path ← in_save_path "MUTATION_PARAMETER_FILE_NAME";
  query_parameter_save_path ← in_save_path "QUERY_PARAMETER_FILE_NAME";
  enum_list_save_path ← in_save_path "ENUM_LIST_FILE_NAME";
  compiled_object_list_save_path ← in_save_path "COMPILED_OBJECT_LIST_FILE_NAME";
  outside (NewParser "ObjectListParser") (new_parser cenv "ObjectListParser");;
  outside (NewParser "QueryListParser") (new_parser cenv "QueryListParser");;
  outside (NewParser "MutationListParser") (new_parser cenv "MutationListParser");;
  outside (NewParser "InputObjectListParser") (new_parser cenv "InputObjectListParser");;
  outside (NewParser "EnumListParser") (new_parser cenv "EnumListParser");;
  outside (Mkdir (Path save_path)) (mkdir cenv (Path save_path));;
  outside (InitializeFile introspection_result_save_path)
    (initialize_file cenv introspection_result_save_path);;
  outside (InitializeFile object_list_save_path)
    (initialize_file cenv object_list_save_path);;
  outside (InitializeFile input_object_list_save_path)
    (initialize_file cenv input_object_list_save_path);;
  outside (InitializeFile mutation_parameter_save_path)
    (initialize_file cenv mutation_parameter_save_path);;
  outside (InitializeFile query_parameter_save_path)
    (initialize_file cenv query_parameter_save_path);;
  outside (InitializeFile enum_list_save_path)
    (initialize_file cenv enum_list_save_path);;
  outside (InitializeFile compiled_object_list_save_path)
    (initialize_file cenv compiled_object_list_save_path);;
  mret (mk_compiler save_path introspection_result_save_path object_list_save_path
          input_object_list_save_path mutation_parameter_save_path
          query_parameter_save_path enum_list_save_path
          compiled_object_list_save_path url).

End Compiler.


(** * Properties *)

(** ** The object dependency resolver *)

Section resolver_props.
Import constants Resolver.

Lemma parse_field_spec soft hard f :
  parse_field (soft, hard) f
  = (soft ++ option_list (soft_of f), hard ++ option_list (hard_of f)).
Proof.
  unfold parse_field, soft_of, hard_of, classify.
  destruct (bool_decide (kind f = "NON_NULL")) eqn:Hnn.
  - apply bool_decide_eq_true in Hnn. rewrite andb_false_r. simpl.
    destruct (in_BUILT_IN_TYPES (ofType f)); simpl; by rewrite ?app_nil_r.
  - destruct (bool_decide (kind f = "LIST")) eqn:Hl.
    + rewrite andb_false_r. simpl.
      destruct (in_BUILT_IN_TYPES (ofType f)); simpl; by rewrite ?app_nil_r.
    + rewrite !andb_true_r.
      destruct (bool_decide (kind f ∈ BUILT_IN_TYPE_KINDS)); simpl;
        [destruct (in_BUILT_IN_TYPES (type f)) |]; simpl; by rewrite ?app_nil_r.
Qed.

Lemma foldl_parse_field fs : forall soft hard,
  foldl parse_field (soft, hard) fs
  = (soft ++ omap soft_of fs, hard ++ omap hard_of fs).
Proof.
  induction fs as [|f fs IH]; intros soft hard; cbn [foldl omap list_omap].
  - by rewrite !app_nil_r.
  - rewrite parse_field_spec, IH, <- !app_assoc.
    by destruct (soft_of f), (hard_of f).
Qed.

Lemma builtin_name_in_BUILT_IN_TYPES b :
  b ∈ BUILT_IN_TYPES -> in_BUILT_IN_TYPES (PStr b) = true.
Proof.
  intros Hb. unfold in_BUILT_IN_TYPES, mem. apply existsb_exists.
  exists (PStr b). split; [|simpl; by apply bool_decide_eq_true_2].
  apply list_elem_of_In, list_elem_of_fmap. by exists b.
Qed.

Lemma classify_not_builtin f t :
  classify f = Hard t \/ classify f = Soft t -> in_BUILT_IN_TYPES t = false.
Proof.
  unfold classify.
  repeat case_bool_decide;
    repeat match goal with
           | |- context [if in_BUILT_IN_TYPES ?x then _ else _] =>
               destruct (in_BUILT_IN_TYPES x) eqn:?
           end; intros [Hc|Hc]; try discriminate; by inversion Hc; subst.
Qed.

(** The lists that [parse_gql_object] builds, in the terms of its own test:
    a NON_NULL field whose [ofType] value is not an element of
    [BUILT_IN_TYPES] has that value appended to [hardDependsOn] (and nowhere
    else); a LIST field whose [ofType] value is not an element, and a field
    of a plain kind whose [type] value is not an element, have it appended to
    [softDependsOn] (and nowhere else); every other field adds nothing. The
    two lists hold exactly these values, in field order, and none of the
    strings ID, Int, Float, String, Boolean occurs in either. Whether the
    value under [ofType] is the name that the test is meant for is not part
    of this statement. *)
Theorem parse_gql_object_classifies (o : gql_object) :
  let o' := parse_gql_object o in
  fields o' = fields o
  /\ hardDependsOn o' = omap hard_of (fields o)
  /\ softDependsOn o' = omap soft_of (fields o)
  /\ (forall f, f ∈ fields o ->
        match classify f with
        | Hard t => kind f = "NON_NULL" /\ t = ofType f /\ in_BUILT_IN_TYPES t = false
                    /\ hard_of f = Some t /\ soft_of f = None
        | Soft t => kind f <> "NON_NULL"
                    /\ (kind f = "LIST" /\ t = ofType f
                        \/ kind f <> "LIST" /\ kind f ∈ BUILT_IN_TYPE_KINDS /\ t = type f)
                    /\ in_BUILT_IN_TYPES t = false
                    /\ soft_of f = Some t /\ hard_of f = None
        | Neither => hard_of f = None /\ soft_of f = None
        end)
  /\ (forall f, f ∈ fields o ->
        (kind f = "NON_NULL" -> in_BUILT_IN_TYPES (ofType f) = false ->
           ofType f ∈ hardDependsOn o')
        /\ (kind f = "LIST" -> in_BUILT_IN_TYPES (ofType f) = false ->
             ofType f ∈ softDependsOn o')
        /\ (kind f <> "NON_NULL" -> kind f <> "LIST" -> kind f ∈ BUILT_IN_TYPE_KINDS ->
             in_BUILT_IN_TYPES (type f) = false -> type f ∈ softDependsOn o'))
  /\ (forall b, b ∈ BUILT_IN_TYPES ->
        (PStr b ∉ hardDependsOn o') /\ (PStr b ∉ softDependsOn o')).
Proof.
  unfold parse_gql_object. rewrite foldl_parse_field. simpl.
  split; [done|]. split; [done|]. split; [done|]. split; [|split].
  2:{ intros f Hf. split; [|split].
      - intros Hk Hb. apply list_elem_of_omap. exists f. split; [done|].
        unfold hard_of, classify. by rewrite (bool_decide_eq_true_2 _ Hk), Hb.
      - intros Hk Hb. apply list_elem_of_omap. exists f. split; [done|].
        unfold soft_of, classify.
        rewrite bool_decide_eq_false_2 by (rewrite Hk; discriminate).
        by rewrite (bool_decide_eq_true_2 _ Hk), Hb.
      - intros Hnn Hl Hk Hb. apply list_elem_of_omap. exists f. split; [done|].
        unfold soft_of, classify.
        by rewrite (bool_decide_eq_false_2 _ Hnn), (bool_decide_eq_false_2 _ Hl),
          (bool_decide_eq_true_2 _ Hk), Hb. }
  - intros f _. unfold hard_of, soft_of.
    destruct (classify f) as [t|t|] eqn:Hc; [| |done].
    + pose proof (classify_not_builtin f t (or_introl Hc)) as Hb.
      revert Hc. unfold classify. repeat case_bool_decide;
        repeat match goal with
               | |- context [if in_BUILT_IN_TYPES ?x then _ else _] =>
                   destruct (in_BUILT_IN_TYPES x)
               end; intros Hc; try discriminate; inversion Hc; subst; done.
    + pose proof (classify_not_builtin f t (or_intror Hc)) as Hb.
      revert Hc. unfold classify. repeat case_bool_decide;
        repeat match goal with
               | |- context [if in_BUILT_IN_TYPES ?x then _ else _] =>
                   destruct (in_BUILT_IN_TYPES x)
               end; intros Hc; try discriminate; inversion Hc; subst; naive_solver.
  - intros b Hb. split; intros Hin; apply list_elem_of_omap in Hin as (f & _ & Hf).
    + unfold hard_of in Hf. destruct (classify f) eqn:Hc; try discriminate.
      inversion Hf; subst.
      assert (in_BUILT_IN_TYPES (PStr b) = false) as Hn
        by (apply (classify_not_builtin f); by left).
      by rewrite (builtin_name_in_BUILT_IN_TYPES b Hb) in Hn.
    + unfold soft_of in Hf. destruct (classify f) eqn:Hc; try discriminate.
      inversion Hf; subst.
      assert (in_BUILT_IN_TYPES (PStr b) = false) as Hn
        by (apply (classify_not_builtin f); by right).
      by rewrite (builtin_name_in_BUILT_IN_TYPES b Hb) in Hn.
Qed.

(** [type User { id: ID!, friend: User!, posts: [Post], profile: Profile,
    name: String }] *)
Example parse_gql_object_user :
  parse_gql_object
    (mk_object [mk_field "NON_NULL" PNone (PStr "ID");
                mk_field "NON_NULL" PNone (PStr "User");
                mk_field "LIST" PNone (PStr "Post");
                mk_field "OBJECT" (PStr "Profile") PNone;
                mk_field "SCALAR" (PStr "String") PNone] [] [])
  = mk_object [mk_field "NON_NULL" PNone (PStr "ID");
               mk_field "NON_NULL" PNone (PStr "User");
               mk_field "LIST" PNone (PStr "Post");
               mk_field "OBJECT" (PStr "Profile") PNone;
               mk_field "SCALAR" (PStr "String") PNone]
      [PStr "Post"; PStr "Profile"] [PStr "User"].
Proof. vm_compute; reflexivity. Qed.

Lemma parse_gql_object_lists o :
  parse_gql_object o
  = mk_object (fields o) (omap soft_of (fields o)) (omap hard_of (fields o)).
Proof. unfold parse_gql_object. by rewrite foldl_parse_field. Qed.

Lemma not_a_name_not_builtin (t : pyval) :
  (forall s, t <> PStr s) -> in_BUILT_IN_TYPES t = false.
Proof.
  intros Ht. unfold in_BUILT_IN_TYPES, mem.
  destruct t; try done. by destruct (Ht s).
Qed.

End resolver_props.

(** *** The resolver on the fields that the materializers read *)

Section resolver_descriptors.
Import constants Materializer FieldTypes.

Lemma descriptor_not_a_name (t : TypeDescriptor) (s : string) : descriptor t <> PStr s.
Proof. by destruct t. Qed.

Lemma descriptor_not_builtin (t : TypeDescriptor) :
  Resolver.in_BUILT_IN_TYPES (descriptor t) = false.
Proof. apply not_a_name_not_builtin. intros s. apply descriptor_not_a_name. Qed.

Lemma resolver_field_wrapped (t oftype : TypeDescriptor) :
  ofType t = Some oftype -> Resolver.ofType (resolver_field t) = descriptor oftype.
Proof. unfold resolver_field. by intros ->. Qed.

(** C6. On the fields as the schema holds them, with a nested descriptor
    under [ofType], a NON_NULL or LIST field whose inner named type is one of
    ID, Int, Float, String, Boolean is no dependency in the words of the
    specification, and [parse_gql_object] records one: the test
    [field["ofType"] not in BUILT_IN_TYPES] compares the descriptor itself
    with the five names, and a descriptor is none of them, so the descriptor
    under [ofType] is appended to [hardDependsOn] for a NON_NULL field and to
    [softDependsOn] for a LIST field. What is appended is in no case the name
    of a type. *)
Theorem parse_gql_object_nested_descriptor
    (info : ObjectType) (t oftype : TypeDescriptor) :
  t ∈ fields info -> ofType t = Some oftype ->
  named_type t ∈ ["ID"; "Int"; "Float"; "String"; "Boolean"] ->
  let parsed := Resolver.parse_gql_object (resolver_object info) in
  spec_classification t = Resolver.Neither
  /\ (kind t = "NON_NULL" -> descriptor oftype ∈ Resolver.hardDependsOn parsed)
  /\ (kind t = "LIST" -> descriptor oftype ∈ Resolver.softDependsOn parsed)
  /\ (forall s, descriptor oftype <> PStr s).
Proof.
  intros Hfield Hof Hnamed parsed. subst parsed.
  rewrite parse_gql_object_lists. cbn [Resolver.hardDependsOn Resolver.softDependsOn].
  assert (resolver_field t ∈ Resolver.fields (resolver_object info)) as Hin.
  { unfold resolver_object. cbn [Resolver.fields]. apply list_elem_of_fmap. by exists t. }
  split_and!.
  - unfold spec_classification. by rewrite (bool_decide_eq_true_2 _ Hnamed).
  - intros Hkind. apply list_elem_of_omap. exists (resolver_field t). split; [done|].
    unfold Resolver.hard_of, Resolver.classify.
    rewrite (resolver_field_wrapped _ _ Hof), descriptor_not_builtin.
    unfold resolver_field. cbn [Resolver.kind].
    by rewrite (bool_decide_eq_true_2 _ Hkind).
  - intros Hkind. apply list_elem_of_omap. exists (resolver_field t). split; [done|].
    unfold Resolver.soft_of, Resolver.classify.
    rewrite (resolver_field_wrapped _ _ Hof), descriptor_not_builtin.
    unfold resolver_field. cbn [Resolver.kind].
    rewrite bool_decide_eq_false_2 by (rewrite Hkind; discriminate).
    by rewrite (bool_decide_eq_true_2 _ Hkind).
  - intros s. apply descriptor_not_a_name.
Qed.

Lemma parse_gql_object_nested_descriptor_witness :
  spec_classification Examples.id_field = Resolver.Neither
  /\ descriptor (Examples.scalar "id" "ID")
     ∈ Resolver.hardDependsOn
         (Resolver.parse_gql_object
            (resolver_object (mk_object_type [Examples.id_field; Examples.scalar "name" "String"]))).
Proof.
  destruct (parse_gql_object_nested_descriptor
              (mk_object_type [Examples.id_field; Examples.scalar "name" "String"])
              Examples.id_field (Examples.scalar "id" "ID")
              ltac:(left) eq_refl ltac:(left)) as (Hspec & Hhard & _).
  split; [exact Hspec | apply Hhard; reflexivity].
Defined.

(** [type User { id: ID!, name: String, friend: User!, posts: [Post] }], each
    field with its nested descriptor: the two lists hold the descriptors of
    [ID], [User] and [Post], where the names [User] and [Post] are meant and
    [ID] is not. *)
Example parse_gql_object_descriptors :
  let parsed :=
    Resolver.parse_gql_object
      (resolver_object
         (mk_object_type [Examples.id_field; Examples.scalar "name" "String";
                          Examples.non_null "friend" (Examples.object "friend" "User");
                          Examples.list_of "posts" (Examples.object "posts" "Post")])) in
  Resolver.hardDependsOn parsed
  = [descriptor (Examples.scalar "id" "ID"); descriptor (Examples.object "friend" "User")]
  /\ Resolver.softDependsOn parsed = [descriptor (Examples.object "posts" "Post")]
  /\ spec_classification Examples.id_field = Resolver.Neither
  /\ spec_classification (Examples.non_null "friend" (Examples.object "friend" "User"))
     = Resolver.Hard (PStr "User")
  /\ spec_classification (Examples.list_of "posts" (Examples.object "posts" "Post"))
     = Resolver.Soft (PStr "Post")
  /\ spec_classification (Examples.scalar "name" "String") = Resolver.Neither.
Proof. vm_compute. repeat split; reflexivity. Qed.

End resolver_descriptors.

(** ** Strings *)

Section string_facts.

Lemma append_nil_l (a : string) : "" +:+ a = a.
Proof. reflexivity. Qed.

Lemma append_cons x (a b : string) : String x a +:+ b = String x (a +:+ b).
Proof. reflexivity. Qed.

Lemma append_assoc (a b c : string) : (a +:+ b) +:+ c = a +:+ (b +:+ c).
Proof. induction a as [|x a IH]; [done | by rewrite !append_cons, IH]. Qed.

Lemma append_nil_r (a : string) : a +:+ "" = a.
Proof. induction a as [|x a IH]; [done | by rewrite append_cons, IH]. Qed.

Lemma append_length (a b : string) :
  String.length (a +:+ b) = String.length a + String.length b.
Proof. induction a as [|x a IH]; [done | rewrite append_cons; simpl; by rewrite IH]. Qed.

Lemma append_not_nil_l (a b : string) : a <> "" -> a +:+ b <> "".
Proof. destruct a; [done | discriminate]. Qed.

Lemma append_not_nil_r (a b : string) : b <> "" -> a +:+ b <> "".
Proof. destruct a; [done | discriminate]. Qed.

End string_facts.


(** ** Output materialization writes no empty selection set *)

Section output_selection.
Import constants Materializer Selection.

Lemma get_base_oftype_ofType : forall t, ofType (get_base_oftype t) = None.
Proof.
  fix IH 1. intros [k n ty [t'|]]; simpl; [apply IH | done].
Qed.

Lemma render_Block name body :
  render (Block name body) = name +:+ " {" +:+ render_all body +:+ "},".
Proof.
  reflexivity.
Qed.

Lemma render_length s : 2 <= String.length (render s).
Proof.
  destruct s as [n | n body | n inner].
  - simpl. rewrite append_length. simpl. lia.
  - rewrite render_Block, !append_length. simpl. lia.
  - simpl. rewrite !append_length. simpl. lia.
Qed.

Lemma render_not_empty s : render s <> "".
Proof. intros H. pose proof (render_length s) as Hl. rewrite H in Hl. simpl in Hl. lia. Qed.

Lemma render_not_braces s : render s <> "{}".
Proof.
  destruct s as [n | n body | n inner].
  - simpl. destruct n as [|a [|b n]]; simpl; try discriminate.
    intros H. apply (f_equal String.length) in H. simpl in H.
    rewrite append_length in H. simpl in H. lia.
  - rewrite render_Block. intros H. apply (f_equal String.length) in H.
    rewrite !append_length in H. simpl in H. lia.
  - simpl. intros H. apply (f_equal String.length) in H.
    rewrite !append_length in H. pose proof (render_length inner). simpl in H. lia.
Qed.

(** A selection whose blocks are all non-empty holds a bare name. *)
Lemma no_empty_block_bare_name : forall s, no_empty_block s = true -> 1 <= bare_names s.
Proof.
  fix IH 1. intros [n | n body | n inner]; simpl.
  - lia.
  - destruct body as [|x body]; [discriminate|].
    intros H. apply andb_prop in H as [Hx _].
    apply IH in Hx. simpl. lia.
  - apply IH.
Qed.

Lemma selection_names_Block name body :
  selection_names (Block name body) = name :: all_names body.
Proof. reflexivity. Qed.

Lemma output_fields_loop_selections P rec fs :
  writes_selections P rec -> Forall (fun f => P (name f)) fs ->
  forall built used s used',
    output_fields_loop rec fs built used = Ret (s, used') ->
    exists sels, s = built +:+ render_all sels /\ forallb no_empty_block sels = true
                 /\ Forall P (all_names sels).
Proof.
  intros Hrec Hfs. induction Hfs as [|f fs Hf Hfs IH]; intros built used s used' H; simpl in H.
  - inversion H; subst. exists []. by rewrite append_nil_r.
  - destruct (rec f used true) as [[out u1]| |] eqn:Hout; simpl in H; try discriminate.
    destruct (Hrec _ _ _ _ _ (fun _ => Hf) Hout) as [-> | (sel & -> & Hwf & _ & Hnames)].
    + simpl in H. by apply IH in H.
    + rewrite !bool_decide_eq_false_2 in H
        by (apply render_not_empty || apply render_not_braces).
      simpl in H. apply IH in H as (sels & -> & Hs & Hns).
      exists (sel :: sels). cbn [render_all forallb all_names].
      rewrite append_assoc, Hwf. split; [done|]. split; [done|].
      by apply Forall_app.
Qed.

Lemma object_fields_selections P self rec object_name used s used' :
  writes_selections P rec -> field_names P self ->
  materialize_output_object_fields_with self rec object_name used = Ret (s, used') ->
  exists sels, s = render_all sels /\ forallb no_empty_block sels = true
               /\ Forall P (all_names sels).
Proof.
  intros Hrec Hfields. unfold materialize_output_object_fields_with.
  case_bool_decide as Hcycles.
  - intros H; inversion H; subst. by exists [].
  - destruct (objects self !! object_name) as [info|] eqn:Hinfo; [|discriminate].
    intros H. apply (output_fields_loop_selections P rec _ Hrec) in H; [done|].
    apply Forall_forall. intros f Hf. by eapply Hfields.
Qed.

Lemma block_selection (P : string -> Prop) name sels :
  render_all sels <> "" -> forallb no_empty_block sels = true ->
  P name -> Forall P (all_names sels) ->
  selection_text P (name +:+ " {" +:+ render_all sels +:+ "},").
Proof.
  intros Hne Hwf Hname Hnames. right. exists (Block name sels). rewrite render_Block.
  split; [done|].
  assert (no_empty_block (Block name sels) = true) as Hb.
  { simpl. destruct sels; [done | exact Hwf]. }
  split; [done|]. split; [by apply no_empty_block_bare_name|].
  rewrite selection_names_Block. by constructor.
Qed.

Lemma materialize_output_selections (P : string -> Prop) self fuel :
  P "" -> field_names P self -> writes_selections P (materialize_output self fuel).
Proof.
  intros Hempty Hfields.
  induction fuel as [|fuel IH]; intros t used incl s used' Hname H; simpl in H; [discriminate|].
  destruct (bool_decide (kind t = "OBJECT")).
  - destruct (materialize_output_object_fields_with self (materialize_output self fuel)
                (type t) used) as [[fs u1]| |] eqn:Hf; simpl in H; try discriminate.
    apply (object_fields_selections P _ _ _ _ _ _ IH Hfields) in Hf as (sels & -> & Hwf & Hns).
    case_bool_decide as Hne; simpl in H; inversion H; subst; [by left|].
    destruct incl; simpl; apply block_selection; try done.
    apply Hname. by left.
  - destruct (bool_decide (kind t = "NON_NULL") || bool_decide (kind t = "LIST")).
    + destruct (ofType t) as [oftype|] eqn:Hof; [|discriminate].
      assert (P (name t)) as Hn by (apply Hname; right; by rewrite Hof).
      case_bool_decide as Hscalar.
      * inversion H; subst. right. exists (Leaf (name t)).
        repeat split; try done. by constructor.
      * destruct (materialize_output self fuel (get_base_oftype oftype) used false)
          as [[m u1]| |] eqn:Hm; simpl in H; try discriminate.
        assert (name_written (get_base_oftype oftype) false -> P (name (get_base_oftype oftype)))
          as Hbase.
        { intros [?|Hsome]; [done|]. by rewrite get_base_oftype_ofType in Hsome. }
        pose proof (IH _ _ _ _ _ Hbase Hm) as Hsel.
        case_bool_decide as Hne; simpl in H; [inversion H; subst; by left|].
        destruct Hsel as [-> | (sel & -> & Hwf & Hsc & Hns)]; [done|].
        destruct incl; inversion H; subst; simpl; right.
        -- exists (Wrapped (name t) sel). repeat split; try done. by constructor.
        -- exists sel. done.
    + destruct incl; inversion H; subst; [|by left].
      right. exists (Leaf (name t)). repeat split; try done.
      constructor; [|done]. apply Hname. by left.
Qed.

(** *** Texts without [{}] *)

Lemma first_is_app c (a b : string) :
  first_is c (a +:+ b) = match a with EmptyString => first_is c b | _ => first_is c a end.
Proof. by destruct a. Qed.

Lemma last_is_app c (a b : string) :
  last_is c (a +:+ b) = match b with EmptyString => last_is c a | _ => last_is c b end.
Proof.
  induction a as [|x a IH].
  - by destruct b.
  - rewrite append_cons. destruct b as [|y b]; [by rewrite append_nil_r|].
    rewrite <- IH. simpl. by destruct a.
Qed.

Lemma has_empty_braces_app (a b : string) :
  has_empty_braces (a +:+ b)
  = has_empty_braces a || has_empty_braces b || (last_is lbrace a && first_is rbrace b).
Proof.
  induction a as [|x a IH]; [by rewrite orb_false_r|].
  rewrite append_cons. cbn [has_empty_braces]. rewrite IH, first_is_app.
  destruct a as [|y a]; cbn [has_empty_braces last_is first_is].
  - destruct (bool_decide (x = lbrace)), (has_empty_braces b), (first_is rbrace b); done.
  - destruct (bool_decide (x = lbrace)), (bool_decide (y = rbrace)),
      (bool_decide (y = lbrace) && first_is rbrace a || has_empty_braces a),
      (has_empty_braces b), (last_is lbrace (String y a) && first_is rbrace b); done.
Qed.

(** The substring test of the source, [{}] in the text. *)
Lemma str_contains_braces s : str_contains "{}" s = has_empty_braces s.
Proof.
  induction s as [|c s IH]; [done|].
  cbn [str_contains has_empty_braces]. rewrite IH. f_equal.
  cbn [is_prefix]. unfold lbrace, rbrace.
  destruct s as [|d s]; cbn [is_prefix first_is].
  - by rewrite !andb_false_r.
  - rewrite andb_true_r.
    change (Ascii.ascii_of_nat 123) with (Ascii.Ascii true true false true true true true false).
    change (Ascii.ascii_of_nat 125) with (Ascii.Ascii true false true true true true true false).
    f_equal; apply bool_decide_ext; split; congruence.
Qed.

Lemma name_char_not_brace c : name_char c = true -> c <> lbrace /\ c <> rbrace.
Proof. intros H. split; intros ->; vm_compute in H; discriminate. Qed.

Lemma graphql_name_tidy n : graphql_name n = true -> tidy n.
Proof.
  unfold graphql_name, tidy. induction n as [|c n IH]; [done|].
  cbn [String.list_ascii_of_string forallb]. intros [Hc Hn]%andb_prop.
  apply name_char_not_brace in Hc as [Hl Hr]. destruct (IH Hn) as (Hh & Hf & Hla).
  cbn [has_empty_braces first_is last_is].
  split; [by rewrite Hh, (bool_decide_eq_false_2 _ Hl)|].
  split; [by rewrite (bool_decide_eq_false_2 _ Hr)|].
  destruct n; [by rewrite (bool_decide_eq_false_2 _ Hl) | done].
Qed.

Lemma tidy_app a b : tidy a -> tidy b -> tidy (a +:+ b).
Proof.
  intros (Ha & Hfa & Hla) (Hb & Hfb & Hlb). unfold tidy.
  split; [by rewrite has_empty_braces_app, Ha, Hb, Hla|].
  split; [rewrite first_is_app; by destruct a | rewrite last_is_app; by destruct b].
Qed.

Lemma tidy_leaf n : graphql_name n = true -> tidy (n +:+ ", ").
Proof. intros Hn. apply tidy_app; [by apply graphql_name_tidy | done]. Qed.

Lemma tidy_block n body :
  graphql_name n = true -> tidy body -> body <> "" -> tidy (n +:+ " {" +:+ body +:+ "},").
Proof.
  intros Hn (Hb & Hfb & Hlb) Hne.
  apply graphql_name_tidy in Hn as (Hhn & Hfn & Hln). unfold tidy.
  destruct body as [|c body]; [done|].
  set (Y := String c body +:+ "},").
  assert (has_empty_braces Y = false) as HY.
  { unfold Y. by rewrite has_empty_braces_app, Hb, Hlb. }
  assert (first_is rbrace Y = false) as HfY by exact Hfb.
  assert (has_empty_braces (" {" +:+ Y) = false) as HX.
  { by rewrite has_empty_braces_app, HY, HfY. }
  split; [|split].
  - by rewrite has_empty_braces_app, Hhn, HX, Hln.
  - rewrite first_is_app. by destruct n.
  - unfold Y. by rewrite !last_is_app.
Qed.

Lemma tidy_wrapped n inner :
  graphql_name n = true -> tidy inner -> tidy (n +:+ inner +:+ ", ").
Proof.
  intros Hn Hi. apply tidy_app; [by apply graphql_name_tidy|]. by apply tidy_app.
Qed.

Lemma render_tidy : forall sel,
  no_empty_block sel = true ->
  Forall (fun n => graphql_name n = true) (selection_names sel) ->
  tidy (render sel).
Proof.
  fix IH 1. intros [n | n body | n inner] Hwf Hnames.
  - apply tidy_leaf. by inversion Hnames.
  - rewrite render_Block. rewrite selection_names_Block in Hnames.
    inversion Hnames as [|? ? Hn Hbody]; subst.
    assert (forallb no_empty_block body = true) as Hwfs
      by (simpl in Hwf; by destruct body).
    assert (body <> []) as Hne by (simpl in Hwf; by destruct body).
    apply tidy_block; [done| |].
    + clear Hne Hwf Hnames. revert body Hwfs Hbody. fix IHl 1.
      intros [|x l] Hwfs Hbody; [done|].
      cbn [render_all]. cbn [forallb] in Hwfs. apply andb_prop in Hwfs as [Hx Hl].
      cbn [all_names] in Hbody. apply Forall_app in Hbody as [Hnx Hnl].
      apply tidy_app; [by apply IH | by apply IHl].
    + destruct body as [|x l]; [done|]. cbn [render_all].
      apply append_not_nil_l, render_not_empty.
  - cbn [render]. cbn [selection_names] in Hnames.
    inversion Hnames as [|? ? Hn Hinner]; subst.
    apply tidy_wrapped; [done|]. by apply IH.
Qed.

(** Whatever [materialize_output] returns is the empty string or the text
    of a selection in which no block is empty and which holds at least one
    bare name, that of a field of whatever kind the method opens no block
    for. A field of kind OBJECT whose fields materialize to nothing, and a
    wrapped field whose unwrapped type materializes to nothing, yield the
    empty string: not even the field name is written. With GraphQL names for
    the output and for the fields of the schema, the returned text has no
    [{}] in it. *)
Theorem materialize_output_no_empty_selection
    (self : RegularMaterializer) (fuel : nat) (output : TypeDescriptor)
    (used : list string) (include_name : bool) (s : string) (used' : list string) :
  materialize_output self (S fuel) output used include_name = Ret (s, used') ->
  (s = "" \/ exists sel, s = render sel /\ no_empty_block sel = true
                        /\ 1 <= bare_names sel)
  /\ (kind output = "OBJECT" ->
      forall u, materialize_output_object_fields self fuel (type output) used = Ret ("", u) ->
                s = "")
  /\ (kind output <> "OBJECT" -> kind output = "NON_NULL" \/ kind output = "LIST" ->
      forall oftype u, ofType output = Some oftype ->
        kind (get_base_oftype oftype) <> "SCALAR" ->
        materialize_output self fuel (get_base_oftype oftype) used false = Ret ("", u) ->
        s = "")
  /\ (graphql_name (name output) = true ->
      field_names (fun n => graphql_name n = true) self ->
      str_contains "{}" s = false).
Proof.
  intros H. split.
  { destruct (materialize_output_selections (fun _ => True) self (S fuel) I
                ltac:(by intros ?????) _ _ _ _ _ (fun _ => I) H)
      as [-> | (sel & -> & Hwf & Hsc & _)]; [by left | right; eauto]. }
  split; [|split].
  - intros Hk u Hf. simpl in H. rewrite bool_decide_eq_true_2 in H by done.
    unfold materialize_output_object_fields in Hf. rewrite Hf in H. simpl in H.
    by inversion H.
  - intros Hk Hw oftype u Hof Hbase Hm. simpl in H.
    rewrite (bool_decide_eq_false_2 _ Hk) in H.
    assert (bool_decide (kind output = "NON_NULL") || bool_decide (kind output = "LIST") = true)
      as Hwb.
    { destruct Hw as [Hw|Hw]; rewrite (bool_decide_eq_true_2 _ Hw); [done | apply orb_true_r]. }
    rewrite Hwb, Hof, (bool_decide_eq_false_2 _ Hbase), Hm in H. simpl in H.
    by inversion H.
  - intros Hname Hfields. rewrite str_contains_braces.
    destruct (materialize_output_selections (fun n => graphql_name n = true) self (S fuel)
                eq_refl Hfields _ _ _ _ _ (fun _ => Hname) H)
      as [-> | (sel & -> & Hwf & _ & Hnames)]; [done|].
    by destruct (render_tidy sel Hwf Hnames).
Qed.

Lemma materialize_output_no_empty_selection_witness :
  materialize_output Examples.example_materializer 3 (Examples.object "user" "User") [] false
  = Ret (" {id, name, },", ["User"])
  /\ (" {id, name, }," = ""
      \/ exists sel, " {id, name, }," = render sel /\ no_empty_block sel = true
                     /\ 1 <= bare_names sel).
Proof.
  split; [vm_compute; reflexivity|].
  apply (materialize_output_no_empty_selection Examples.example_materializer 2
           (Examples.object "user" "User") [] false " {id, name, }," ["User"]).
  vm_compute; reflexivity.
Defined.

(** An object all of whose fields select nothing is left out, name and
    all. *)
Example materialize_output_group :
  materialize_output Examples.example_materializer 6 (Examples.object "group" "Group") [] true
  = Ret ("", ["Group"; "Empty"; "Empty"]).
Proof. vm_compute; reflexivity. Qed.

End output_selection.

(** ** Output materialization stops at the cycle bound *)

Section output_bound.
Import constants Materializer OutputBound.

Lemma count_app x l1 l2 : count x (l1 ++ l2) = count x l1 + count x l2.
Proof. induction l1 as [|y l1 IH]; simpl; [done | rewrite IH; lia]. Qed.

Lemma sum_list_fmap_le {A} (f g : A -> nat) (l : list A) :
  (forall x, f x <= g x) -> sum_list (f <$> l) <= sum_list (g <$> l).
Proof.
  intros Hfg. induction l as [|x l IH]; csimpl; [done|]. pose proof (Hfg x). lia.
Qed.

Lemma sum_list_fmap_lt {A} (f g : A -> nat) (l : list A) (o : A) :
  (forall x, f x <= g x) -> o ∈ l -> f o + 1 <= g o ->
  sum_list (f <$> l) + 1 <= sum_list (g <$> l).
Proof.
  intros Hfg Hin Ho. induction l as [|y l IH]; [by apply not_elem_of_nil in Hin|].
  apply elem_of_cons in Hin as [<-|Hin]; csimpl.
  - pose proof (sum_list_fmap_le f g l Hfg). lia.
  - pose proof (Hfg y). specialize (IH Hin). lia.
Qed.

Lemma budget_le self used :
  budget self used <= MAX_OBJECT_CYCLES * size (objects self).
Proof.
  unfold budget. rewrite <- length_map_to_list.
  generalize (map_to_list (objects self)). intros l.
  induction l as [|x l IH]; csimpl; unfold MAX_OBJECT_CYCLES in *; lia.
Qed.

Lemma budget_mono self used used' :
  used `prefix_of` used' -> budget self used' <= budget self used.
Proof.
  intros [ext ->]. unfold budget. apply sum_list_fmap_le.
  intros o. rewrite count_app. lia.
Qed.

Lemma budget_descend self o info used :
  objects self !! o = Some info -> count o used < MAX_OBJECT_CYCLES ->
  budget self (used ++ [o]) + 1 <= budget self used.
Proof.
  intros Hlook Hcount. unfold budget.
  apply sum_list_fmap_lt with (o := o).
  - intros x. rewrite count_app. lia.
  - apply list_elem_of_fmap. exists (o, info). split; [done|].
    by apply elem_of_map_to_list.
  - rewrite count_app. simpl. rewrite bool_decide_eq_true_2 by done. lia.
Qed.

Lemma output_fields_loop_grows rec fs :
  grows_within_bound rec ->
  forall built used s used',
    output_fields_loop rec fs built used = Ret (s, used') ->
    used `prefix_of` used'
    /\ forall o, count o used' <= count o used `max` MAX_OBJECT_CYCLES.
Proof.
  intros Hrec. induction fs as [|f fs IH]; intros built used s used' H; simpl in H.
  - inversion H; subst. split; [done | intros; lia].
  - destruct (rec f used true) as [[out u1]| |] eqn:Hf; simpl in H; try discriminate.
    apply Hrec in Hf as [Hp1 Hc1]. apply IH in H as [Hp2 Hc2].
    split; [by etrans|]. intros o. specialize (Hc1 o). specialize (Hc2 o). lia.
Qed.

Lemma object_fields_grows self rec object_name used s used' :
  grows_within_bound rec ->
  materialize_output_object_fields_with self rec object_name used = Ret (s, used') ->
  used `prefix_of` used'
  /\ forall o, count o used' <= count o used `max` MAX_OBJECT_CYCLES.
Proof.
  intros Hrec. unfold materialize_output_object_fields_with.
  case_bool_decide as Hcycles.
  - intros H; inversion H; subst. split; [done | intros; lia].
  - destruct (objects self !! object_name) as [info|]; [|discriminate].
    intros H. apply (output_fields_loop_grows rec _ Hrec) in H as [Hp Hc].
    split; [etrans; [|exact Hp]; by apply prefix_app_r|].
    intros o. specialize (Hc o). rewrite count_app in Hc. simpl in Hc.
    case_bool_decide; subst; lia.
Qed.

Lemma materialize_output_grows self fuel :
  grows_within_bound (materialize_output self fuel).
Proof.
  induction fuel as [|fuel IH]; intros t used incl s used' H; simpl in H; [discriminate|].
  destruct (bool_decide (kind t = "OBJECT")).
  - destruct (materialize_output_object_fields_with self (materialize_output self fuel)
                (type t) used) as [[fs u1]| |] eqn:Hf; simpl in H; try discriminate.
    apply (object_fields_grows _ _ _ _ _ _ IH) in Hf.
    case_bool_decide; simpl in H; inversion H; by subst.
  - destruct (bool_decide (kind t = "NON_NULL") || bool_decide (kind t = "LIST")).
    + destruct (ofType t) as [oftype|]; [|discriminate].
      case_bool_decide as Hscalar.
      * inversion H; subst. split; [done | intros; lia].
      * destruct (materialize_output self fuel (get_base_oftype oftype) used false)
          as [[m u1]| |] eqn:Hm; simpl in H; try discriminate.
        apply IH in Hm.
        case_bool_decide; simpl in H; [inversion H; by subst|].
        destruct incl; inversion H; by subst.
    + destruct incl; inversion H; subst; (split; [done | intros; lia]).
Qed.

Lemma output_fields_loop_returns used0 rec fs :
  grows_within_bound rec -> returns_from used0 rec ->
  forall built used, used0 `prefix_of` used ->
    output_fields_loop rec fs built used <> Diverge.
Proof.
  intros Hg Hrec. induction fs as [|f fs IH]; intros built used Hp; simpl; [done|].
  destruct (rec f used true) as [[out u1]| |] eqn:Hf; simpl; [|done|by apply Hrec in Hf].
  apply IH. apply Hg in Hf as [Hp1 _]. by etrans.
Qed.

Lemma materialize_output_fuel self fuel :
  (forall t used incl, 2 * budget self used + 2 <= fuel ->
     materialize_output self fuel t used incl <> Diverge)
  /\ (forall t used incl, ofType t = None -> 2 * budget self used + 1 <= fuel ->
     materialize_output self fuel t used incl <> Diverge).
Proof.
  induction fuel as [|fuel [IHP IHQ]]; [split; intros; lia|].
  assert (forall t used incl, kind t = "OBJECT" -> 2 * budget self used + 1 <= S fuel ->
            materialize_output self (S fuel) t used incl <> Diverge) as Hobj.
  { intros t used incl Hk Hfuel. simpl. rewrite bool_decide_eq_true_2 by done.
    unfold materialize_output_object_fields_with.
    case_bool_decide as Hcycles; simpl; [done|].
    destruct (objects self !! type t) as [info|] eqn:Hlook; simpl; [|done].
    pose proof (budget_descend self _ info used Hlook ltac:(lia)) as Hb.
    destruct (output_fields_loop (materialize_output self fuel) (fields info) ""
                (used ++ [type t])) as [[fs u1]| |] eqn:Hloop; simpl.
    - by case_bool_decide.
    - done.
    - exfalso. revert Hloop.
      apply (output_fields_loop_returns (used ++ [type t]));
        [apply materialize_output_grows| |done].
      intros t' u incl' Hp. apply IHP.
      pose proof (budget_mono self _ _ Hp). lia. }
  split.
  - intros t used incl Hfuel.
    destruct (decide (kind t = "OBJECT")) as [Hk|Hk]; [apply Hobj; [done|lia]|].
    simpl. rewrite (bool_decide_eq_false_2 _ Hk).
    destruct (bool_decide (kind t = "NON_NULL") || bool_decide (kind t = "LIST")).
    + destruct (ofType t) as [oftype|]; [|done].
      case_bool_decide as Hscalar; [done|].
      destruct (materialize_output self fuel (get_base_oftype oftype) used false)
        as [[m u1]| |] eqn:Hm; simpl.
      * case_bool_decide; [done | by destruct incl].
      * done.
      * exfalso. revert Hm. apply IHQ; [apply get_base_oftype_ofType | lia].
    + by destruct incl.
  - intros t used incl Hof Hfuel.
    destruct (decide (kind t = "OBJECT")) as [Hk|Hk]; [by apply Hobj|].
    simpl. rewrite (bool_decide_eq_false_2 _ Hk), Hof.
    destruct (bool_decide (kind t = "NON_NULL") || bool_decide (kind t = "LIST")); [done|].
    by destruct incl.
Qed.

(** *** The selection path is counted in [used_objects] *)

Lemma path_counted_spec path used :
  path_counted path used = true <-> forall o, count o path <= count o used.
Proof.
  unfold path_counted. rewrite forallb_forall. split.
  - intros H o. destruct (decide (o ∈ path)) as [Hin|Hnin].
    + apply list_elem_of_In, H in Hin. by apply bool_decide_eq_true in Hin.
    + assert (count o path = 0) as ->; [|lia].
      clear H. induction path as [|x path IH]; [done|]. simpl.
      apply not_elem_of_cons in Hnin as [Hne Hnin].
      rewrite bool_decide_eq_false_2 by done. by rewrite IH.
  - intros H o _. apply bool_decide_eq_true_2, H.
Qed.

Lemma path_counted_descend path used T :
  path_counted path used = true -> path_counted (path ++ [T]) (used ++ [T]) = true.
Proof.
  rewrite !path_counted_spec. intros H o. rewrite !count_app. specialize (H o). lia.
Qed.

Lemma path_counted_prefix path used used' :
  used `prefix_of` used' -> path_counted path used = true -> path_counted path used' = true.
Proof.
  intros [ext ->]. rewrite !path_counted_spec. intros H o.
  rewrite count_app. specialize (H o). lia.
Qed.

Lemma output_fields_loop_agree rec1 rec2 (P : list string -> Prop) fs :
  (forall t u b, P u -> rec1 t u b = rec2 t u b) ->
  (forall t u b s u', P u -> rec2 t u b = Ret (s, u') -> P u') ->
  forall built u, P u ->
    output_fields_loop rec1 fs built u = output_fields_loop rec2 fs built u.
Proof.
  intros Hagree Hstep. induction fs as [|f fs IH]; intros built u Hu; simpl; [done|].
  rewrite (Hagree _ _ _ Hu).
  destruct (rec2 f u true) as [[out u1]| |] eqn:Hf; simpl; [|done|done].
  apply IH. by eapply Hstep.
Qed.

Lemma materialize_output_on_path_agrees self fuel :
  forall path t used incl,
    path_counted path used = true ->
    materialize_output_on_path self fuel path t used incl
    = materialize_output self fuel t used incl.
Proof.
  induction fuel as [|fuel IH]; intros path t used incl Hpath; simpl; [done|].
  rewrite Hpath. simpl.
  destruct (bool_decide (kind t = "OBJECT")).
  - assert (materialize_output_object_fields_with self
              (materialize_output_on_path self fuel (path ++ [type t])) (type t) used
            = materialize_output_object_fields_with self
                (materialize_output self fuel) (type t) used) as ->; [|done].
    unfold materialize_output_object_fields_with.
    case_bool_decide as Hcycles; [done|].
    destruct (objects self !! type t) as [info|]; [|done].
    apply (output_fields_loop_agree _ _
             (fun u => path_counted (path ++ [type t]) u = true)).
    + intros t' u b Hu. by apply IH.
    + intros t' u b s u' Hu Hret.
      apply (materialize_output_grows self fuel) in Hret as [Hp _].
      by eapply path_counted_prefix.
    + by apply path_counted_descend.
  - destruct (bool_decide (kind t = "NON_NULL") || bool_decide (kind t = "LIST")); [|done].
    destruct (ofType t) as [oftype|]; [|done].
    case_bool_decide; [done|]. by rewrite IH.
Qed.

(** C5. [used_objects] counts every object type of the current selection
    path (making the path explicit changes nothing), so once an object type
    has occurred [MAX_OBJECT_CYCLES] times on the path, and more generally
    that often in [used_objects], [materialize_output_object_fields] returns
    the empty string and leaves the list as it is. The list only grows, and no
    object type gets into it more often than the bound allows. So on every
    schema, cyclic or not, [materialize_output] finishes within [output_fuel]
    nested calls, a number fixed by [MAX_OBJECT_CYCLES] and the number of
    object types. *)
Theorem materialize_output_cycle_bound (self : RegularMaterializer) :
  (forall fuel path t used incl,
     path_counted path used = true ->
     materialize_output_on_path self fuel path t used incl
     = materialize_output self fuel t used incl)
  /\ (forall fuel path object_name used,
       path_counted path used = true ->
       MAX_OBJECT_CYCLES <= count object_name path ->
       materialize_output_object_fields self fuel object_name used = Ret ("", used))
  /\ (forall fuel object_name used,
       MAX_OBJECT_CYCLES <= count object_name used ->
       materialize_output_object_fields self fuel object_name used = Ret ("", used))
  /\ (forall fuel t used incl s used',
       materialize_output self fuel t used incl = Ret (s, used') ->
       used `prefix_of` used'
       /\ forall o, count o used' <= count o used `max` MAX_OBJECT_CYCLES)
  /\ (forall fuel t used incl,
       output_fuel self <= fuel ->
       materialize_output self fuel t used incl <> Diverge).
Proof.
  assert (forall fuel object_name used,
            MAX_OBJECT_CYCLES <= count object_name used ->
            materialize_output_object_fields self fuel object_name used = Ret ("", used))
    as Hstop.
  { intros fuel object_name used Hcount.
    unfold materialize_output_object_fields, materialize_output_object_fields_with.
    by rewrite bool_decide_eq_true_2. }
  split; [|split; [|split; [|split]]].
  - intros fuel. apply materialize_output_on_path_agrees.
  - intros fuel path object_name used Hpath Hcount. apply Hstop.
    apply path_counted_spec with (o := object_name) in Hpath. lia.
  - exact Hstop.
  - intros fuel. apply materialize_output_grows.
  - intros fuel t used incl Hfuel.
    destruct (materialize_output_fuel self fuel) as [HP _]. apply HP.
    pose proof (budget_le self used). unfold output_fuel in Hfuel. lia.
Qed.

Lemma materialize_output_cycle_bound_witness :
  output_fuel Examples.example_materializer <= 18
  /\ materialize_output Examples.example_materializer 18 (Examples.object "a" "A") [] false
     <> Diverge
  /\ materialize_output_object_fields Examples.example_materializer 0 "A" ["A"; "A"]
     = Ret ("", ["A"; "A"]).
Proof.
  destruct (materialize_output_cycle_bound Examples.example_materializer)
    as (_ & _ & Hstop & _ & Hfuel).
  assert (output_fuel Examples.example_materializer <= 18) as Hbound
    by (vm_compute; lia).
  split; [exact Hbound|]. split; [by apply Hfuel|].
  apply Hstop. vm_compute; lia.
Defined.

(** The self-referential [A.friend: A!]: two visits of [A], then the branch
    stops, however much fuel is left. *)
Example materialize_output_self_reference :
  materialize_output Examples.example_materializer 1000 (Examples.object "a" "A") [] false
  = Ret (" {id, friend {id, },, },", ["A"; "A"]).
Proof. vm_compute; reflexivity. Qed.

End output_bound.

(** ** Computations that leave the objects bucket alone *)

Section store_props.

Lemma keeps_bucket_raises {A} (m : M A) : keeps_bucket m -> raises_with_bucket_kept m.
Proof. intros H w e w' Hm. by apply H in Hm. Qed.

Lemma keeps_bucket_ret {A} (a : A) : keeps_bucket (mret a).
Proof. intros w r w' H. by inversion H. Qed.

Lemma keeps_bucket_lift {A} (o : outcome A) : keeps_bucket (lift o).
Proof. intros w r w' H. by inversion H. Qed.

Lemma keeps_bucket_raise {A} e : keeps_bucket (raise e : M A).
Proof. apply keeps_bucket_lift. Qed.

Lemma keeps_bucket_diverge {A} : keeps_bucket (diverge : M A).
Proof. apply keeps_bucket_lift. Qed.

Lemma keeps_bucket_log env msg : keeps_bucket (log env msg).
Proof. apply keeps_bucket_lift. Qed.

Lemma keeps_bucket_get_objects_bucket : keeps_bucket get_objects_bucket.
Proof. intros w r w' H. by inversion H. Qed.

Lemma keeps_bucket_get_used_objects : keeps_bucket get_used_objects.
Proof. intros w r w' H. by inversion H. Qed.

Lemma keeps_bucket_set_used_objects u : keeps_bucket (set_used_objects u).
Proof. intros w r w' H. by inversion H. Qed.

Lemma keeps_bucket_random_choice env seq : keeps_bucket (random_choice env seq).
Proof. intros w r w' H. unfold random_choice in H. destruct seq; by inversion H. Qed.

Lemma keeps_bucket_with_random {A} (f : nat -> outcome A) : keeps_bucket (with_random f).
Proof. intros w r w' H. by inversion H. Qed.

Lemma keeps_bucket_send env url payload : keeps_bucket (send env url payload).
Proof. intros w r w' H. by inversion H. Qed.

Lemma keeps_bucket_bind {A B} (m : M A) (f : A -> M B) :
  keeps_bucket m -> (forall a, keeps_bucket (f a)) -> keeps_bucket (m ≫= f).
Proof.
  intros Hm Hf w r w' H. unfold mbind, M_bind in H.
  destruct (m w) as [[a|e|] w1] eqn:Hmw.
  - apply Hf in H. apply Hm in Hmw. congruence.
  - inversion H; subst. by apply Hm in Hmw.
  - inversion H; subst. by apply Hm in Hmw.
Qed.

Lemma raises_with_bucket_kept_bind {A B} (m : M A) (f : A -> M B) :
  keeps_bucket m -> (forall a, raises_with_bucket_kept (f a)) ->
  raises_with_bucket_kept (m ≫= f).
Proof.
  intros Hm Hf w e w' H. unfold mbind, M_bind in H.
  destruct (m w) as [[a|e1|] w1] eqn:Hmw.
  - apply Hf in H. apply Hm in Hmw. congruence.
  - inversion H; subst. by apply Hm in Hmw.
  - inversion H.
Qed.

(** A last step that may write the bucket, followed by a plain [return]. *)
Lemma raises_with_bucket_kept_then_ret {A B} (m : M A) (b : B) :
  raises_with_bucket_kept m -> raises_with_bucket_kept (m ;; mret b).
Proof.
  intros Hm w e w' H. unfold mbind, M_bind in H.
  destruct (m w) as [[a|e1|] w1] eqn:Hmw; inversion H; subst. by apply Hm in Hmw.
Qed.

Lemma keeps_bucket_call {A} sg npos kw (body : M A) :
  keeps_bucket body -> keeps_bucket (call sg npos kw body).
Proof. intros H. apply keeps_bucket_bind; [apply keeps_bucket_lift | done]. Qed.

End store_props.

Create HintDb bucket discriminated.
#[local] Hint Resolve keeps_bucket_ret keeps_bucket_lift keeps_bucket_raise
  keeps_bucket_diverge keeps_bucket_log keeps_bucket_get_objects_bucket
  keeps_bucket_get_used_objects keeps_bucket_set_used_objects keeps_bucket_random_choice
  keeps_bucket_with_random keeps_bucket_send keeps_bucket_call keeps_bucket_raises : bucket.

(** Splits a goal about a sequence of steps into one goal per step. *)
Ltac bucket_steps :=
  repeat first
    [ apply keeps_bucket_bind; [| intros ?]
    | progress (eauto with bucket)
    | match goal with
      | |- keeps_bucket (if ?b then _ else _) => destruct b
      | |- keeps_bucket (match ?x with _ => _ end) => destruct x
      end ].

(** ** Input materialization *)

Section input_props.
Import constants Materializer.

Lemma keeps_bucket_record_used key val : keeps_bucket (record_used key val).
Proof. unfold record_used. bucket_steps. Qed.

Lemma keeps_bucket_local {A} var (v : option A) : keeps_bucket (local var v).
Proof. destruct v; simpl; eauto with bucket. Qed.

Lemma keeps_bucket_inputs_loop rec items :
  (forall f c, keeps_bucket (rec f c)) ->
  forall built, keeps_bucket (inputs_loop rec items built).
Proof.
  intros Hrec. induction items as [|[input_name input_field] items IH]; intros built; simpl.
  - eauto with bucket.
  - apply keeps_bucket_bind; [apply Hrec | intros s; apply IH].
Qed.

(** Input materialization only reads the bucket. *)
Lemma keeps_bucket_materialize_input_field env self fuel :
  forall operator_info input_field check_deps,
    keeps_bucket (materialize_input_field env self fuel operator_info input_field check_deps).
Proof.
  induction fuel as [|fuel IH]; intros operator_info input_field check_deps; simpl.
  - eauto with bucket.
  - pose proof keeps_bucket_record_used. pose proof (@keeps_bucket_local string).
    pose proof (keeps_bucket_inputs_loop
                  (materialize_input_field env self fuel operator_info)) as Hloop.
    bucket_steps.
Qed.

Lemma keeps_bucket_materialize_inputs env self fuel operator_info inputs :
  keeps_bucket (materialize_inputs env self fuel operator_info inputs).
Proof.
  unfold materialize_inputs. apply keeps_bucket_inputs_loop.
  intros f c. apply keeps_bucket_materialize_input_field.
Qed.

(** A hard dependency on a type that is no key of the bucket: the
    distinguished exception, with the store as it was. *)
Lemma hard_dependency_absent env self fuel operator_info input_field T w :
  hardDependsOn operator_info !! name input_field = Some T ->
  objects_bucket w !! T = None -> T <> "UNKNOWN" ->
  materialize_input_field env self (S fuel) operator_info input_field true w
  = (Raise (HardDependencyNotMetException T), w).
Proof.
  intros Hhard Hbucket Hunknown. simpl. rewrite Hhard. simpl.
  unfold mbind, M_bind, get_objects_bucket. rewrite Hbucket.
  by rewrite bool_decide_eq_false_2.
Qed.

(** A hard dependency recorded as UNKNOWN: the field is materialized by its
    kind, with dependency checking off for this one call. *)
Lemma hard_dependency_unknown env self fuel operator_info input_field w :
  hardDependsOn operator_info !! name input_field = Some "UNKNOWN" ->
  objects_bucket w !! "UNKNOWN" = None ->
  logger_info env "Using UNKNOWN input for field" = Ret tt ->
  materialize_input_field env self (S fuel) operator_info input_field true w
  = (s ← materialize_input_field env self fuel operator_info input_field false;
     mret ("" +:+ s)) w.
Proof.
  intros Hhard Hbucket Hlog. simpl. rewrite Hhard. simpl.
  unfold mbind, M_bind, get_objects_bucket, log, lift. by rewrite Hbucket, Hlog.
Qed.

(** A field without a recorded dependency is materialized the same way
    whether dependency checking is on or off. *)
Lemma no_dependency_check_deps env self fuel operator_info input_field w :
  hardDependsOn operator_info !! name input_field = None ->
  softDependsOn operator_info !! name input_field = None ->
  materialize_input_field env self fuel operator_info input_field true w
  = materialize_input_field env self fuel operator_info input_field false w.
Proof.
  intros Hhard Hsoft. destruct fuel as [|fuel]; [done|]. simpl.
  by rewrite Hhard, Hsoft.
Qed.

(** C1. A hard dependency on a type whose bucket entry is there but holds
    no identifier: [random.choice] raises [IndexError], and materialization
    fails with it instead of [HardDependencyNotMetException]. *)
Theorem hard_dependency_empty_entry env self fuel operator_info input_field T w :
  hardDependsOn operator_info !! name input_field = Some T ->
  objects_bucket w !! T = Some [] ->
  materialize_input_field env self (S fuel) operator_info input_field true w
  = (Raise (IndexError "Cannot choose from an empty sequence"), w).
Proof.
  intros Hhard Hbucket. simpl. rewrite Hhard. simpl.
  unfold mbind, M_bind, get_objects_bucket. by rewrite Hbucket.
Qed.

(** [deleteUser(id: ID!)] with [id] hard-dependent on [User], against a
    bucket whose [User] entry holds no identifier. *)
Lemma hard_dependency_empty_entry_witness :
  materialize_input_field Examples.quiet_env Examples.example_materializer 10
    Examples.deleteUser Examples.id_field true (Examples.world_with {["User" := []]})
  = (Raise (IndexError "Cannot choose from an empty sequence"),
     Examples.world_with {["User" := []]}).
Proof.
  apply (hard_dependency_empty_entry Examples.quiet_env Examples.example_materializer 9
           Examples.deleteUser Examples.id_field "User");
    vm_compute; reflexivity.
Defined.

(** With no [User] entry at all the distinguished exception is raised, and
    with a live identifier it is chosen and recorded as used. *)
Example hard_dependency_no_entry :
  materialize_input_field Examples.quiet_env Examples.example_materializer 10
    Examples.deleteUser Examples.id_field true (Examples.world_with ∅)
  = (Raise (HardDependencyNotMetException "User"), Examples.world_with ∅).
Proof. vm_compute; reflexivity. Qed.

Example hard_dependency_met :
  materialize_input_field Examples.quiet_env Examples.example_materializer 10
    Examples.deleteUser Examples.id_field true (Examples.world_with {["User" := [PStr "u1"]]})
  = (Ret (dquote +:+ "u1" +:+ dquote),
     mk_world {["User" := [PStr "u1"]]} {["User" := PStr "u1"]} 1 []).
Proof. vm_compute; reflexivity. Qed.

(** A soft dependency whose type is no key of the bucket: the field is
    materialized by its kind. *)
Lemma soft_dependency_absent env self fuel operator_info input_field T w :
  hardDependsOn operator_info !! name input_field = None ->
  softDependsOn operator_info !! name input_field = Some T ->
  objects_bucket w !! T = None ->
  materialize_input_field env self (S fuel) operator_info input_field true w
  = (s ← materialize_input_field env self fuel operator_info input_field false;
     mret ("" +:+ s)) w.
Proof.
  intros Hhard Hsoft Hbucket. simpl. rewrite Hhard, Hsoft. simpl.
  unfold mbind, M_bind, get_objects_bucket. by rewrite Hbucket.
Qed.

(** C4. A field with only a soft dependency, whose type is a key of the
    bucket: the branch reads [hard_dependency_name], which no assignment has
    bound, so materialization raises [UnboundLocalError] and the bucket value
    is not used. *)
Theorem soft_dependency_unbound_local env self fuel operator_info input_field T ids w :
  hardDependsOn operator_info !! name input_field = None ->
  softDependsOn operator_info !! name input_field = Some T ->
  objects_bucket w !! T = Some ids ->
  materialize_input_field env self (S fuel) operator_info input_field true w
  = (Raise (UnboundLocalError "hard_dependency_name"), w).
Proof.
  intros Hhard Hsoft Hbucket. simpl. rewrite Hhard, Hsoft. simpl.
  unfold mbind, M_bind, get_objects_bucket. by rewrite Hbucket.
Qed.

(** [usersOf(ownerId: ID)] with [ownerId] soft-dependent on [User], against
    a bucket with a live [User]. *)
Lemma soft_dependency_unbound_local_witness :
  materialize_input_field Examples.quiet_env Examples.example_materializer 10
    Examples.usersOf (Examples.scalar "ownerId" "ID") true
    (Examples.world_with {["User" := [PStr "u1"]]})
  = (Raise (UnboundLocalError "hard_dependency_name"),
     Examples.world_with {["User" := [PStr "u1"]]}).
Proof.
  apply (soft_dependency_unbound_local Examples.quiet_env Examples.example_materializer 9
           Examples.usersOf (Examples.scalar "ownerId" "ID") "User" [PStr "u1"]);
    vm_compute; reflexivity.
Defined.

Example soft_dependency_no_entry :
  materialize_input_field Examples.quiet_env Examples.example_materializer 10
    Examples.usersOf (Examples.scalar "ownerId" "ID") true (Examples.world_with ∅)
  = (Ret "0", mk_world ∅ ∅ 1 []).
Proof. vm_compute; reflexivity. Qed.

(** A self-referential input object is descended into for as long as there
    is fuel. *)
Lemma recursive_input_diverges env fuel field_name w :
  materialize_input_field env Examples.recursive_materializer fuel Examples.search
    (Examples.input_object field_name "Filter") true w
  = (Diverge, w).
Proof.
  revert field_name. induction fuel as [|fuel IH]; intros field_name; [done|].
  simpl. rewrite !lookup_empty. simpl.
  rewrite lookup_singleton_eq. simpl. unfold mbind, M_bind. by rewrite IH.
Qed.

Lemma recursive_inputs_diverge env fuel w :
  materialize_inputs env Examples.recursive_materializer fuel
    Examples.search (inputs Examples.search) w
  = (Diverge, w).
Proof.
  unfold materialize_inputs. simpl. unfold mbind, M_bind.
  by rewrite (recursive_input_diverges env fuel "filter" w).
Qed.

Lemma call_materialize_inputs {A} (body : M A) w :
  call materialize_inputs_signature 3 [] body w = body w.
Proof. reflexivity. Qed.

Lemma call_materialize_output {A} (body : M A) w :
  call materialize_output_signature 3 [] body w = body w.
Proof. reflexivity. Qed.

(** C10. An input object type [T] whose first field is again an input
    object of type [T]: an input field of that type, with no recorded
    dependency, is still being descended into when the fuel is gone, for
    every amount of fuel and so beyond any nesting depth; materialization
    neither returns nor fails at depth [MAX_INPUT_DEPTH]. *)
Theorem recursive_input_unbounded env self operator_info T input_object n f rest :
  input_objects self !! T = Some input_object ->
  inputFields input_object = (n, f) :: rest ->
  kind f = "INPUT_OBJECT" -> type f = T ->
  hardDependsOn operator_info !! name f = None ->
  softDependsOn operator_info !! name f = None ->
  forall fuel input_field w,
    kind input_field = "INPUT_OBJECT" -> type input_field = T ->
    hardDependsOn operator_info !! name input_field = None ->
    softDependsOn operator_info !! name input_field = None ->
    materialize_input_field env self fuel operator_info input_field true w = (Diverge, w)
    /\ forall input_name more,
         materialize_inputs env self fuel operator_info ((input_name, input_field) :: more) w
         = (Diverge, w).
Proof.
  intros Hobj Hfields Hkf Htf Hhf Hsf.
  assert (forall fuel input_field w,
            kind input_field = "INPUT_OBJECT" -> type input_field = T ->
            hardDependsOn operator_info !! name input_field = None ->
            softDependsOn operator_info !! name input_field = None ->
            materialize_input_field env self fuel operator_info input_field true w
            = (Diverge, w)) as Hfield.
  { induction fuel as [|fuel IH]; intros input_field w Hk Ht Hh Hs; [done|].
    simpl. rewrite Hh, Hs, Hk, Ht, Hobj, Hfields. simpl.
    unfold mbind, M_bind. by rewrite IH. }
  intros fuel input_field w Hk Ht Hh Hs. split; [by apply Hfield|].
  intros input_name more. unfold materialize_inputs. simpl. unfold mbind, M_bind.
  by rewrite Hfield.
Qed.

(** [search(filter: Filter)] over [input Filter { and: Filter }], with far
    more fuel than [MAX_INPUT_DEPTH]. *)
Lemma recursive_input_unbounded_witness :
  materialize_inputs Examples.quiet_env Examples.recursive_materializer 1000
    Examples.search (inputs Examples.search) Examples.empty_world
  = (Diverge, Examples.empty_world).
Proof.
  apply (recursive_input_unbounded Examples.quiet_env Examples.recursive_materializer
           Examples.search "Filter" Examples.Filter "and"
           (Examples.input_object "and" "Filter") []
           eq_refl eq_refl eq_refl eq_refl eq_refl eq_refl
           1000 (Examples.input_object "filter" "Filter") Examples.empty_world
           eq_refl eq_refl eq_refl eq_refl).
Defined.

(** The same through [get_payload] of the query materializer. The mutation
    materializer does pass [max_depth=MAX_INPUT_DEPTH], to a method that has
    no such parameter: its [get_payload] raises [TypeError] for every
    mutation, before any field is looked at. *)
Example recursive_input_query_payload (fuel : nat) (w : world) :
  RegularQueryMaterializer.get_payload Examples.quiet_env Examples.recursive_materializer
    fuel "search" w
  = (Diverge, mk_world (objects_bucket w) ∅ (rand_state w) (sent w)).
Proof.
  unfold RegularQueryMaterializer.get_payload. unfold mbind at 1. unfold M_bind.
  cbn [set_used_objects operator_info Examples.recursive_materializer].
  rewrite lookup_singleton_eq.
  unfold mbind at 1. unfold M_bind.
  by rewrite call_materialize_inputs, recursive_inputs_diverge.
Qed.

Example mutation_payload_type_error (fuel : nat) :
  RegularMutationMaterializer.get_payload Examples.quiet_env
    (mk_materializer Examples.example_objects Examples.example_mutations ∅ ∅)
    fuel "createUser" Examples.empty_world
  = (Raise (TypeError "got an unexpected keyword argument"), Examples.empty_world).
Proof. vm_compute; reflexivity. Qed.

End input_props.

(** ** The retrier *)

Section retrier_props.
Import Retrier.

Lemma keeps_bucket_retry env fuel :
  forall url payload response retry_count,
    keeps_bucket (retry env fuel url payload response retry_count).
Proof.
  induction fuel as [|fuel IH]; intros url payload response retry_count; simpl;
    bucket_steps.
Qed.

(** An error whose message is not the non-nullable-field one: failure at
    once, nothing sent, nothing raised. *)
Lemma retry_other_message env fuel url payload response errors error message retry_count w :
  getitem response "errors" = Ret errors ->
  getindex errors 0 = Ret error ->
  getitem error "message" = Ret message ->
  contains "Cannot return null for non-nullable field" message = Ret false ->
  retry env (S fuel) url payload response retry_count w = (Ret (response, false), w).
Proof.
  intros He H0 Hm Hc. simpl. unfold mbind, M_bind, lift.
  by rewrite He, H0, Hm, Hc.
Qed.

(** The non-nullable-field message: the payload is repaired at every
    location and sent once; what happens next depends on [in] applied to
    what the transport returned. *)
Lemma retry_resend env fuel url payload response errors error message locations ls
    payload' response' retry_count w :
  getitem response "errors" = Ret errors ->
  getindex errors 0 = Ret error ->
  getitem error "message" = Ret message ->
  contains "Cannot return null for non-nullable field" message = Ret true ->
  getitem error "locations" = Ret locations ->
  iterate locations = Ret ls ->
  repair env payload ls = Ret payload' ->
  logger_info env "Retrying with new payload" = Ret tt ->
  send_graphql_request env (sent w) url payload' = Ret response' ->
  let w' := mk_world (objects_bucket w) (used_objects w) (rand_state w) (sent w ++ [payload']) in
  retry env (S fuel) url payload response retry_count w
  = match contains "errors" response' with
    | Ret true =>
        if bool_decide (retry_count < max_retries)
        then retry env fuel url payload' response' (retry_count + 1) w'
        else (Ret (response', false), w')
    | Ret false => (Ret (response', true), w')
    | Raise e => (Raise e, w')
    | Diverge => (Diverge, w')
    end.
Proof.
  intros He H0 Hm Hc Hl Hi Hr Hlog Hs w'. simpl. unfold mbind, M_bind, lift, log, send, lift.
  rewrite He, H0, Hm, Hc, Hl, Hi, Hr, Hlog, Hs.
  destruct (contains "errors" response') as [[|]| |]; try done.
  by case_bool_decide.
Qed.

Lemma returns_lift {A} (o : outcome A) : o <> Diverge -> returns (lift o).
Proof. intros H w. exact H. Qed.

Lemma returns_ret {A} (a : A) : returns (mret a).
Proof. intros w. done. Qed.

Lemma returns_bind {A B} (m : M A) (f : A -> M B) :
  returns m -> (forall a, returns (f a)) -> returns (m ≫= f).
Proof.
  intros Hm Hf w. unfold mbind, M_bind. specialize (Hm w).
  destruct (m w) as [[a|e|] w1]; simpl in *; [apply Hf | done | done].
Qed.

Lemma getitem_returns v key : getitem v key <> Diverge.
Proof. destruct v; simpl; try done. by destruct (assoc key kv). Qed.

Lemma getindex_returns v i : getindex v i <> Diverge.
Proof.
  destruct v; simpl; try done; try by destruct (l !! i).
  by destruct (String.get i s).
Qed.

Lemma contains_returns key v : contains key v <> Diverge.
Proof. by destruct v. Qed.

Lemma iterate_returns v : iterate v <> Diverge.
Proof. by destruct v. Qed.

Lemma repair_returns env ls :
  external_calls_return env -> forall payload, repair env payload ls <> Diverge.
Proof.
  intros (_ & _ & _ & _ & _ & _ & _ & Hfind & Hremove).
  induction ls as [|location ls IH]; intros payload; simpl; [done|].
  unfold get_new_payload_for_retry_non_null.
  pose proof (getitem_returns location "line") as Hline.
  destruct (getitem location "line") as [line| |]; simpl; [|done|done].
  destruct (minus_one line) as [z| |] eqn:Hz; simpl; [|done|by destruct line as [| | | | | | |]].
  specialize (Hfind payload z).
  destruct (find_block_end env payload z) as [b| |]; simpl; [|done|done].
  specialize (Hremove payload z b).
  destruct (remove_lines_within_range env payload z b) as [p| |]; simpl; [apply IH|done|done].
Qed.

(** The recursion is cut by [retry_count]: from [retry_count], [retry_fuel]
    calls are enough. *)
Lemma retry_returns env fuel :
  external_calls_return env ->
  forall url payload response retry_count,
    retry_fuel retry_count <= fuel ->
    returns (retry env fuel url payload response retry_count).
Proof.
  intros Henv. pose proof Henv as (_ & _ & Hlog & Hsend & _).
  unfold retry_fuel.
  induction fuel as [|fuel IH]; intros url payload response retry_count Hfuel; [lia|].
  simpl.
  apply returns_bind; [apply returns_lift, getitem_returns | intros errors].
  apply returns_bind; [apply returns_lift, getindex_returns | intros error].
  apply returns_bind; [apply returns_lift, getitem_returns | intros message].
  apply returns_bind; [apply returns_lift, contains_returns | intros [|]];
    [|apply returns_ret].
  apply returns_bind; [apply returns_lift, getitem_returns | intros locations].
  apply returns_bind; [apply returns_lift, iterate_returns | intros ls].
  apply returns_bind; [by apply returns_lift, repair_returns | intros payload'].
  apply returns_bind; [apply returns_lift, Hlog | intros _].
  apply returns_bind; [intros w; apply Hsend | intros response'].
  apply returns_bind; [apply returns_lift, contains_returns | intros [|]];
    [|apply returns_ret].
  case_bool_decide as Hcount; [|apply returns_ret].
  apply IH. unfold max_retries in *. lia.
Qed.

(** With a transport that hands back the decoded body alone and a server
    that answers every request with the same non-nullable-field error, the
    recursion is cut when [retry_count] has reached [max_retries]: from
    [retry_count], [max_retries + 1 - retry_count] payloads are sent, each the
    repair of the one before, and the result is failure. *)
Lemma retry_ceiling env url bad errors error message locations ls patch :
  getitem bad "errors" = Ret errors ->
  getindex errors 0 = Ret error ->
  getitem error "message" = Ret message ->
  contains "Cannot return null for non-nullable field" message = Ret true ->
  getitem error "locations" = Ret locations ->
  iterate locations = Ret ls ->
  (forall payload, repair env payload ls = Ret (patch payload)) ->
  logger_info env "Retrying with new payload" = Ret tt ->
  (forall hist payload, send_graphql_request env hist url payload = Ret bad) ->
  forall fuel retry_count payload w,
    retry_count <= max_retries -> retry_fuel retry_count <= fuel ->
    retry env fuel url payload bad retry_count w
    = (Ret (bad, false),
       mk_world (objects_bucket w) (used_objects w) (rand_state w)
         (sent w ++ resent patch payload (max_retries + 1 - retry_count))).
Proof.
  intros He H0 Hm Hc Hl Hi Hrepair Hlog Hsend.
  assert (contains "errors" bad = Ret true) as Herrors.
  { destruct bad; try discriminate. simpl in *.
    destruct (assoc "errors" kv); [|discriminate].
    by rewrite bool_decide_eq_true_2 by eauto. }
  unfold retry_fuel.
  induction fuel as [|fuel IH]; intros retry_count payload w Hcount Hfuel; [lia|].
  rewrite (retry_resend env fuel url payload bad errors error message locations ls
             (patch payload) bad retry_count w) by done.
  rewrite Herrors. case_bool_decide as Hlt.
  - rewrite IH by lia. cbn [objects_bucket used_objects rand_state sent].
    replace (max_retries + 1 - retry_count) with (S (max_retries + 1 - (retry_count + 1)))
      by lia.
    cbn [resent]. by rewrite <- app_assoc.
  - replace (max_retries + 1 - retry_count) with 1 by lia. done.
Qed.

(** With a transport that hands back the decoded body alone and keeps
    answering with the same error, [retry] called with [retry_count = 0]
    sends four payloads and reports failure. *)
Example retry_ceiling_bare_response :
  retry Examples.rejecting_bare_env 10 "url" "payload" Examples.null_field_error 0
    Examples.empty_world
  = (Ret (Examples.null_field_error, false),
     mk_world ∅ ∅ 0 ["payload"; "payload"; "payload"; "payload"]).
Proof. vm_compute; reflexivity. Qed.

Example retry_other_error :
  retry Examples.rejecting_env 10 "url" "payload" Examples.other_error 0 Examples.empty_world
  = (Ret (Examples.other_error, false), Examples.empty_world).
Proof. vm_compute; reflexivity. Qed.

(** C7. With the transport as the engine uses it, which returns the decoded
    body paired with the HTTP response: after the non-nullable-field error,
    [retry] sends one repaired payload, finds no ["errors"] in the pair
    whatever the body holds, and reports success; it does not call itself
    again. *)
Theorem retry_pair_reports_success env fuel url payload response errors error message
    locations ls payload' body http retry_count w :
  getitem response "errors" = Ret errors ->
  getindex errors 0 = Ret error ->
  getitem error "message" = Ret message ->
  contains "Cannot return null for non-nullable field" message = Ret true ->
  getitem error "locations" = Ret locations ->
  iterate locations = Ret ls ->
  repair env payload ls = Ret payload' ->
  logger_info env "Retrying with new payload" = Ret tt ->
  send_graphql_request env (sent w) url payload' = Ret (PTuple [body; http]) ->
  is_dict body = true -> is_str "errors" http = false ->
  retry env (S fuel) url payload response retry_count w
  = (Ret (PTuple [body; http], true),
     mk_world (objects_bucket w) (used_objects w) (rand_state w) (sent w ++ [payload'])).
Proof.
  intros He H0 Hm Hc Hl Hi Hr Hlog Hs Hbody Hhttp.
  rewrite (retry_resend env fuel url payload response errors error message locations ls
             payload' (PTuple [body; http]) retry_count w) by done.
  simpl. rewrite Hhttp. by destruct body.
Qed.

(** A server that keeps answering with the non-nullable-field error. *)
Lemma retry_pair_reports_success_witness :
  retry Examples.rejecting_env 10 "url" "payload" Examples.null_field_error 0
    Examples.empty_world
  = (Ret (PTuple [Examples.null_field_error; PResponse 200], true),
     mk_world ∅ ∅ 0 ["payload"]).
Proof.
  apply (retry_pair_reports_success Examples.rejecting_env 9 "url" "payload"
           Examples.null_field_error
           (PList [PDict [("message",
                           PStr "Cannot return null for non-nullable field Transaction.payer.");
                          ("locations",
                           PList [PDict [("line", PInt 4%Z); ("column", PInt 5%Z)]])]])
           (PDict [("message",
                    PStr "Cannot return null for non-nullable field Transaction.payer.");
                   ("locations", PList [PDict [("line", PInt 4%Z); ("column", PInt 5%Z)]])])
           (PStr "Cannot return null for non-nullable field Transaction.payer.")
           (PList [PDict [("line", PInt 4%Z); ("column", PInt 5%Z)]])
           [PDict [("line", PInt 4%Z); ("column", PInt 5%Z)]]
           "payload" Examples.null_field_error (PResponse 200) 0 Examples.empty_world);
    vm_compute; reflexivity.
Defined.

End retrier_props.

(** ** The engine *)

Section engine_props.
Import constants FEngine.





Lemma log_returns env msg w :
  logger_info env msg = Ret tt -> log env msg w = (Ret tt, w).
Proof. intros H. unfold log, lift. by rewrite H. Qed.

(** The base constructor, reached with four positional arguments, raises
    before it touches the store. *)
Lemma base_init_four_arguments objects ops input_objects enums w :
  Materializer.init 4 objects ops input_objects enums w
  = (Raise (TypeError "missing required positional argument"), w).
Proof. reflexivity. Qed.

Lemma mutation_materializer_init objects ops input_objects enums w :
  RegularMutationMaterializer.init 4 objects ops input_objects enums w
  = (Raise (TypeError "missing required positional argument"), w).
Proof. reflexivity. Qed.

Lemma query_materializer_init objects ops input_objects enums w :
  RegularQueryMaterializer.init 4 objects ops input_objects enums w
  = (Raise (TypeError "missing required positional argument"), w).
Proof. reflexivity. Qed.

(** C2. With a logger that returns, [run_regular_mutation] and
    [run_regular_query] give back the bucket they were handed, unchanged, and
    [False], for every operation name and every bucket: constructing the
    materializer raises [TypeError] (the [logger] argument is missing), no
    request is sent, and the handler for [Exception] turns the error into a
    failure. *)
Theorem run_regular_always_fails
    (env : Env) (self : FEngine) (fuel : nat) (name : string) (w : world) :
  (forall msg, logger_info env msg = Ret tt) ->
  run_regular_mutation env self fuel name w = (Ret (objects_bucket w, false), w)
  /\ run_regular_query env self fuel name w = (Ret (objects_bucket w, false), w).
Proof.
  intros Hlog. split.
  - unfold run_regular_mutation, run_regular_mutation_with, mutation_try.
    unfold mbind, M_bind. rewrite !log_returns by done.
    cbn [new RegularMutationMaterializer]. rewrite mutation_materializer_init. simpl.
    unfold failed, mbind, M_bind. by rewrite log_returns.
  - unfold run_regular_query, run_regular_query_with, query_try.
    unfold mbind, M_bind. rewrite !log_returns by done.
    cbn [new RegularQueryMaterializer]. rewrite query_materializer_init. simpl.
    unfold failed, mbind, M_bind. by rewrite log_returns.
Qed.

Lemma run_regular_always_fails_witness :
  (forall msg, logger_info Examples.quiet_env msg = Ret tt)
  /\ run_regular_mutation Examples.quiet_env Examples.example_engine 100 "createUser"
       Examples.empty_world
     = (Ret (∅, false), Examples.empty_world)
  /\ run_regular_query Examples.quiet_env Examples.example_engine 100 "user"
       Examples.empty_world
     = (Ret (∅, false), Examples.empty_world).
Proof.
  split; [reflexivity|].
  split.
  - exact (proj1 (run_regular_always_fails Examples.quiet_env Examples.example_engine 100
                    "createUser" Examples.empty_world (fun _ => eq_refl))).
  - exact (proj2 (run_regular_always_fails Examples.quiet_env Examples.example_engine 100
                    "user" Examples.empty_world (fun _ => eq_refl))).
Defined.



(** A DELETE takes the consumed identifier out of the bucket, and only
    it. *)
Example delete_removes_used_object :
  process_mutation_result Examples.quiet_env Examples.example_engine "deleteUser"
    {["User" := PStr "u1"]} (PDict [("id", PStr "u1")])
    (Examples.world_with {["User" := [PStr "u0"; PStr "u1"; PStr "u2"]]})
  = (Ret tt, Examples.world_with {["User" := [PStr "u0"; PStr "u2"]]}).
Proof. vm_compute; reflexivity. Qed.

(** The two scenarios of the specification, run through the whole of
    [run_regular_mutation] with a materializer class that can be
    constructed. *)
Example create_user_scenario :
  (run_regular_mutation_with
     (Examples.answering_env (PDict [("data", PDict [("createUser", PDict [("id", PStr "u1")])])]))
     Examples.example_engine
     (Examples.with_logger (RegularQueryMaterializer Examples.quiet_env 10)) 10 "createUser"
     Examples.empty_world).1
  = Ret ({["User" := [PStr "u1"]]}, true).
Proof. vm_compute; reflexivity. Qed.

Example delete_user_scenario :
  (run_regular_mutation_with
     (Examples.answering_env (PDict [("data", PDict [("deleteUser", PDict [("id", PStr "u1")])])]))
     Examples.example_engine
     (Examples.with_logger (RegularQueryMaterializer Examples.quiet_env 10)) 10 "deleteUser"
     (Examples.world_with {["User" := [PStr "u1"]]})).1
  = Ret ({["User" := []]}, true)
  /\ (run_regular_mutation_with Examples.quiet_env Examples.example_engine
        (Examples.with_logger (RegularQueryMaterializer Examples.quiet_env 10)) 10 "deleteUser"
        Examples.empty_world).1
     = Ret (∅, false).
Proof. split; vm_compute; reflexivity. Qed.

(** *** The operation boundary *)

Lemma keeps_bucket_base_init npos objects ops input_objects enums :
  keeps_bucket (Materializer.init npos objects ops input_objects enums).
Proof. unfold Materializer.init. bucket_steps. Qed.

Lemma keeps_bucket_query_payload env materializer fuel name :
  keeps_bucket (RegularQueryMaterializer.get_payload env materializer fuel name).
Proof.
  unfold RegularQueryMaterializer.get_payload.
  pose proof (keeps_bucket_materialize_inputs env materializer fuel).
  bucket_steps.
Qed.

Lemma keeps_bucket_mutation_payload env materializer fuel name :
  keeps_bucket (RegularMutationMaterializer.get_payload env materializer fuel name).
Proof.
  unfold RegularMutationMaterializer.get_payload.
  pose proof (keeps_bucket_materialize_inputs env materializer fuel).
  bucket_steps.
Qed.

Lemma query_class_keeps_bucket env fuel :
  class_keeps_bucket (RegularQueryMaterializer env fuel).
Proof.
  split; simpl; intros.
  - unfold RegularQueryMaterializer.init. pose proof keeps_bucket_base_init. bucket_steps.
  - apply keeps_bucket_query_payload.
Qed.

Lemma mutation_class_keeps_bucket env fuel :
  class_keeps_bucket (RegularMutationMaterializer env fuel).
Proof.
  split; simpl; intros.
  - unfold RegularMutationMaterializer.init. pose proof keeps_bucket_base_init. bucket_steps.
  - apply keeps_bucket_mutation_payload.
Qed.

Lemma with_logger_keeps_bucket cls :
  class_keeps_bucket cls -> class_keeps_bucket (Examples.with_logger cls).
Proof. intros [Hnew Hpayload]. split; simpl; intros; [apply Hnew | apply Hpayload]. Qed.

(** Step 3 writes the bucket last: when it raises, it has not written. *)
Lemma process_mutation_result_raises env self name used result :
  raises_with_bucket_kept (process_mutation_result env self name used result).
Proof.
  intros w e w' H.
  unfold process_mutation_result, mbind, M_bind, lift, raise, lift,
    get_objects_bucket, set_objects_bucket in H.
  repeat case_match; simplify_eq/=; done.
Qed.

Lemma process_query_result_raises env self name result :
  raises_with_bucket_kept (process_query_result env self name result).
Proof.
  intros w e w' H.
  unfold process_query_result, mbind, M_bind, lift, raise, lift,
    get_objects_bucket, set_objects_bucket in H.
  repeat case_match; simplify_eq/=; done.
Qed.

Lemma interpret_raises env name process response :
  (forall result, raises_with_bucket_kept (process result)) ->
  raises_with_bucket_kept (interpret env name process response).
Proof.
  intros Hprocess. unfold interpret.
  repeat first
    [ apply raises_with_bucket_kept_then_ret, Hprocess
    | apply raises_with_bucket_kept_bind; [solve [bucket_steps] | intros ?]
    | apply keeps_bucket_raises; solve [bucket_steps]
    | match goal with
      | |- raises_with_bucket_kept (if ?b then _ else _) => destruct b
      end ].
Qed.

Lemma send_and_interpret_raises env self fuel name payload process :
  (forall result, raises_with_bucket_kept (process result)) ->
  raises_with_bucket_kept (send_and_interpret env self fuel name payload process).
Proof.
  intros Hprocess. unfold send_and_interpret.
  pose proof (keeps_bucket_retry env fuel).
  repeat first
    [ apply interpret_raises, Hprocess
    | apply raises_with_bucket_kept_bind; [solve [bucket_steps] | intros ?]
    | apply keeps_bucket_raises; solve [bucket_steps]
    | match goal with
      | |- raises_with_bucket_kept (if ?b then _ else _) => destruct b
      | |- raises_with_bucket_kept (let '(_, _) := ?x in _) => destruct x
      end ].
Qed.

Lemma mutation_try_raises env self cls fuel name :
  class_keeps_bucket cls -> raises_with_bucket_kept (mutation_try env self cls fuel name).
Proof.
  intros [Hnew Hpayload]. unfold mutation_try.
  do 3 (apply raises_with_bucket_kept_bind; [solve [bucket_steps] | intros ?]).
  apply raises_with_bucket_kept_bind; [solve [bucket_steps] | intros [payload used]].
  apply send_and_interpret_raises. apply process_mutation_result_raises.
Qed.

Lemma query_try_raises env self cls fuel name :
  class_keeps_bucket cls -> raises_with_bucket_kept (query_try env self cls fuel name).
Proof.
  intros [Hnew Hpayload]. unfold query_try.
  do 3 (apply raises_with_bucket_kept_bind; [solve [bucket_steps] | intros ?]).
  apply raises_with_bucket_kept_bind; [solve [bucket_steps] | intros [payload used]].
  apply send_and_interpret_raises. apply process_query_result_raises.
Qed.

Lemma failed_returns env msg w :
  logger_info env msg = Ret tt -> failed env msg w = (Ret (objects_bucket w, false), w).
Proof.
  intros Hlog. unfold failed, mbind, M_bind. by rewrite log_returns.
Qed.

(** C8, as the code has it. With a logger that returns and a materializer
    that leaves the bucket alone: when the [try] block of
    [run_regular_mutation] or [run_regular_query] raises, the bucket is as it
    was on entry; an exception that derives from [Exception] and is not
    [bdb.BdbQuit] becomes the result [(objects_bucket, False)], with that
    unchanged bucket; [bdb.BdbQuit], and an exception outside [Exception],
    leave the method. *)
Theorem operation_boundary
    (env : Env) (self : FEngine) (cls : materializer_class) (fuel : nat) (name : string)
    (w : world) (e : exn) (w1 : world) :
  (forall msg, logger_info env msg = Ret tt) ->
  class_keeps_bucket cls ->
  (mutation_try env self cls fuel name w = (Raise e, w1) ->
     objects_bucket w1 = objects_bucket w
     /\ run_regular_mutation_with env self cls fuel name w
        = (if is_BdbQuit e || negb (is_Exception e) then Raise e
           else Ret (objects_bucket w, false), w1))
  /\ (query_try env self cls fuel name w = (Raise e, w1) ->
       objects_bucket w1 = objects_bucket w
       /\ run_regular_query_with env self cls fuel name w
          = (if is_BdbQuit e || negb (is_Exception e) then Raise e
             else Ret (objects_bucket w, false), w1)).
Proof.
  intros Hlog Hcls. split; intros Htry.
  - pose proof (mutation_try_raises env self cls fuel name Hcls _ _ _ Htry) as Hbucket.
    split; [done|]. unfold run_regular_mutation_with. rewrite Htry.
    destruct e; simpl; rewrite ?failed_returns by done; by rewrite ?Hbucket.
  - pose proof (query_try_raises env self cls fuel name Hcls _ _ _ Htry) as Hbucket.
    split; [done|]. unfold run_regular_query_with. rewrite Htry.
    destruct e; simpl; rewrite ?failed_returns by done; by rewrite ?Hbucket.
Qed.

Lemma operation_boundary_witness :
  (run_regular_mutation_with Examples.unreachable_env Examples.example_engine
     (Examples.with_logger (RegularQueryMaterializer Examples.quiet_env 10)) 10 "createUser"
     Examples.empty_world).1
  = Ret (∅, false).
Proof.
  destruct (operation_boundary Examples.unreachable_env Examples.example_engine
              (Examples.with_logger (RegularQueryMaterializer Examples.quiet_env 10)) 10
              "createUser" Examples.empty_world (OtherException "ConnectionError")
              (mutation_try Examples.unreachable_env Examples.example_engine
                 (Examples.with_logger (RegularQueryMaterializer Examples.quiet_env 10)) 10
                 "createUser" Examples.empty_world).2
              (fun _ => eq_refl)
              (with_logger_keeps_bucket _ (query_class_keeps_bucket _ _))) as [Hm _].
  destruct (Hm ltac:(vm_compute; reflexivity)) as [_ ->]. reflexivity.
Defined.

(** [bdb.BdbQuit] raised inside the [try] block leaves both methods: raised
    at its first statement, and raised while the request is sent (by a
    materializer class that can be constructed). *)
Lemma bdbquit_leaves_run_regular :
  run_regular_mutation Examples.debugger_env Examples.example_engine 10 "createUser"
    Examples.empty_world
  = (Raise BdbQuit, Examples.empty_world)
  /\ run_regular_query Examples.debugger_env Examples.example_engine 10 "user"
       Examples.empty_world
     = (Raise BdbQuit, Examples.empty_world)
  /\ (run_regular_mutation_with Examples.debugged_transport_env Examples.example_engine
        (Examples.with_logger (RegularQueryMaterializer Examples.quiet_env 10)) 10 "createUser"
        Examples.empty_world).1
     = Raise BdbQuit
  /\ (run_regular_query_with Examples.debugged_transport_env Examples.example_engine
        (Examples.with_logger (RegularQueryMaterializer Examples.quiet_env 10)) 10 "user"
        Examples.empty_world).1
     = Raise BdbQuit.
Proof. repeat split; vm_compute; reflexivity. Qed.

End engine_props.
(** * Further properties of the code *)

(** ** The store under sequencing *)

Section effects_props.

Lemma bind_store {A B} (m : M A) (f : A -> M B) w :
  ((m ≫= f) w).2 = match (m w).1 with
                    | Ret a => (f a (m w).2).2
                    | _ => (m w).2
                    end.
Proof. unfold mbind, M_bind. by destruct (m w) as [[a|e|] w1]. Qed.

Lemma bind_outcome {A B} (m : M A) (f : A -> M B) w :
  ((m ≫= f) w).1 = match (m w).1 with
                    | Ret a => (f a (m w).2).1
                    | Raise e => Raise e
                    | Diverge => Diverge
                    end.
Proof. unfold mbind, M_bind. by destruct (m w) as [[a|e|] w1]. Qed.

Lemma bind_ret_inv {A B} (m : M A) (f : A -> M B) w b w' :
  (m ≫= f) w = (Ret b, w') -> exists a w1, m w = (Ret a, w1) /\ f a w1 = (Ret b, w').
Proof.
  unfold mbind, M_bind. destruct (m w) as [[a|e|] w1]; [|done..]. intros H. by exists a, w1.
Qed.

Lemma lift_ret_inv {A} (o : outcome A) w a w' :
  lift o w = (Ret a, w') -> o = Ret a /\ w' = w.
Proof. unfold lift. by intros [= -> ->]. Qed.

Lemma ret_inv {A} (a b : A) w w' : (mret a : M A) w = (Ret b, w') -> b = a /\ w' = w.
Proof. by intros [= -> ->]. Qed.

Lemma frame_bind {A B} (R : world -> world -> Prop) (m : M A) (f : A -> M B) :
  (forall w1 w2 w3, R w1 w2 -> R w2 w3 -> R w1 w3) ->
  frame R m -> (forall a, frame R (f a)) -> frame R (m ≫= f).
Proof.
  intros Htrans Hm Hf w. rewrite bind_store. specialize (Hm w).
  destruct (m w).1; [|done..]. eapply Htrans; [exact Hm | apply Hf].
Qed.

Lemma frame_weaken {A} (R R' : world -> world -> Prop) (m : M A) :
  (forall w w', R w w' -> R' w w') -> frame R m -> frame R' m.
Proof. intros HR Hm w. apply HR, Hm. Qed.

Lemma materializes_refl w : materializes w w.
Proof. by unfold materializes. Qed.

Lemma materializes_bind {A B} (m : M A) (f : A -> M B) :
  frame materializes m -> (forall a, frame materializes (f a)) ->
  frame materializes (m ≫= f).
Proof.
  apply frame_bind. intros w1 w2 w3 (? & ? & ?) (? & ? & ?).
  unfold materializes. split_and!; [congruence..|lia].
Qed.

Lemma sends_only_refl w : sends_only w w.
Proof. by unfold sends_only. Qed.

Lemma sends_only_bind {A B} (m : M A) (f : A -> M B) :
  frame sends_only m -> (forall a, frame sends_only (f a)) -> frame sends_only (m ≫= f).
Proof.
  apply frame_bind. intros w1 w2 w3 (? & ? & ?) (? & ? & ?).
  unfold sends_only. split_and!; congruence.
Qed.

Lemma sent_upto_refl n w : sent_upto n w w.
Proof. exists []. rewrite app_nil_r. split; [done|simpl; lia]. Qed.

Lemma sent_upto_trans n k w1 w2 w3 :
  sent_upto n w1 w2 -> sent_upto k w2 w3 -> sent_upto (n + k) w1 w3.
Proof.
  intros (l1 & Hl1 & ?) (l2 & Hl2 & ?).
  exists (l1 ++ l2). rewrite Hl2, Hl1, length_app, <- app_assoc. split; [done|lia].
Qed.

Lemma sent_upto_le n k w w' : n <= k -> sent_upto n w w' -> sent_upto k w w'.
Proof. intros ? (l & ? & ?). exists l. split; [done|lia]. Qed.

Lemma sent_upto_0 w w' : sent_upto 0 w w' <-> sent w' = sent w.
Proof.
  split.
  - intros (l & -> & Hl). destruct l; [by rewrite app_nil_r|simpl in Hl; lia].
  - intros H. exists []. by rewrite app_nil_r.
Qed.

Lemma sends_bind {A B} n k (m : M A) (f : A -> M B) :
  frame (sent_upto n) m -> (forall a, frame (sent_upto k) (f a)) ->
  frame (sent_upto (n + k)) (m ≫= f).
Proof.
  intros Hm Hf w. rewrite bind_store. specialize (Hm w).
  destruct (m w).1; [|apply (sent_upto_le n); [lia|done]..].
  eapply sent_upto_trans; [exact Hm | apply Hf].
Qed.

Lemma quiet_bind {A B} (m : M A) (f : A -> M B) :
  frame (sent_upto 0) m -> (forall a, frame (sent_upto 0) (f a)) ->
  frame (sent_upto 0) (m ≫= f).
Proof. apply (sends_bind 0 0). Qed.

Lemma sends_le {A} n k (m : M A) : n <= k -> frame (sent_upto n) m -> frame (sent_upto k) m.
Proof. intros ? Hm w. by apply (sent_upto_le n). Qed.

Lemma sends_lift {A} n (o : outcome A) : frame (sent_upto n) (lift o).
Proof. intros w. apply sent_upto_refl. Qed.

Lemma sends_log env n msg : frame (sent_upto n) (log env msg).
Proof. apply sends_lift. Qed.

Lemma sends_ret {A} n (a : A) : frame (sent_upto n) (mret a).
Proof. intros w. apply sent_upto_refl. Qed.

Lemma sends_raise {A} n e : frame (sent_upto n) (raise e : M A).
Proof. intros w. apply sent_upto_refl. Qed.

Lemma sends_get_objects_bucket n : frame (sent_upto n) get_objects_bucket.
Proof. intros w. apply sent_upto_refl. Qed.

Lemma sends_set_objects_bucket n b : frame (sent_upto n) (set_objects_bucket b).
Proof. intros w. exists []. simpl. rewrite app_nil_r. split; [done|lia]. Qed.

Lemma sends_send env url payload : frame (sent_upto 1) (send env url payload).
Proof. intros w. exists [payload]. split; [done|simpl; lia]. Qed.

End effects_props.

Create HintDb sends discriminated.
#[local] Hint Resolve sends_lift sends_log sends_ret sends_raise sends_get_objects_bucket
  sends_set_objects_bucket : sends.

(** Splits a goal about a sequence of steps that send nothing into one goal
    per step. *)
Ltac quiet_steps :=
  repeat first
    [ apply quiet_bind; [| intros ?]
    | progress (eauto with sends)
    | match goal with
      | |- frame _ (if ?b then _ else _) => destruct b
      | |- frame _ (match ?x with _ => _ end) => destruct x
      end ].

(** ** The retrier and the requests it sends *)

Section retrier_facts.
Import Retrier RetrierFacts.

Lemma retry_sends env fuel : forall url payload response retry_count,
  frame (sent_upto (S (max_retries - retry_count)))
    (retry env fuel url payload response retry_count).
Proof.
  induction fuel as [|fuel IH]; intros url payload response retry_count.
  { intros w. apply sent_upto_refl. }
  cbn [retry].
  do 4 (apply (sends_bind 0); [apply sends_lift|intros ?]).
  match goal with |- frame _ (if ?b then _ else _) => destruct b end; [|apply sends_ret].
  do 4 (apply (sends_bind 0); [apply sends_lift|intros ?]).
  apply (sends_bind 1); [apply sends_send|intros response'].
  apply (sends_bind 0); [apply sends_lift|intros has_errors].
  destruct has_errors; [|apply sends_ret].
  case_bool_decide as Hcount; [|apply sends_ret].
  apply (sends_le (S (max_retries - (retry_count + 1)))); [|apply IH].
  unfold max_retries in *. destruct retry_count as [|[|[|?]]]; simpl; lia.
Qed.

Lemma retry_sends_only env fuel : forall url payload response retry_count,
  frame sends_only (retry env fuel url payload response retry_count).
Proof.
  induction fuel as [|fuel IH]; intros url payload response retry_count.
  { intros w. apply sends_only_refl. }
  cbn [retry].
  repeat first
    [ apply IH
    | apply sends_only_bind; [| intros ?]
    | by intros w
    | match goal with
      | |- frame _ (if ?b then _ else _) => destruct b
      end ].
Qed.

(** What [retry] hands back when it returns: the response it was given, as a
    failure and with nothing sent, or else the answer to the last request
    sent, as a success exactly when that answer has no [errors]. *)
Lemma retry_result env fuel : forall url payload response retry_count w resp ok w',
  retry env fuel url payload response retry_count w = (Ret (resp, ok), w') ->
  (w' = w /\ resp = response /\ ok = false)
  \/ exists hist last,
       sent w' = hist ++ [last] /\ sent w `prefix_of` hist
       /\ send_graphql_request env hist url last = Ret resp
       /\ contains "errors" resp = Ret (negb ok).
Proof.
  induction fuel as [|fuel IH]; intros url payload response retry_count w resp ok w' H;
    [done|].
  cbn [retry] in H.
  apply bind_ret_inv in H as (errors & ? & [_ ->]%lift_ret_inv & H).
  apply bind_ret_inv in H as (error & ? & [_ ->]%lift_ret_inv & H).
  apply bind_ret_inv in H as (message & ? & [_ ->]%lift_ret_inv & H).
  apply bind_ret_inv in H as (matched & ? & [_ ->]%lift_ret_inv & H).
  destruct matched; [|apply ret_inv in H as [[= -> ->] ->]; by left].
  apply bind_ret_inv in H as (locations & ? & [_ ->]%lift_ret_inv & H).
  apply bind_ret_inv in H as (ls & ? & [_ ->]%lift_ret_inv & H).
  apply bind_ret_inv in H as (payload' & ? & [_ ->]%lift_ret_inv & H).
  apply bind_ret_inv in H as ([] & ? & [_ ->]%lift_ret_inv & H).
  apply bind_ret_inv in H as (response' & w1 & Hsend & H).
  unfold send in Hsend. injection Hsend as Hanswer <-.
  apply bind_ret_inv in H as (has_errors & ? & [Herrors ->]%lift_ret_inv & H).
  right. destruct has_errors.
  - case_bool_decide as Hcount.
    + apply IH in H as [(-> & -> & ->) | (hist & last & Hsent & Hprefix & Hlast & Hok)].
      * exists (sent w), payload'. by split_and!.
      * exists hist, last. split_and!; try done.
        etrans; [|exact Hprefix]. by apply prefix_app_r.
    + apply ret_inv in H as [[= -> ->] ->]. exists (sent w), payload'. by split_and!.
  - apply ret_inv in H as [[= -> ->] ->]. exists (sent w), payload'. by split_and!.
Qed.

Lemma reports_null_field_returns response : reports_null_field response <> Diverge.
Proof.
  unfold reports_null_field.
  destruct (getitem response "errors") as [errors| |] eqn:H1; simpl;
    [|done|by apply getitem_returns in H1].
  destruct (getindex errors 0) as [error| |] eqn:H2; simpl;
    [|done|by apply getindex_returns in H2].
  destruct (getitem error "message") as [message| |] eqn:H3; simpl;
    [|done|by apply getitem_returns in H3].
  apply contains_returns.
Qed.

(** X1. [retry] sends at most [max_retries + 1 - retry_count] requests (at
    least one is allowed, whatever the count), four from a count of 0,
    whatever the server answers and whatever the outcome; requests are only
    added to those sent before, and nothing else of the store changes. *)
Theorem retry_requests_bounded
    (env : Env) (fuel : nat) (url payload : string) (response : pyval) (retry_count : nat)
    (w : world) :
  let w' := (retry env fuel url payload response retry_count w).2 in
  (exists more, sent w' = sent w ++ more /\ length more <= S (max_retries - retry_count))
  /\ objects_bucket w' = objects_bucket w /\ used_objects w' = used_objects w
  /\ rand_state w' = rand_state w.
Proof.
  intros w'. split.
  - apply retry_sends.
  - apply retry_sends_only.
Qed.

(** X2. What [retry] hands back when it returns. A success is the answer
    to the last request sent, and that answer has no [errors]; at least one
    request was sent. A failure is either the response that was handed in,
    with nothing sent, or the answer to the last request sent, which has
    [errors]. *)
Theorem retry_hands_back_last_answer
    (env : Env) (fuel : nat) (url payload : string) (response : pyval) (retry_count : nat)
    (w : world) (resp : pyval) (ok : bool) (w' : world) :
  retry env fuel url payload response retry_count w = (Ret (resp, ok), w') ->
  let last_answer errors :=
    exists hist last,
      sent w' = hist ++ [last] /\ sent w `prefix_of` hist
      /\ send_graphql_request env hist url last = Ret resp
      /\ contains "errors" resp = Ret errors in
  if ok then last_answer false
  else (resp = response /\ w' = w) \/ last_answer true.
Proof.
  intros H last_answer.
  apply retry_result in H as [(-> & -> & ->) | (hist & last & Hsent & Hprefix & Hlast & Hok)].
  - by left.
  - destruct ok; [|right]; by exists hist, last.
Qed.

Lemma retry_hands_back_last_answer_witness :
  exists hist last,
    ["p0"; "payload"] = hist ++ [last] /\ ["p0"] `prefix_of` hist
    /\ send_graphql_request Examples.quiet_env hist "url" last
       = Ret (PTuple [PDict [("data", PDict [])]; PResponse 200])
    /\ contains "errors" (PTuple [PDict [("data", PDict [])]; PResponse 200]) = Ret false.
Proof.
  apply (retry_hands_back_last_answer Examples.quiet_env 10 "url" "payload"
           Examples.null_field_error 0 (mk_world ∅ ∅ 0 ["p0"])
           (PTuple [PDict [("data", PDict [])]; PResponse 200]) true
           (mk_world ∅ ∅ 0 ["p0"; "payload"])).
  vm_compute. reflexivity.
Defined.

(** X3. A response that [retry] does not understand is handed back as it
    is: unless the message of the first error holds the phrase "Cannot return
    null for non-nullable field", [retry] sends nothing and changes nothing;
    it returns the response with [False], or raises what the lookup of
    [response["errors"][0]["message"]] raises ([KeyError], [IndexError],
    [TypeError]), which is all that this lookup can do. *)
Theorem retry_leaves_other_errors
    (env : Env) (fuel : nat) (url payload : string) (response : pyval) (retry_count : nat)
    (w : world) :
  reports_null_field response <> Ret true ->
  retry env (S fuel) url payload response retry_count w
  = ((fun _ => (response, false)) <$> reports_null_field response, w)
  /\ reports_null_field response <> Diverge.
Proof.
  intros Hreport. split; [|apply reports_null_field_returns].
  cbn [retry]. unfold reports_null_field in *.
  unfold mbind, M_bind, lift.
  destruct (getitem response "errors") as [errors| |]; simpl in *; [|done..].
  destruct (getindex errors 0) as [error| |]; simpl in *; [|done..].
  destruct (getitem error "message") as [message| |]; simpl in *; [|done..].
  destruct (contains _ message) as [[]| |]; simpl in *; done.
Qed.

Lemma retry_leaves_other_errors_witness :
  retry Examples.rejecting_env 10 "url" "payload" (PDict [("errors", PList [])]) 0
    Examples.empty_world
  = (Raise (IndexError "index out of range"), Examples.empty_world).
Proof.
  apply (proj1 (retry_leaves_other_errors Examples.rejecting_env 9 "url" "payload"
                  (PDict [("errors", PList [])]) 0 Examples.empty_world
                  ltac:(vm_compute; discriminate))).
Defined.

End retrier_facts.

(** ** The repair of a payload *)

Section retrier_repair.
Import Retrier RetrierFacts.

Lemma repair_app env l1 : forall payload l2,
  repair env payload (l1 ++ l2) = (payload' ← repair env payload l1; repair env payload' l2).
Proof.
  induction l1 as [|location l1 IH]; intros payload l2; [done|]. simpl.
  destruct (get_new_payload_for_retry_non_null env payload location); simpl; [apply IH|done..].
Qed.

(** X4. The repair of a payload reads nothing of a location but its
    [line]: locations that agree on [location["line"]] (whatever their
    [column]) give the same new payload, through [find_block_end] and
    [remove_lines_within_range] at the line before; the locations of an error
    are applied in order, each to the payload that the one before has left,
    and the first that fails ends the repair. *)
Theorem repair_reads_lines
    (env : Env) (payload : string) (ls1 ls2 more : list pyval) :
  Forall2 (fun l1 l2 => getitem l1 "line" = getitem l2 "line") ls1 ls2 ->
  repair env payload ls1 = repair env payload ls2
  /\ repair env payload (ls1 ++ more)
     = (payload' ← repair env payload ls1; repair env payload' more).
Proof.
  intros Hlines. split; [|apply repair_app].
  revert payload. induction Hlines as [|l1 l2 ls1 ls2 Hline _ IH]; intros payload; [done|].
  cbn [repair]. unfold get_new_payload_for_retry_non_null. rewrite Hline.
  destruct (getitem l2 "line" ≫= _) as [payload'| |]; simpl; [apply IH|done..].
Qed.

Lemma repair_reads_lines_witness :
  repair Examples.quiet_env "payload" [PDict [("line", PInt 4); ("column", PInt 5)]]
  = repair Examples.quiet_env "payload" [PDict [("column", PInt 9); ("line", PInt 4)]]
  /\ repair Examples.quiet_env "payload"
       ([PDict [("line", PInt 4); ("column", PInt 5)]] ++ [PDict []])
     = (payload' ← repair Examples.quiet_env "payload"
                      [PDict [("line", PInt 4); ("column", PInt 5)]];
        repair Examples.quiet_env payload' [PDict []]).
Proof.
  apply (repair_reads_lines Examples.quiet_env "payload"
           [PDict [("line", PInt 4); ("column", PInt 5)]]
           [PDict [("column", PInt 9); ("line", PInt 4)]] [PDict []]).
  repeat constructor.
Defined.

End retrier_repair.

(** ** The engine: when the bucket is written, and how many requests go out *)

Section engine_facts.
Import constants FEngine.

Lemma keeps_bucket_store {A} (m : M A) w :
  keeps_bucket m -> objects_bucket (m w).2 = objects_bucket w.
Proof. intros Hm. by apply (Hm w (m w).1), surjective_pairing. Qed.

Lemma writes_bucket_only_when_keeps {A} (ok : A -> bool) (m : M A) :
  keeps_bucket m -> writes_bucket_only_when ok m.
Proof. intros Hm w _. by apply keeps_bucket_store. Qed.

Lemma writes_bucket_only_when_bind {A B} (ok : B -> bool) (m : M A) (f : A -> M B) :
  keeps_bucket m -> (forall a, writes_bucket_only_when ok (f a)) ->
  writes_bucket_only_when ok (m ≫= f).
Proof.
  intros Hm Hf w Hok. rewrite bind_store. rewrite <- (keeps_bucket_store m w Hm).
  destruct (m w).1 as [a| |] eqn:Ha; [|done..].
  apply Hf. intros b Hb. apply Hok. by rewrite bind_outcome, Ha.
Qed.

Lemma writes_bucket_only_when_then_ret {A} (m : M A) :
  writes_bucket_only_when (fun _ => true) m ->
  writes_bucket_only_when (fun b : bool => b) (m ;; mret true).
Proof.
  intros Hm w Hok. rewrite bind_store.
  destruct (m w).1 as [a| |] eqn:Ha.
  - specialize (Hok true). rewrite bind_outcome, Ha in Hok. by specialize (Hok eq_refl).
  - apply Hm. intros a. by rewrite Ha.
  - apply Hm. intros a. by rewrite Ha.
Qed.

(** Step 3 writes the bucket last: unless it returns, it has not written. *)
Lemma process_mutation_result_writes env self name used result :
  writes_bucket_only_when (fun _ => true) (process_mutation_result env self name used result).
Proof.
  intros w H.
  destruct (process_mutation_result env self name used result w) as [r w'] eqn:Hp.
  simpl in *. destruct r as [[]| |]; [by specialize (H tt eq_refl)|..];
    unfold process_mutation_result, mbind, M_bind, lift, raise, lift,
      get_objects_bucket, set_objects_bucket in Hp;
    repeat case_match; simplify_eq/=; done.
Qed.

Lemma process_query_result_writes env self name result :
  writes_bucket_only_when (fun _ => true) (process_query_result env self name result).
Proof.
  intros w H.
  destruct (process_query_result env self name result w) as [r w'] eqn:Hp.
  simpl in *. destruct r as [[]| |]; [by specialize (H tt eq_refl)|..];
    unfold process_query_result, mbind, M_bind, lift, raise, lift,
      get_objects_bucket, set_objects_bucket in Hp;
    repeat case_match; simplify_eq/=; done.
Qed.

Lemma interpret_writes env name process response :
  (forall result, writes_bucket_only_when (fun _ => true) (process result)) ->
  writes_bucket_only_when (fun b : bool => b) (interpret env name process response).
Proof.
  intros Hprocess. unfold interpret.
  repeat first
    [ apply writes_bucket_only_when_then_ret, Hprocess
    | apply writes_bucket_only_when_bind; [solve [bucket_steps] | intros ?]
    | apply writes_bucket_only_when_keeps; solve [bucket_steps]
    | match goal with
      | |- writes_bucket_only_when _ (if ?b then _ else _) => destruct b
      end ].
Qed.

Lemma send_and_interpret_writes env self fuel name payload process :
  (forall result, writes_bucket_only_when (fun _ => true) (process result)) ->
  writes_bucket_only_when (fun b : bool => b)
    (send_and_interpret env self fuel name payload process).
Proof.
  intros Hprocess. unfold send_and_interpret.
  pose proof (keeps_bucket_retry env fuel).
  repeat first
    [ apply interpret_writes, Hprocess
    | apply writes_bucket_only_when_bind; [solve [bucket_steps] | intros ?]
    | apply writes_bucket_only_when_keeps; solve [bucket_steps]
    | match goal with
      | |- writes_bucket_only_when _ (if ?b then _ else _) => destruct b
      | |- writes_bucket_only_when _ (let '(_, _) := ?x in _) => destruct x
      end ].
Qed.

Lemma mutation_try_writes env self cls fuel name :
  class_keeps_bucket cls ->
  writes_bucket_only_when (fun b : bool => b) (mutation_try env self cls fuel name).
Proof.
  intros [Hnew Hpayload]. unfold mutation_try.
  do 3 (apply writes_bucket_only_when_bind; [solve [bucket_steps] | intros ?]).
  apply writes_bucket_only_when_bind; [solve [bucket_steps] | intros [payload used]].
  apply send_and_interpret_writes. apply process_mutation_result_writes.
Qed.

Lemma query_try_writes env self cls fuel name :
  class_keeps_bucket cls ->
  writes_bucket_only_when (fun b : bool => b) (query_try env self cls fuel name).
Proof.
  intros [Hnew Hpayload]. unfold query_try.
  do 3 (apply writes_bucket_only_when_bind; [solve [bucket_steps] | intros ?]).
  apply writes_bucket_only_when_bind; [solve [bucket_steps] | intros [payload used]].
  apply send_and_interpret_writes. apply process_query_result_writes.
Qed.

Lemma keeps_bucket_failed env msg : keeps_bucket (failed env msg).
Proof. unfold failed. bucket_steps. Qed.

Lemma try_writes_unless_true (m : M bool) w :
  writes_bucket_only_when (fun b : bool => b) m ->
  (m w).1 <> Ret true -> objects_bucket (m w).2 = objects_bucket w.
Proof. intros Hm Hr. apply Hm. intros [] Ha; [done|done]. Qed.

End engine_facts.

(** ** The store of a materializer at work *)

Section materializer_store.
Import constants Materializer.

Lemma materializes_lift {A} (o : outcome A) : frame materializes (lift o).
Proof. intros w. apply materializes_refl. Qed.

Lemma materializes_ret {A} (a : A) : frame materializes (mret a).
Proof. intros w. apply materializes_refl. Qed.

Lemma materializes_raise {A} e : frame materializes (raise e : M A).
Proof. intros w. apply materializes_refl. Qed.

Lemma materializes_diverge {A} : frame materializes (diverge : M A).
Proof. intros w. apply materializes_refl. Qed.

Lemma materializes_log env msg : frame materializes (log env msg).
Proof. intros w. apply materializes_refl. Qed.

Lemma materializes_local {A} var (v : option A) : frame materializes (local var v).
Proof. intros w. destruct v; apply materializes_refl. Qed.

Lemma materializes_get_objects_bucket : frame materializes get_objects_bucket.
Proof. intros w. apply materializes_refl. Qed.

Lemma materializes_get_used_objects : frame materializes get_used_objects.
Proof. intros w. apply materializes_refl. Qed.

Lemma materializes_set_used_objects u : frame materializes (set_used_objects u).
Proof. intros w. by unfold materializes. Qed.

Lemma materializes_record_used key val : frame materializes (record_used key val).
Proof. intros w. by unfold materializes. Qed.

Lemma materializes_random_choice env seq : frame materializes (random_choice env seq).
Proof. intros w. destruct seq; unfold materializes; simpl; split_and!; try done; lia. Qed.

Lemma materializes_with_random {A} (f : nat -> outcome A) : frame materializes (with_random f).
Proof. intros w. unfold materializes; simpl; split_and!; try done; lia. Qed.

Lemma materializes_call {A} sg npos kw (body : M A) :
  frame materializes body -> frame materializes (call sg npos kw body).
Proof.
  intros Hbody. unfold call. apply materializes_bind; [apply materializes_lift|done].
Qed.

End materializer_store.

Create HintDb store discriminated.
#[local] Hint Resolve materializes_lift materializes_ret materializes_raise
  materializes_diverge materializes_log materializes_local materializes_get_objects_bucket
  materializes_get_used_objects materializes_set_used_objects materializes_record_used
  materializes_random_choice materializes_with_random materializes_call : store.

(** Splits a goal about a sequence of materializer steps into one goal per
    step. *)
Ltac materializer_steps :=
  repeat first
    [ apply materializes_bind; [| intros ?]
    | progress (eauto with store)
    | match goal with
      | |- frame _ (if ?b then _ else _) => destruct b
      | |- frame _ (match ?x with _ => _ end) => destruct x
      end ].

Section materializer_frame.
Import constants Materializer.

Lemma materializes_inputs_loop rec items :
  (forall f c, frame materializes (rec f c)) ->
  forall built, frame materializes (inputs_loop rec items built).
Proof.
  intros Hrec. induction items as [|[input_name input_field] rest IH]; intros built; simpl.
  - apply materializes_ret.
  - apply materializes_bind; [apply Hrec | intros s; apply IH].
Qed.

Lemma materializes_materialize_input_field env self fuel :
  forall operator_info input_field check_deps,
    frame materializes
      (materialize_input_field env self fuel operator_info input_field check_deps).
Proof.
  induction fuel as [|fuel IH]; intros operator_info input_field check_deps;
    [apply materializes_diverge|].
  cbn [materialize_input_field].
  pose proof (fun info => materializes_inputs_loop
                (materialize_input_field env self fuel info)) as Hloop.
  materializer_steps.
Qed.

Lemma materializes_materialize_inputs env self fuel operator_info inputs :
  frame materializes (materialize_inputs env self fuel operator_info inputs).
Proof.
  apply materializes_inputs_loop. intros f c. apply materializes_materialize_input_field.
Qed.

Lemma materializes_query_payload env self fuel name :
  frame materializes (RegularQueryMaterializer.get_payload env self fuel name).
Proof.
  unfold RegularQueryMaterializer.get_payload.
  pose proof (materializes_materialize_inputs env self fuel).
  materializer_steps.
Qed.

Lemma materializes_mutation_payload env self fuel name :
  frame materializes (RegularMutationMaterializer.get_payload env self fuel name).
Proof.
  unfold RegularMutationMaterializer.get_payload.
  pose proof (materializes_materialize_inputs env self fuel).
  materializer_steps.
Qed.

Lemma materializes_base_init npos objects ops input_objects enums :
  frame materializes (Materializer.init npos objects ops input_objects enums).
Proof. unfold Materializer.init. materializer_steps. Qed.

Lemma query_class_materializes env fuel :
  class_frame materializes (FEngine.RegularQueryMaterializer env fuel).
Proof.
  split; simpl; intros.
  - unfold RegularQueryMaterializer.init. pose proof materializes_base_init.
    materializer_steps.
  - apply materializes_query_payload.
Qed.

Lemma mutation_class_materializes env fuel :
  class_frame materializes (FEngine.RegularMutationMaterializer env fuel).
Proof.
  split; simpl; intros.
  - unfold RegularMutationMaterializer.init. pose proof materializes_base_init.
    materializer_steps.
  - apply materializes_mutation_payload.
Qed.

Lemma materializes_quiet w w' : materializes w w' -> sent_upto 0 w w'.
Proof. intros (_ & ? & _). by apply sent_upto_0. Qed.

Lemma class_materializes_quiet cls :
  class_frame materializes cls -> class_frame (sent_upto 0) cls.
Proof.
  intros [Hnew Hpayload]. split; intros.
  - eapply frame_weaken; [apply materializes_quiet | apply Hnew].
  - eapply frame_weaken; [apply materializes_quiet | apply Hpayload].
Qed.

Lemma with_logger_frame R cls :
  class_frame R cls -> class_frame R (Examples.with_logger cls).
Proof. intros [Hnew Hpayload]. split; simpl; intros; [apply Hnew | apply Hpayload]. Qed.

End materializer_frame.

Section engine_requests.
Import constants FEngine.

Lemma process_mutation_result_quiet env self name used result :
  frame (sent_upto 0) (process_mutation_result env self name used result).
Proof. unfold process_mutation_result. quiet_steps. Qed.

Lemma process_query_result_quiet env self name result :
  frame (sent_upto 0) (process_query_result env self name result).
Proof. unfold process_query_result. quiet_steps. Qed.

Lemma interpret_quiet env name process response :
  (forall result, frame (sent_upto 0) (process result)) ->
  frame (sent_upto 0) (interpret env name process response).
Proof. intros Hprocess. unfold interpret. quiet_steps. Qed.

Lemma send_and_interpret_sends env self fuel name payload process :
  (forall result, frame (sent_upto 0) (process result)) ->
  frame (sent_upto (2 + Retrier.max_retries))
    (send_and_interpret env self fuel name payload process).
Proof.
  intros Hprocess. unfold send_and_interpret.
  pose proof (interpret_quiet env name process) as Hinterpret.
  apply (sends_bind 0); [apply sends_log|intros _].
  apply (sends_bind 1); [apply sends_send|intros response].
  apply (sends_bind 0); [apply sends_lift|intros [graphql_response request_response]].
  do 3 (apply (sends_bind 0); [apply sends_lift|intros ?]).
  destruct (negb (truthy graphql_response)); [apply sends_ret|].
  apply (sends_bind 0); [apply sends_lift|intros has_errors].
  destruct has_errors.
  - do 4 (apply (sends_bind 0); [apply sends_lift|intros ?]).
    apply (sends_bind (S Retrier.max_retries) 0);
      [apply (retry_sends env fuel _ _ _ 0)|intros [response' retry_success]].
    destruct (negb retry_success); [apply sends_ret|by apply Hinterpret].
  - apply (sends_le 0); [lia|by apply Hinterpret].
Qed.

Lemma mutation_try_sends env self cls fuel name :
  class_frame (sent_upto 0) cls ->
  frame (sent_upto (2 + Retrier.max_retries)) (mutation_try env self cls fuel name).
Proof.
  intros [Hnew Hpayload]. unfold mutation_try.
  do 2 (apply (sends_bind 0); [apply sends_log|intros _]).
  apply (sends_bind 0); [apply Hnew|intros materializer].
  apply (sends_bind 0); [apply Hpayload|intros [payload used]].
  apply send_and_interpret_sends, process_mutation_result_quiet.
Qed.

Lemma query_try_sends env self cls fuel name :
  class_frame (sent_upto 0) cls ->
  frame (sent_upto (2 + Retrier.max_retries)) (query_try env self cls fuel name).
Proof.
  intros [Hnew Hpayload]. unfold query_try.
  do 2 (apply (sends_bind 0); [apply sends_log|intros _]).
  apply (sends_bind 0); [apply Hnew|intros materializer].
  apply (sends_bind 0); [apply Hpayload|intros [payload used]].
  apply send_and_interpret_sends, process_query_result_quiet.
Qed.

Lemma failed_quiet env msg : frame (sent_upto 0) (failed env msg).
Proof. unfold failed. quiet_steps. Qed.

(** What a sequence over a tuple makes of [interpret]: never a success. *)
Lemma interpret_tuple env name process l w w' :
  interpret env name process (PTuple l) w <> (Ret true, w').
Proof.
  unfold interpret, mbind, M_bind, lift, log, lift. cbn [contains].
  destruct (existsb (is_str "data") l); simpl; [done|].
  by destruct (logger_info env _).
Qed.

(** What a success of [interpret] says about the response. *)
Lemma interpret_success env name process response w w' :
  interpret env name process response w = (Ret true, w') ->
  exists data result,
    getitem response "data" = Ret data /\ getitem data name = Ret result
    /\ result <> PNone /\ check_is_data_empty env data = Ret false.
Proof.
  unfold interpret. intros H.
  apply bind_ret_inv in H as (has_data & ? & [_ ->]%lift_ret_inv & H).
  destruct (negb has_data).
  { apply bind_ret_inv in H as ([] & ? & [_ ->]%lift_ret_inv & H).
    by apply ret_inv in H as [? _]. }
  apply bind_ret_inv in H as (data & ? & [Hdata ->]%lift_ret_inv & H).
  apply bind_ret_inv in H as (result & ? & [Hresult ->]%lift_ret_inv & H).
  destruct (is_None result) eqn:Hnone.
  { apply bind_ret_inv in H as ([] & ? & [_ ->]%lift_ret_inv & H).
    by apply ret_inv in H as [? _]. }
  apply bind_ret_inv in H as ([] & ? & [_ ->]%lift_ret_inv & H).
  apply bind_ret_inv in H as (data' & ? & [Hdata' ->]%lift_ret_inv & H).
  apply bind_ret_inv in H as (empty & ? & [Hempty ->]%lift_ret_inv & H).
  destruct empty.
  { apply bind_ret_inv in H as ([] & ? & [_ ->]%lift_ret_inv & H).
    by apply ret_inv in H as [? _]. }
  exists data, result. split_and!; [done|done| |congruence].
  intros ->. done.
Qed.

Lemma send_and_interpret_success env self fuel name payload process w w' :
  answers_with_pairs env ->
  (forall result, frame (sent_upto 0) (process result)) ->
  send_and_interpret env self fuel name payload process w = (Ret true, w') ->
  sent w' = sent w ++ [payload]
  /\ exists body status_code data result,
       send_graphql_request env (sent w) (url self) payload
       = Ret (PTuple [body; PResponse status_code])
       /\ contains "errors" body = Ret false
       /\ getitem body "data" = Ret data /\ getitem data name = Ret result
       /\ result <> PNone /\ check_is_data_empty env data = Ret false.
Proof.
  intros Hpairs Hprocess H. unfold send_and_interpret in H.
  apply bind_ret_inv in H as ([] & ? & [_ ->]%lift_ret_inv & H).
  apply bind_ret_inv in H as (response & w1 & Hsend & H).
  unfold send in Hsend. injection Hsend as Hanswer <-.
  destruct (Hpairs _ _ _ _ Hanswer) as (body & http & ->).
  apply bind_ret_inv in H as ([graphql_response request_response] & ?
                              & [[= <- <-] ->]%lift_ret_inv & H).
  apply bind_ret_inv in H as (status_code & ? & [Hstatus ->]%lift_ret_inv & H).
  destruct http; try done. injection Hstatus as ->.
  apply bind_ret_inv in H as ([] & ? & [_ ->]%lift_ret_inv & H).
  apply bind_ret_inv in H as ([] & ? & [_ ->]%lift_ret_inv & H).
  destruct (negb (truthy body)); [by apply ret_inv in H as [? _]|].
  apply bind_ret_inv in H as (has_errors & ? & [Herrors ->]%lift_ret_inv & H).
  destruct has_errors.
  - exfalso.
    apply bind_ret_inv in H as (errors & ? & [_ ->]%lift_ret_inv & H).
    apply bind_ret_inv in H as (error & ? & [_ ->]%lift_ret_inv & H).
    apply bind_ret_inv in H as ([] & ? & [_ ->]%lift_ret_inv & H).
    apply bind_ret_inv in H as ([] & ? & [_ ->]%lift_ret_inv & H).
    apply bind_ret_inv in H as ([response' retry_success] & w2 & Hretry & H).
    destruct retry_success; [|by apply ret_inv in H as [? _]].
    apply retry_result in Hretry as [(_ & _ & ?) | (hist & last & _ & _ & Hlast & _)];
      [done|].
    destruct (Hpairs _ _ _ _ Hlast) as (body' & http' & ->).
    by apply interpret_tuple in H.
  - split.
    + pose proof (interpret_quiet env name process body Hprocess
                    (mk_world (objects_bucket w) (used_objects w) (rand_state w)
                       (sent w ++ [payload]))) as Hquiet.
      rewrite H in Hquiet. by apply sent_upto_0 in Hquiet.
    + apply interpret_success in H as (data & result & ? & ? & ? & ?).
      by exists body, status_code, data, result.
Qed.

Lemma answering_env_pairs body : answers_with_pairs (Examples.answering_env body).
Proof. intros hist url payload r [= <-]. eauto. Qed.

Lemma failed_store env msg w : (failed env msg w).2 = w.
Proof.
  unfold failed, mbind, M_bind, log, lift, get_objects_bucket.
  by destruct (logger_info env msg).
Qed.

Lemma failed_result env msg w b ok :
  (failed env msg w).1 = Ret (b, ok) -> b = objects_bucket w.
Proof.
  unfold failed, mbind, M_bind, log, lift, get_objects_bucket.
  destruct (logger_info env msg); simpl; congruence.
Qed.

Lemma run_regular_mutation_bucket env self cls fuel name w :
  class_keeps_bucket cls ->
  let m := run_regular_mutation_with env self cls fuel name w in
  ((forall b, m.1 <> Ret (b, true)) -> objects_bucket m.2 = objects_bucket w)
  /\ (forall b ok, m.1 = Ret (b, ok) -> b = objects_bucket m.2).
Proof.
  intros Hcls m. subst m.
  pose proof (try_writes_unless_true _ w (mutation_try_writes env self cls fuel name Hcls))
    as Htry.
  unfold run_regular_mutation_with.
  destruct (mutation_try env self cls fuel name w) as [[success|e|] w1]; simpl in *.
  - split; [|by intros b ok [= <- _]].
    intros Hnot. apply Htry. intros [= ->]. by apply (Hnot (objects_bucket w1)).
  - specialize (Htry ltac:(done)).
    destruct (is_HardDependencyNotMet e);
      [rewrite failed_store; split; [done|apply failed_result]|].
    destruct (is_BdbQuit e); [done|].
    destruct (is_Exception e); [rewrite failed_store; split; [done|apply failed_result]|done].
  - split; [intros _; by apply Htry|done].
Qed.

Lemma run_regular_query_bucket env self cls fuel name w :
  class_keeps_bucket cls ->
  let q := run_regular_query_with env self cls fuel name w in
  ((forall b, q.1 <> Ret (b, true)) -> objects_bucket q.2 = objects_bucket w)
  /\ (forall b ok, q.1 = Ret (b, ok) -> b = objects_bucket q.2).
Proof.
  intros Hcls q. subst q.
  pose proof (try_writes_unless_true _ w (query_try_writes env self cls fuel name Hcls))
    as Htry.
  unfold run_regular_query_with.
  destruct (query_try env self cls fuel name w) as [[success|e|] w1]; simpl in *.
  - split; [|by intros b ok [= <- _]].
    intros Hnot. apply Htry. intros [= ->]. by apply (Hnot (objects_bucket w1)).
  - specialize (Htry ltac:(done)).
    destruct (is_BdbQuit e); [done|].
    destruct (is_Exception e); [rewrite failed_store; split; [done|apply failed_result]|done].
  - split; [intros _; by apply Htry|done].
Qed.

(** X5. One run of [run_regular_mutation] or [run_regular_query] sends at
    most five requests, whatever the server answers and whatever the outcome
    of the run: the payload, and the four requests that the retrier can send
    from a count of 0 ([max_retries] is 3). Requests are only added to those
    sent before. Stated for a materializer class that sends nothing itself,
    as the two classes of the project do. *)
Theorem run_regular_sends_at_most_five
    (env : Env) (self : FEngine) (cls : materializer_class) (fuel : nat) (name : string)
    (w : world) :
  class_frame (sent_upto 0) cls ->
  (exists more, sent (run_regular_mutation_with env self cls fuel name w).2 = sent w ++ more
                /\ length more <= 5)
  /\ (exists more, sent (run_regular_query_with env self cls fuel name w).2 = sent w ++ more
                   /\ length more <= 5).
Proof.
  intros Hcls. split.
  - pose proof (mutation_try_sends env self cls fuel name Hcls w) as Htry.
    unfold run_regular_mutation_with.
    destruct (mutation_try env self cls fuel name w) as [[success|e|] w1]; [done| |done].
    simpl in Htry.
    destruct (is_HardDependencyNotMet e);
      [apply (sent_upto_trans _ 0 _ _ _ Htry), failed_quiet|].
    destruct (is_BdbQuit e); [done|].
    destruct (is_Exception e); [apply (sent_upto_trans _ 0 _ _ _ Htry), failed_quiet|done].
  - pose proof (query_try_sends env self cls fuel name Hcls w) as Htry.
    unfold run_regular_query_with.
    destruct (query_try env self cls fuel name w) as [[success|e|] w1]; [done| |done].
    simpl in Htry.
    destruct (is_BdbQuit e); [done|].
    destruct (is_Exception e); [apply (sent_upto_trans _ 0 _ _ _ Htry), failed_quiet|done].
Qed.

Lemma run_regular_sends_at_most_five_witness :
  exists more,
    sent (run_regular_query_with Examples.rejecting_bare_env Examples.example_engine
            (Examples.with_logger (RegularQueryMaterializer Examples.quiet_env 10)) 10 "user"
            Examples.empty_world).2
    = [] ++ more /\ length more <= 5.
Proof.
  exact (proj2 (run_regular_sends_at_most_five Examples.rejecting_bare_env
                  Examples.example_engine
                  (Examples.with_logger (RegularQueryMaterializer Examples.quiet_env 10))
                  10 "user" Examples.empty_world
                  (with_logger_frame _ _
                     (class_materializes_quiet _ (query_class_materializes _ _))))).
Defined.

(** X6. The part of [run_regular_mutation] and of [run_regular_query] that
    follows the materializer, from the request to the interpretation of the
    answer, for any payload it is given. With a transport that hands back
    pairs, as the engine unpacks them, these steps end in success only after
    exactly one request, the payload; its answer is a body with an HTTP
    response, the body has no [errors] key, and under [data] it has a value
    for the operation that is not [None] and that [check_is_data_empty] does
    not take for empty. So the retrier never turns an operation whose first
    answer carries errors into a success: what it returns as a success is the
    pair itself, in which the engine finds no [data]. *)
Theorem success_after_one_request
    (env : Env) (self : FEngine) (fuel : nat) (name payload : string)
    (used : gmap string pyval) (w w' : world) :
  answers_with_pairs env ->
  send_and_interpret env self fuel name payload
    (process_mutation_result env self name used) w = (Ret true, w')
  \/ send_and_interpret env self fuel name payload
       (process_query_result env self name) w = (Ret true, w') ->
  sent w' = sent w ++ [payload]
  /\ exists body status_code data result,
       send_graphql_request env (sent w) (url self) payload
       = Ret (PTuple [body; PResponse status_code])
       /\ contains "errors" body = Ret false
       /\ getitem body "data" = Ret data /\ getitem data name = Ret result
       /\ result <> PNone /\ check_is_data_empty env data = Ret false.
Proof.
  intros Hpairs [H|H].
  - apply (send_and_interpret_success env self fuel name payload
             (process_mutation_result env self name used)); [done| |done].
    intros result. apply process_mutation_result_quiet.
  - apply (send_and_interpret_success env self fuel name payload
             (process_query_result env self name)); [done| |done].
    intros result. apply process_query_result_quiet.
Qed.

Lemma success_after_one_request_witness :
  (send_and_interpret
     (Examples.answering_env
        (PDict [("data", PDict [("createUser", PDict [("id", PStr "u1")])])]))
     Examples.example_engine 10 "createUser" "mutation { createUser }"
     (process_mutation_result
        (Examples.answering_env
           (PDict [("data", PDict [("createUser", PDict [("id", PStr "u1")])])]))
        Examples.example_engine "createUser" ∅)
     Examples.empty_world).1
  = Ret true
  /\ exists body status_code data result,
       send_graphql_request
         (Examples.answering_env
            (PDict [("data", PDict [("createUser", PDict [("id", PStr "u1")])])]))
         [] (url Examples.example_engine) "mutation { createUser }"
       = Ret (PTuple [body; PResponse status_code])
       /\ contains "errors" body = Ret false
       /\ getitem body "data" = Ret data /\ getitem data "createUser" = Ret result
       /\ result <> PNone
       /\ check_is_data_empty
            (Examples.answering_env
               (PDict [("data", PDict [("createUser", PDict [("id", PStr "u1")])])])) data
          = Ret false.
Proof.
  split; [vm_compute; reflexivity|].
  apply (success_after_one_request
           (Examples.answering_env
              (PDict [("data", PDict [("createUser", PDict [("id", PStr "u1")])])]))
           Examples.example_engine 10 "createUser" "mutation { createUser }" ∅
           Examples.empty_world
           (mk_world {["User" := [PStr "u1"]]} ∅ 0 ["mutation { createUser }"])).
  - apply answering_env_pairs.
  - left. vm_compute. reflexivity.
Defined.

(** X7. [run_regular_mutation] and [run_regular_query] write the bucket only
    on the way to a success: whenever a run does not return [True] (it
    returns [False], or an exception leaves it), the bucket is as it was on
    entry; and the bucket that a run returns is the bucket of the store, the
    one dict that was handed in. Stated for a materializer class that leaves
    the bucket alone, as the two classes of the project do. *)
Theorem bucket_written_on_success_only
    (env : Env) (self : FEngine) (cls : materializer_class) (fuel : nat) (name : string)
    (w : world) :
  class_keeps_bucket cls ->
  let m := run_regular_mutation_with env self cls fuel name w in
  let q := run_regular_query_with env self cls fuel name w in
  ((forall b, m.1 <> Ret (b, true)) -> objects_bucket m.2 = objects_bucket w)
  /\ (forall b ok, m.1 = Ret (b, ok) -> b = objects_bucket m.2)
  /\ ((forall b, q.1 <> Ret (b, true)) -> objects_bucket q.2 = objects_bucket w)
  /\ (forall b ok, q.1 = Ret (b, ok) -> b = objects_bucket q.2).
Proof.
  intros Hcls m q.
  destruct (run_regular_mutation_bucket env self cls fuel name w Hcls) as [Hm1 Hm2].
  destruct (run_regular_query_bucket env self cls fuel name w Hcls) as [Hq1 Hq2].
  by split_and!.
Qed.

Lemma bucket_written_on_success_only_witness :
  objects_bucket
    (run_regular_mutation_with Examples.unreachable_env Examples.example_engine
       (Examples.with_logger (RegularQueryMaterializer Examples.quiet_env 10)) 10 "createUser"
       (Examples.world_with {["User" := [PStr "u1"]]})).2
  = {["User" := [PStr "u1"]]}.
Proof.
  destruct (bucket_written_on_success_only Examples.unreachable_env Examples.example_engine
              (Examples.with_logger (RegularQueryMaterializer Examples.quiet_env 10)) 10
              "createUser" (Examples.world_with {["User" := [PStr "u1"]]})
              (with_logger_keeps_bucket _ (query_class_keeps_bucket _ _))) as [H _].
  apply H. intros b. vm_compute. discriminate.
Defined.

End engine_requests.

(** ** Input materialization: the identifiers it uses *)

Section used_objects_props.
Import constants Materializer.

Lemma maintains_bind {A B} (I : world -> Prop) (m : M A) (f : A -> M B) :
  maintains I m -> (forall a, maintains I (f a)) -> maintains I (m ≫= f).
Proof.
  intros Hm Hf w Hw. rewrite bind_store. specialize (Hm w Hw).
  destruct (m w).1; [by apply Hf|done..].
Qed.

(** A step that leaves the bucket and [used_objects] as they are keeps
    every property of the two. *)
Lemma maintains_used_in_bucket {A} (m : M A) :
  (forall w, objects_bucket (m w).2 = objects_bucket w
             /\ used_objects (m w).2 = used_objects w) ->
  maintains used_in_bucket m.
Proof.
  intros Hm w Hw T v. destruct (Hm w) as [-> ->]. apply Hw.
Qed.

Lemma maintains_lift {A} (o : outcome A) : maintains used_in_bucket (lift o).
Proof. by apply maintains_used_in_bucket. Qed.

Lemma maintains_ret {A} (a : A) : maintains used_in_bucket (mret a).
Proof. by apply maintains_used_in_bucket. Qed.

Lemma maintains_raise {A} e : maintains used_in_bucket (raise e : M A).
Proof. by apply maintains_used_in_bucket. Qed.

Lemma maintains_diverge {A} : maintains used_in_bucket (diverge : M A).
Proof. by apply maintains_used_in_bucket. Qed.

Lemma maintains_log env msg : maintains used_in_bucket (log env msg).
Proof. by apply maintains_used_in_bucket. Qed.

Lemma maintains_with_random {A} (f : nat -> outcome A) :
  maintains used_in_bucket (with_random f).
Proof. by apply maintains_used_in_bucket. Qed.

Lemma maintains_get_used_objects : maintains used_in_bucket get_used_objects.
Proof. by apply maintains_used_in_bucket. Qed.

Lemma maintains_call {A} sg npos kw (body : M A) :
  maintains used_in_bucket body -> maintains used_in_bucket (call sg npos kw body).
Proof. intros Hbody. unfold call. apply maintains_bind; [apply maintains_lift|done]. Qed.

Lemma bind_get_objects_bucket {A} (f : gmap string (list pyval) -> M A) w :
  (get_objects_bucket ≫= f) w = f (objects_bucket w) w.
Proof. reflexivity. Qed.

(** What [random.choice] returns is an element of the sequence. *)
Lemma random_choice_elem env seq w v w' :
  random_choice env seq w = (Ret v, w') ->
  v ∈ seq
  /\ w' = mk_world (objects_bucket w) (used_objects w) (S (rand_state w)) (sent w).
Proof.
  destruct seq as [|x s]; [done|]. unfold random_choice. intros H.
  assert (nth (randbelow env (rand_state w) (length (x :: s)) `mod` length (x :: s))
            (x :: s) x = v) as <- by congruence.
  split; [|congruence].
  rewrite list_elem_of_In. apply nth_In, Nat.mod_upper_bound. done.
Qed.

(** Choosing an identifier of type [T] from the bucket and recording it as
    used. *)
Lemma choose_and_record env T ids (k : pyval -> string) w :
  used_in_bucket w -> objects_bucket w !! T = Some ids ->
  used_in_bucket
    ((v ← random_choice env ids; record_used T v;; mret (k v)) w).2.
Proof.
  intros Hw Hids. unfold mbind, M_bind.
  destruct (random_choice env ids w) as [[v| |] w1] eqn:Hchoice;
    [|destruct ids; simplify_eq/=; done..].
  apply random_choice_elem in Hchoice as [Hv ->]. simpl.
  intros T' v'. simpl. destruct (decide (T' = T)) as [->|Hne].
  - rewrite lookup_insert_eq. intros [= <-]. eauto.
  - rewrite lookup_insert_ne by done. apply Hw.
Qed.

Lemma maintains_inputs_loop rec items :
  (forall f c, maintains used_in_bucket (rec f c)) ->
  forall built, maintains used_in_bucket (inputs_loop rec items built).
Proof.
  intros Hrec. induction items as [|[input_name input_field] rest IH]; intros built; simpl.
  - apply maintains_ret.
  - apply maintains_bind; [apply Hrec | intros s; apply IH].
Qed.

Lemma maintains_materialize_input_field env self fuel :
  forall operator_info input_field check_deps,
    maintains used_in_bucket
      (materialize_input_field env self fuel operator_info input_field check_deps).
Proof.
  induction fuel as [|fuel IH]; intros operator_info input_field check_deps;
    [apply maintains_diverge|].
  cbn [materialize_input_field].
  pose proof (fun info => maintains_inputs_loop
                (materialize_input_field env self fuel info)) as Hloop.
  destruct (check_deps && bool_decide (is_Some (hardDependsOn operator_info !! name input_field))).
  { intros w Hw. rewrite bind_get_objects_bucket.
    destruct (objects_bucket w !! _) as [ids|] eqn:Hids; [by apply choose_and_record|].
    case_bool_decide; [|done].
    clear Hids. revert w Hw.
    apply maintains_bind; [apply maintains_log|intros _].
    apply maintains_bind; [apply IH|intros s; apply maintains_ret]. }
  destruct (check_deps && bool_decide (is_Some (softDependsOn operator_info !! name input_field))).
  { intros w Hw. rewrite bind_get_objects_bucket.
    case_bool_decide as Hsoft; [done|].
    clear Hsoft. revert w Hw.
    apply maintains_bind; [apply IH|intros s; apply maintains_ret]. }
  repeat first
    [ apply maintains_bind; [| intros ?]
    | apply IH | apply Hloop; intros; apply IH
    | apply maintains_ret | apply maintains_raise | apply maintains_with_random
    | match goal with
      | |- maintains _ (if ?b then _ else _) => destruct b
      | |- maintains _ (match ?x with _ => _ end) => destruct x
      end ].
Qed.

Lemma maintains_materialize_inputs env self fuel operator_info inputs :
  maintains used_in_bucket (materialize_inputs env self fuel operator_info inputs).
Proof.
  apply maintains_inputs_loop. intros f c. apply maintains_materialize_input_field.
Qed.

Lemma query_payload_used_in_bucket env self fuel name w :
  used_in_bucket (RegularQueryMaterializer.get_payload env self fuel name w).2.
Proof.
  unfold RegularQueryMaterializer.get_payload. rewrite bind_store.
  cbn [set_used_objects fst snd].
  match goal with |- used_in_bucket (?m ?w0).2 => cut (maintains used_in_bucket m) end.
  { intros Hm. apply Hm. intros T v. simpl. by rewrite lookup_empty. }
  pose proof (maintains_materialize_inputs env self fuel) as Hinputs.
  repeat first
    [ apply maintains_bind; [| intros ?]
    | apply maintains_call
    | apply Hinputs | apply maintains_lift | apply maintains_get_used_objects
    | apply maintains_ret | apply maintains_raise
    | match goal with
      | |- maintains _ (match ?x with _ => _ end) => destruct x
      end ].
Qed.

Lemma query_payload_result env self fuel name w payload used w' :
  RegularQueryMaterializer.get_payload env self fuel name w = (Ret (payload, used), w') ->
  used = used_objects w'.
Proof.
  unfold RegularQueryMaterializer.get_payload. intros H.
  apply bind_ret_inv in H as ([] & w0 & _ & H).
  destruct (operator_info self !! name) as [query_info|]; [|done].
  apply bind_ret_inv in H as (query_inputs & w1 & _ & H).
  apply bind_ret_inv in H as (query_outputs & w2 & _ & H).
  apply bind_ret_inv in H as (pretty_payload & w3 & _ & H).
  apply bind_ret_inv in H as (u & w4 & [= <- <-] & H).
  by apply ret_inv in H as [[= _ ->] ->].
Qed.

(** X8. The identifiers that [RegularQueryMaterializer.get_payload] hands
    back as used are identifiers of the bucket: every entry of the returned
    [used_objects] is, under its type, in the bucket that was handed in (the
    dict is reset at the start of [get_payload], and only the hard-dependency
    branch of [materialize_input_field] writes it, with a value chosen from
    the bucket). *)
Theorem used_objects_come_from_bucket
    (env : Env) (self : RegularMaterializer) (fuel : nat) (name : string) (w : world)
    (payload : string) (used : gmap string pyval) (w' : world) :
  RegularQueryMaterializer.get_payload env self fuel name w = (Ret (payload, used), w') ->
  forall T v, used !! T = Some v ->
    exists ids, objects_bucket w !! T = Some ids /\ v ∈ ids.
Proof.
  intros H T v Hv.
  pose proof (query_payload_used_in_bucket env self fuel name w) as Hused.
  pose proof (keeps_bucket_query_payload env self fuel name _ _ _ H) as Hbucket.
  apply query_payload_result in H as Hresult. rewrite H in Hused. simpl in Hused.
  rewrite <- Hbucket. apply Hused. by rewrite <- Hresult.
Qed.

Lemma used_objects_come_from_bucket_witness :
  exists ids,
    ({["User" := [PStr "u0"; PStr "u1"]]} : gmap string (list pyval)) !! "User" = Some ids
    /\ PStr "u0" ∈ ids.
Proof.
  pose (self := mk_materializer Examples.example_objects Examples.example_mutations ∅ ∅).
  pose (w := Examples.world_with {["User" := [PStr "u0"; PStr "u1"]]}).
  pose (r := RegularQueryMaterializer.get_payload Examples.quiet_env self 10 "deleteUser" w).
  apply (used_objects_come_from_bucket Examples.quiet_env self 10 "deleteUser" w
           (match r.1 with Ret (p, _) => p | _ => "" end) {["User" := PStr "u0"]} r.2).
  - vm_compute. reflexivity.
  - vm_compute. reflexivity.
Defined.

(** X9. A hard dependency that the bucket can meet: when the field is
    hard-dependent on a type that has identifiers in the bucket,
    [materialize_input_field] returns one of those identifiers between double
    quotes, records it in [used_objects] under the type, and draws once from
    the random generator; the bucket and the requests sent stay as they
    are. The kind of the field plays no part. *)
Theorem hard_dependency_resolved
    (env : Env) (self : RegularMaterializer) (fuel : nat) (operator_info : OperationDescriptor)
    (input_field : TypeDescriptor) (T : string) (ids : list pyval) (w : world) :
  hardDependsOn operator_info !! name input_field = Some T ->
  objects_bucket w !! T = Some ids -> ids <> [] ->
  exists v,
    v ∈ ids
    /\ materialize_input_field env self (S fuel) operator_info input_field true w
       = (Ret (dquote +:+ str env v +:+ dquote),
          mk_world (objects_bucket w) (<[T := v]> (used_objects w)) (S (rand_state w))
            (sent w)).
Proof.
  intros Hhard Hids Hne. simpl. rewrite Hhard. simpl.
  rewrite bind_get_objects_bucket, Hids.
  unfold mbind at 1, M_bind at 1.
  destruct (random_choice env ids w) as [[v| |] w1] eqn:Hchoice;
    [|destruct ids; simplify_eq/=; done..].
  apply random_choice_elem in Hchoice as [Hv ->].
  exists v. split; [done|]. reflexivity.
Qed.

Lemma hard_dependency_resolved_witness :
  exists v,
    v ∈ [PStr "u0"; PStr "u1"]
    /\ materialize_input_field Examples.quiet_env Examples.example_materializer 10
         Examples.deleteUser Examples.id_field true
         (Examples.world_with {["User" := [PStr "u0"; PStr "u1"]]})
       = (Ret (dquote +:+ str Examples.quiet_env v +:+ dquote),
          mk_world {["User" := [PStr "u0"; PStr "u1"]]} (<["User" := v]> ∅) 1 []).
Proof.
  exact (hard_dependency_resolved Examples.quiet_env Examples.example_materializer 9
           Examples.deleteUser Examples.id_field "User" [PStr "u0"; PStr "u1"]
           (Examples.world_with {["User" := [PStr "u0"; PStr "u1"]]})
           eq_refl eq_refl ltac:(discriminate)).
Defined.

(** X10. [RegularMutationMaterializer.get_payload] never returns a payload:
    for a name that is no mutation it raises [KeyError]; for every mutation
    it raises [TypeError], because it passes the keyword [max_depth] to
    [materialize_inputs], which has no such parameter. In both cases
    [used_objects] has been reset and nothing else of the store has
    changed. *)
Theorem mutation_payload_never_returns
    (env : Env) (self : RegularMaterializer) (fuel : nat) (mutation_name : string)
    (w : world) :
  RegularMutationMaterializer.get_payload env self fuel mutation_name w
  = (Raise (match operator_info self !! mutation_name with
            | Some _ => TypeError "got an unexpected keyword argument"
            | None => KeyError mutation_name
            end),
     mk_world (objects_bucket w) ∅ (rand_state w) (sent w)).
Proof.
  unfold RegularMutationMaterializer.get_payload.
  unfold mbind at 1, M_bind at 1. cbn [set_used_objects].
  destruct (operator_info self !! mutation_name) as [mutation_info|]; [|done].
  unfold mbind at 1, M_bind at 1.
  assert (check_call materialize_inputs_signature 3 ["max_depth"]
          = Raise (TypeError "got an unexpected keyword argument")) as Hcall
    by (vm_compute; reflexivity).
  unfold call. unfold mbind at 1, M_bind at 1. unfold lift at 1. by rewrite Hcall.
Qed.

(** X11. Materializing the inputs of an operation is local to the
    materializer: whatever the schema, the bucket and the outcome,
    [materialize_input_field], [materialize_inputs] and the [get_payload] of
    a query leave the bucket as it is, send no request, and only advance the
    random generator. *)
Theorem materialization_is_local
    (env : Env) (self : RegularMaterializer) (fuel : nat) (operator_info : OperationDescriptor)
    (input_field : TypeDescriptor) (check_deps : bool)
    (inputs : list (string * TypeDescriptor)) (name : string) (w : world) :
  let local_to w' :=
    objects_bucket w' = objects_bucket w /\ sent w' = sent w
    /\ rand_state w <= rand_state w' in
  local_to (materialize_input_field env self fuel operator_info input_field check_deps w).2
  /\ local_to (materialize_inputs env self fuel operator_info inputs w).2
  /\ local_to (RegularQueryMaterializer.get_payload env self fuel name w).2.
Proof.
  intros local_to. split_and!.
  - apply materializes_materialize_input_field.
  - apply materializes_materialize_inputs.
  - apply materializes_query_payload.
Qed.

Lemma inputs_loop_built rec items : forall built w,
  inputs_loop rec items built w
  = (s ← inputs_loop rec items ""; mret (built +:+ s)) w.
Proof.
  induction items as [|[input_name input_field] rest IH]; intros built w; simpl.
  - unfold mbind, M_bind, mret, M_ret. by rewrite append_nil_r.
  - unfold mbind, M_bind.
    destruct (rec input_field true w) as [[s| |] w1]; [|done..].
    rewrite !IH. unfold mbind, M_bind.
    destruct (inputs_loop rec rest "" w1) as [[s'| |] w2]; [|done..].
    unfold mret, M_ret. by rewrite append_nil_l, !append_assoc.
Qed.

Lemma inputs_loop_app rec l1 l2 : forall built w,
  inputs_loop rec (l1 ++ l2) built w
  = (s ← inputs_loop rec l1 built; inputs_loop rec l2 s) w.
Proof.
  induction l1 as [|[input_name input_field] l1 IH]; intros built w; simpl; [done|].
  unfold mbind, M_bind.
  destruct (rec input_field true w) as [[s| |] w1]; [|done..].
  rewrite IH. done.
Qed.

(** X12. The text of the inputs is put together input by input, in the order
    of the dict: one input gives [name: value,] with the value that
    [materialize_input_field] returns for it (dependencies checked), and the
    inputs of a dict that is split in two give the text of the first part
    followed by the text of the second, the store going through the first
    part and then the second; when either part raises, so does the whole. *)
Theorem materialize_inputs_in_order
    (env : Env) (self : RegularMaterializer) (fuel : nat) (operator_info : OperationDescriptor)
    (input_name : string) (input_field : TypeDescriptor)
    (l1 l2 : list (string * TypeDescriptor)) (w : world) :
  materialize_inputs env self fuel operator_info [] w = (Ret "", w)
  /\ materialize_inputs env self fuel operator_info [(input_name, input_field)] w
     = (s ← materialize_input_field env self fuel operator_info input_field true;
        mret (input_name +:+ ": " +:+ s +:+ ",")) w
  /\ materialize_inputs env self fuel operator_info (l1 ++ l2) w
     = (s1 ← materialize_inputs env self fuel operator_info l1;
        s2 ← materialize_inputs env self fuel operator_info l2;
        mret (s1 +:+ s2)) w.
Proof.
  split_and!.
  - done.
  - unfold materialize_inputs. simpl. unfold mbind, M_bind.
    destruct (materialize_input_field env self fuel operator_info input_field true w)
      as [[s| |] w1]; [|done..].
    unfold mret, M_ret. by rewrite append_nil_l, !append_assoc.
  - unfold materialize_inputs. rewrite inputs_loop_app.
    unfold mbind, M_bind.
    destruct (inputs_loop _ l1 "" w) as [[s1| |] w1]; [|done..].
    rewrite inputs_loop_built. done.
Qed.

End used_objects_props.

(** ** Input materialization comes back on inputs of bounded nesting *)

Section input_returns.
Import constants Materializer SchemaBounds.

Lemma returns_raise {A} e : returns (raise e : M A).
Proof. by intros w. Qed.

Lemma returns_get_objects_bucket : returns get_objects_bucket.
Proof. by intros w. Qed.

Lemma returns_random_choice env seq : returns (random_choice env seq).
Proof. intros w. by destruct seq. Qed.

Lemma returns_record_used key val : returns (record_used key val).
Proof. by intros w. Qed.

Lemma returns_local {A} var (v : option A) : returns (local var v).
Proof. intros w. by destruct v. Qed.

Lemma returns_with_random {A} (f : nat -> outcome A) :
  (forall seed, f seed <> Diverge) -> returns (with_random f).
Proof. intros Hf w. apply Hf. Qed.

Lemma returns_inputs_loop rec items :
  Forall (fun item => forall c, returns (rec item.2 c)) items ->
  forall built, returns (inputs_loop rec items built).
Proof.
  induction 1 as [|[input_name input_field] rest Hrec _ IH]; intros built; simpl.
  - apply returns_ret.
  - apply returns_bind; [apply Hrec | intros s; apply IH].
Qed.

Lemma input_field_returns env self operator_info :
  external_calls_return env ->
  forall n input_field, input_nests_within self n input_field = true ->
    forall fuel (check_deps : bool),
      (if check_deps then 2 * n else 2 * n - 1) <= fuel ->
      returns (materialize_input_field env self fuel operator_info input_field check_deps).
Proof.
  unfold external_calls_return. intros (Hscalar & _ & Hlog & _).
  induction n as [|n IH]; intros input_field Hnests; [done|].
  assert (forall fuel, 2 * S n - 1 <= fuel ->
            returns (materialize_input_field env self fuel operator_info input_field false))
    as Hkind.
  { intros [|fuel] Hfuel; [lia|]. cbn [materialize_input_field andb].
    cbn [input_nests_within] in Hnests.
    destruct (bool_decide (kind input_field = "NON_NULL")).
    { destruct (ofType input_field) as [oftype|]; [|apply returns_raise].
      apply returns_bind; [|intros s; apply returns_ret].
      apply IH; [done|lia]. }
    destruct (bool_decide (kind input_field = "LIST")).
    { destruct (ofType input_field) as [oftype|]; [|apply returns_raise].
      apply returns_bind; [|intros s; apply returns_ret].
      apply IH; [done|lia]. }
    cbn [orb] in Hnests.
    destruct (bool_decide (kind input_field = "INPUT_OBJECT")).
    { destruct (input_objects self !! type input_field) as [input_object|];
        [|apply returns_raise].
      apply returns_bind; [|intros s; apply returns_ret].
      apply returns_inputs_loop.
      apply Forall_forall. intros item Hitem c.
      apply IH; [|destruct c; lia].
      rewrite forallb_forall in Hnests. by apply Hnests, list_elem_of_In. }
    destruct (bool_decide (kind input_field = "SCALAR")); [|apply returns_ret].
    apply returns_bind; [|intros s; apply returns_ret].
    apply returns_with_random, Hscalar. }
  intros fuel [] Hfuel; [|by apply Hkind].
  destruct fuel as [|fuel]; [lia|].
  assert (returns (materialize_input_field env self fuel operator_info input_field false))
    as Hfallback by (apply Hkind; lia).
  pose proof (Hkind (S fuel) ltac:(lia)) as Hsame.
  cbn [materialize_input_field andb] in Hsame |- *.
  destruct (bool_decide (is_Some (hardDependsOn operator_info !! name input_field))).
  { apply returns_bind; [apply returns_get_objects_bucket|intros objects_bucket].
    destruct (objects_bucket !! _) as [ids|].
    - apply returns_bind; [apply returns_random_choice|intros v].
      apply returns_bind; [apply returns_record_used|intros _; apply returns_ret].
    - match goal with |- returns (if ?b then _ else _) => destruct b end;
        [|apply returns_raise].
      apply returns_bind; [apply returns_lift, Hlog|intros _].
      apply returns_bind; [apply Hfallback|intros s; apply returns_ret]. }
  destruct (bool_decide (is_Some (softDependsOn operator_info !! name input_field)));
    [|exact Hsame].
  apply returns_bind; [apply returns_get_objects_bucket|intros objects_bucket].
  match goal with |- returns (if ?b then _ else _) => destruct b end.
  - apply returns_bind; [apply returns_local|intros key].
    destruct (objects_bucket !! key) as [ids|]; [|apply returns_raise].
    apply returns_bind; [apply returns_random_choice|intros v].
    apply returns_bind; [apply returns_local|intros key'].
    apply returns_bind; [apply returns_record_used|intros _; apply returns_ret].
  - apply returns_bind; [apply Hfallback|intros s; apply returns_ret].
Qed.

(** X13. Input materialization comes back on inputs of bounded nesting: when
    every input of the operation nests less than [n] levels deep (wrappers
    and fields of input objects counted), and the calls into other modules
    come back, [materialize_inputs] returns or raises within [2 * n] nested
    calls of [materialize_input_field]: two per level, one of them for the
    fallback of an unresolved dependency, which materializes the same field
    again with dependency checking off. *)
Theorem materialize_inputs_returns
    (env : Env) (self : RegularMaterializer) (operator_info : OperationDescriptor)
    (n : nat) (inputs : list (string * TypeDescriptor)) (fuel : nat) (w : world) :
  external_calls_return env ->
  forallb (fun item => input_nests_within self n item.2) inputs = true ->
  2 * n <= fuel ->
  (materialize_inputs env self fuel operator_info inputs w).1 <> Diverge.
Proof.
  intros Henv Hnests Hfuel. apply returns_inputs_loop.
  apply Forall_forall. intros item Hitem c.
  apply (input_field_returns env self operator_info Henv n); [|destruct c; lia].
  rewrite forallb_forall in Hnests. by apply Hnests, list_elem_of_In.
Qed.

Lemma quiet_env_returns : external_calls_return Examples.quiet_env.
Proof.
  unfold external_calls_return. split_and!; try done.
  intros name ops. simpl. by destruct (ops !! name).
Qed.

Lemma materialize_inputs_returns_witness :
  forallb (fun item => input_nests_within Examples.example_materializer 2 item.2)
    (inputs Examples.createUser) = true
  /\ (materialize_inputs Examples.quiet_env Examples.example_materializer 4
        Examples.createUser (inputs Examples.createUser) Examples.empty_world).1
     <> Diverge.
Proof.
  split; [reflexivity|].
  apply (materialize_inputs_returns Examples.quiet_env Examples.example_materializer
           Examples.createUser 2 (inputs Examples.createUser) 4 Examples.empty_world).
  - apply quiet_env_returns.
  - reflexivity.
  - lia.
Defined.

End input_returns.

(** ** The constructors of the materializers *)

Section constructors.
Import Materializer.

(** X14. The constructors, called with positional arguments only.
    [RegularMaterializer] and [RegularQueryMaterializer] are constructed by
    five arguments and by no other number: with five (the last one a logger
    whose [getChild] returns) they reset [used_objects] and keep the four
    dicts as given, otherwise they raise [TypeError] and leave the store as it
    is. [RegularMutationMaterializer] is constructed by no number of
    arguments: it takes four, and hands the base class four where that takes
    five. *)
Theorem constructors_by_arity
    (npos : nat) (objects : gmap string ObjectType) (ops : gmap string OperationDescriptor)
    (input_objects : gmap string InputObjectType) (enums : gmap string (list string))
    (w : world) :
  let made := (Ret (mk_materializer objects ops input_objects enums),
               mk_world (objects_bucket w) ∅ (rand_state w) (sent w)) in
  let refused r := exists msg, r = (Raise (TypeError msg), w) in
  (if bool_decide (npos = 5) then
     Materializer.init npos objects ops input_objects enums w = made
     /\ RegularQueryMaterializer.init npos objects ops input_objects enums w = made
   else
     refused (Materializer.init npos objects ops input_objects enums w)
     /\ refused (RegularQueryMaterializer.init npos objects ops input_objects enums w))
  /\ refused (RegularMutationMaterializer.init npos objects ops input_objects enums w).
Proof.
  intros made refused.
  destruct npos as [|[|[|[|[|[|npos]]]]]]; cbn [bool_decide];
    (split; [split; first [reflexivity | eexists; reflexivity] | eexists; reflexivity]).
Qed.

End constructors.

(** ** Output materialization: errors, closed schemas and flat objects *)

Section output_facts.
Import constants Materializer OutputBound SchemaBounds.

Lemma output_fields_loop_raises (P : exn -> Prop) rec fs :
  (forall t used incl e, rec t used incl = Raise e -> P e) ->
  forall built used e, output_fields_loop rec fs built used = Raise e -> P e.
Proof.
  intros Hrec. induction fs as [|field rest IH]; intros built used e; simpl; [done|].
  destruct (rec field used true) as [[field_output used']| |] eqn:Hfield; simpl.
  - apply IH.
  - intros [= <-]. by apply Hrec in Hfield.
  - done.
Qed.

(** What [materialize_output] can raise: [KeyError] for an object type that
    the schema does not have, [TypeError] for a wrapper without [ofType]. *)
Lemma materialize_output_raises self fuel : forall t used incl e,
  materialize_output self fuel t used incl = Raise e -> schema_error self e.
Proof.
  induction fuel as [|fuel IH]; intros t used incl e; [done|].
  cbn [materialize_output].
  destruct (bool_decide (kind t = "OBJECT")).
  { unfold materialize_output_object_fields_with.
    destruct (bool_decide (MAX_OBJECT_CYCLES <= count (type t) used)); simpl.
    { intros; repeat case_match; by simplify_eq/=. }
    destruct (objects self !! type t) as [info|] eqn:Hinfo; simpl;
      [|intros [= <-]; left; eauto].
    destruct (output_fields_loop _ _ _ _) as [[s used']| |] eqn:Hloop; simpl.
    - intros; repeat case_match; by simplify_eq/=.
    - intros [= <-]. revert Hloop. apply (output_fields_loop_raises (schema_error self)).
      apply IH.
    - done. }
  destruct (bool_decide (kind t = "NON_NULL") || bool_decide (kind t = "LIST"));
    [|by destruct incl].
  destruct (ofType t) as [oftype|]; [|intros [= <-]; by right].
  destruct (bool_decide (kind (get_base_oftype oftype) = "SCALAR")); [done|].
  destruct (materialize_output self fuel _ used false) as [[s used']| |] eqn:Hbase; simpl.
  - intros; repeat case_match; by simplify_eq/=.
  - intros [= <-]. by apply IH in Hbase.
  - done.
Qed.

Lemma output_fields_loop_no_raise rec fs :
  Forall (fun f => forall used incl e, rec f used incl <> Raise e) fs ->
  forall built used e, output_fields_loop rec fs built used <> Raise e.
Proof.
  induction 1 as [|field rest Hfield _ IH]; intros built used e; simpl; [done|].
  destruct (rec field used true) as [[field_output used']| |] eqn:Hrec; simpl.
  - apply IH.
  - by apply Hfield in Hrec.
  - done.
Qed.

Lemma readable_base self oftype :
  bool_decide (kind (get_base_oftype oftype) = "SCALAR") = false ->
  (if bool_decide (kind (get_base_oftype oftype) = "OBJECT") then
     bool_decide (is_Some (objects self !! type (get_base_oftype oftype)))
   else negb (bool_decide (kind (get_base_oftype oftype) = "NON_NULL")
              || bool_decide (kind (get_base_oftype oftype) = "LIST"))) = true ->
  readable self (get_base_oftype oftype) = true.
Proof.
  intros _ H. unfold readable.
  destruct (bool_decide (kind (get_base_oftype oftype) = "OBJECT")); [done|].
  by destruct (bool_decide _ || bool_decide _).
Qed.

(** On a closed schema, a readable descriptor is materialized without an
    error. *)
Lemma closed_no_raise self fuel :
  closed self ->
  forall t used incl e,
    readable self t = true -> materialize_output self fuel t used incl <> Raise e.
Proof.
  intros Hclosed. induction fuel as [|fuel IH]; intros t used incl e Hread; [done|].
  cbn [materialize_output]. unfold readable in Hread.
  destruct (bool_decide (kind t = "OBJECT")).
  { unfold materialize_output_object_fields_with.
    destruct (bool_decide (MAX_OBJECT_CYCLES <= count (type t) used)); simpl.
    { intros; repeat case_match; by simplify_eq/=. }
    apply bool_decide_eq_true_1 in Hread as [info Hinfo]. rewrite Hinfo.
    destruct (output_fields_loop _ _ _ _) as [[s used']| |] eqn:Hloop; simpl.
    - intros; repeat case_match; by simplify_eq/=.
    - exfalso. revert Hloop. apply output_fields_loop_no_raise.
      apply Forall_forall. intros f Hf used' incl' e'. apply IH.
      by apply (Hclosed (type t) info).
    - done. }
  destruct (bool_decide (kind t = "NON_NULL") || bool_decide (kind t = "LIST"));
    [|by destruct incl].
  destruct (ofType t) as [oftype|]; [|done].
  destruct (bool_decide (kind (get_base_oftype oftype) = "SCALAR")) eqn:Hscalar; [done|].
  destruct (materialize_output self fuel _ used false) as [[s used']| |] eqn:Hbase; simpl.
  - intros; repeat case_match; by simplify_eq/=.
  - exfalso. revert Hbase. apply IH. by apply readable_base.
  - done.
Qed.

(** X15. [materialize_output] raises only for a schema that is not closed:
    what it raises is [KeyError] for an object type that [objects] does not
    have, or [TypeError] for a NON_NULL or LIST descriptor whose [ofType] is
    [None]; nothing else. *)
Theorem materialize_output_errors
    (self : RegularMaterializer) (fuel : nat) (output : TypeDescriptor)
    (used : list string) (include_name : bool) (e : exn) :
  materialize_output self fuel output used include_name = Raise e ->
  (exists o, e = KeyError o /\ objects self !! o = None)
  \/ e = TypeError "'NoneType' object is not subscriptable".
Proof. apply materialize_output_raises. Qed.

Lemma materialize_output_errors_witness :
  (exists o, KeyError "Missing" = KeyError o
             /\ objects Examples.example_materializer !! o = None)
  \/ KeyError "Missing" = TypeError "'NoneType' object is not subscriptable".
Proof.
  apply (materialize_output_errors Examples.example_materializer 5
           (Examples.non_null "owner" (Examples.object "owner" "Missing")) [] true).
  vm_compute. reflexivity.
Defined.

Lemma closed_by_check self :
  forallb (fun entry => forallb (readable self) (fields entry.2)) (map_to_list (objects self))
  = true ->
  closed self.
Proof.
  intros Hcheck o info f Ho Hf. rewrite forallb_forall in Hcheck.
  specialize (Hcheck (o, info)). rewrite <- list_elem_of_In, elem_of_map_to_list in Hcheck.
  specialize (Hcheck Ho). simpl in Hcheck. rewrite forallb_forall in Hcheck.
  by apply Hcheck, list_elem_of_In.
Qed.

(** X16. On a closed schema, output materialization is total: when every
    field of every object type is readable (object types are types of the
    schema, wrappers have an [ofType]) and so is the output descriptor,
    [materialize_output] returns a selection text, and raises nothing, within
    [output_fuel] nested calls, from every state of [used_objects]. The bound
    on the calls rests on [get_base_oftype] unwrapping down to a descriptor
    without [ofType]. *)
Theorem materialize_output_total
    (self : RegularMaterializer) (fuel : nat) (output : TypeDescriptor)
    (used : list string) (include_name : bool) :
  closed self -> readable self output = true -> output_fuel self <= fuel ->
  exists s used', materialize_output self fuel output used include_name = Ret (s, used').
Proof.
  intros Hclosed Hread Hfuel.
  destruct (materialize_output self fuel output used include_name) as [[s used']|e|] eqn:Hout.
  - by exists s, used'.
  - by apply closed_no_raise in Hout.
  - exfalso. revert Hout. destruct (materialize_output_fuel self fuel) as [Hreturns _].
    apply Hreturns. pose proof (budget_le self used). unfold output_fuel in Hfuel. lia.
Qed.

Lemma materialize_output_total_witness :
  exists s used',
    materialize_output Examples.example_materializer 18 (Examples.object "a" "A") [] false
    = Ret (s, used').
Proof.
  apply materialize_output_total.
  - apply closed_by_check. vm_compute. reflexivity.
  - vm_compute. reflexivity.
  - vm_compute. lia.
Defined.

Lemma flat_field_output self fuel t used :
  flat t = true ->
  materialize_output self (S fuel) t used true = Ret (name t +:+ ", ", used).
Proof.
  unfold flat. intros Hflat. cbn [materialize_output].
  destruct (bool_decide (kind t = "OBJECT")); [done|].
  destruct (bool_decide (kind t = "NON_NULL") || bool_decide (kind t = "LIST")); [|done].
  destruct (ofType t) as [oftype|]; [|done].
  simpl in Hflat. by rewrite Hflat.
Qed.

Lemma flat_fields_loop self fuel fs :
  forallb flat fs = true ->
  forall built used,
    output_fields_loop (materialize_output self (S fuel)) fs built used
    = Ret (built +:+ listing fs, used).
Proof.
  induction fs as [|f rest IH]; intros Hflat built used; cbn [output_fields_loop listing].
  - by rewrite append_nil_r.
  - apply andb_prop in Hflat as [Hf Hrest]. rewrite flat_field_output by done.
    cbn [mbind outcome_bind].
    rewrite (bool_decide_eq_false_2 _ (render_not_empty (Selection.Leaf (name f)))).
    rewrite (bool_decide_eq_false_2 _ (render_not_braces (Selection.Leaf (name f)))).
    simpl. rewrite IH by done. by rewrite !append_assoc.
Qed.

(** X17. An object type whose fields are all flat (scalars, other kinds
    that are not objects, and wrappers around a scalar) is selected as the
    block of its field names, in the order of the schema, each followed by a
    comma and a space, with the name of the output in front when it is asked
    for; the object type is appended to [used_objects]. This needs that the
    type has not been used [MAX_OBJECT_CYCLES] times before. *)
Theorem flat_object_selection
    (self : RegularMaterializer) (fuel : nat) (output : TypeDescriptor) (info : ObjectType)
    (used : list string) (include_name : bool) :
  kind output = "OBJECT" -> objects self !! type output = Some info ->
  count (type output) used < MAX_OBJECT_CYCLES ->
  forallb flat (fields info) = true -> fields info <> [] ->
  materialize_output self (S (S fuel)) output used include_name
  = Ret ((if include_name then name output else "") +:+ " {" +:+ listing (fields info)
         +:+ "},",
         used ++ [type output]).
Proof.
  intros Hkind Hinfo Hcount Hflat Hfields.
  remember (S fuel) as fuel' eqn:Hfuel. cbn [materialize_output]. subst fuel'.
  rewrite (bool_decide_eq_true_2 _ Hkind). unfold materialize_output_object_fields_with.
  rewrite bool_decide_eq_false_2 by lia. rewrite Hinfo.
  rewrite flat_fields_loop by done. cbn [mbind outcome_bind].
  rewrite append_nil_l.
  rewrite bool_decide_eq_false_2; [by destruct include_name|].
  destruct (fields info) as [|f rest]; [done|]. simpl. by destruct (name f).
Qed.

Lemma flat_object_selection_witness :
  materialize_output Examples.example_materializer 2 (Examples.object "user" "User") [] true
  = Ret ("user {id, name, },", ["User"]).
Proof.
  apply (flat_object_selection Examples.example_materializer 0 (Examples.object "user" "User")
           Examples.User [] true).
  - reflexivity.
  - reflexivity.
  - vm_compute. lia.
  - reflexivity.
  - discriminate.
Defined.

(** X18. A NON_NULL or LIST field around a type that is neither a scalar
    nor an object (an enum, an interface, a union) is left out of the
    selection, with or without its name asked for, although the unwrapped
    descriptor itself is selected by its bare name when it is a field of its
    own. *)
Theorem wrapped_other_kind_omitted
    (self : RegularMaterializer) (fuel : nat) (output oftype : TypeDescriptor)
    (used : list string) (include_name : bool) :
  kind output = "NON_NULL" \/ kind output = "LIST" ->
  ofType output = Some oftype ->
  kind (get_base_oftype oftype) ∉ ["SCALAR"; "OBJECT"; "NON_NULL"; "LIST"] ->
  materialize_output self (S (S fuel)) output used include_name = Ret ("", used)
  /\ materialize_output self (S fuel) (get_base_oftype oftype) used true
     = Ret (name (get_base_oftype oftype) +:+ ", ", used).
Proof.
  intros Hkind Hof Hbase.
  assert (materialize_output self (S fuel) (get_base_oftype oftype) used false
          = Ret ("", used)
          /\ materialize_output self (S fuel) (get_base_oftype oftype) used true
             = Ret (name (get_base_oftype oftype) +:+ ", ", used)) as [Hfalse Htrue].
  { cbn [materialize_output].
    rewrite !bool_decide_eq_false_2 by (intros Heq; apply Hbase; rewrite Heq; repeat constructor).
    done. }
  split; [|done].
  remember (S fuel) as fuel' eqn:Hfuel. cbn [materialize_output]. subst fuel'. rewrite Hof.
  rewrite (bool_decide_eq_false_2 (kind output = "OBJECT")) by (by destruct Hkind as [->| ->]).
  replace (bool_decide (kind output = "NON_NULL") || bool_decide (kind output = "LIST"))
    with true by (destruct Hkind as [->| ->]; done).
  rewrite (bool_decide_eq_false_2 (kind (get_base_oftype oftype) = "SCALAR"))
    by (intros Heq; apply Hbase; rewrite Heq; repeat constructor).
  rewrite Hfalse. done.
Qed.

Lemma wrapped_other_kind_omitted_witness :
  materialize_output Examples.example_materializer 2
    (Examples.non_null "status" (mk_type "ENUM" "status" "Status" None)) [] true
  = Ret ("", [])
  /\ materialize_output Examples.example_materializer 1
       (mk_type "ENUM" "status" "Status" None) [] true
     = Ret ("status, ", []).
Proof.
  apply (wrapped_other_kind_omitted Examples.example_materializer 0
           (Examples.non_null "status" (mk_type "ENUM" "status" "Status" None))
           (mk_type "ENUM" "status" "Status" None) [] true).
  - by left.
  - reflexivity.
  - apply (bool_decide_unpack _). vm_compute. exact I.
Defined.

Lemma composite_flat (fs : list TypeDescriptor) :
  Forall (fun f => kind f = "INTERFACE" \/ kind f = "UNION") fs -> forallb flat fs = true.
Proof.
  induction 1 as [|f fs Hf _ IH]; [done|]. cbn [forallb]. rewrite IH, andb_true_r.
  unfold flat. by destruct Hf as [-> | ->].
Qed.

(** C9. An object type whose fields are all of kind INTERFACE or UNION is
    not left out: the last branch of [materialize_output] writes the bare
    name of every field that is neither an object nor a wrapper, so the text
    returned is the block of these names. It is not the empty string, and no
    name in it is a scalar selection: each is the name of an interface or of
    a union, written without a selection of its own. So the text returned is
    neither the empty string nor a text with at least one scalar
    selection. *)
Theorem materialize_output_selects_composite_by_name
    (self : RegularMaterializer) (fuel : nat) (output : TypeDescriptor) (info : ObjectType)
    (used : list string) (include_name : bool) :
  kind output = "OBJECT" -> objects self !! type output = Some info ->
  count (type output) used < MAX_OBJECT_CYCLES ->
  fields info <> [] ->
  Forall (fun f => kind f = "INTERFACE" \/ kind f = "UNION") (fields info) ->
  let text := (if include_name then name output else "") +:+ " {" +:+ listing (fields info)
              +:+ "}," in
  materialize_output self (S (S fuel)) output used include_name
  = Ret (text, used ++ [type output])
  /\ text <> ""
  /\ Forall (fun f => kind f <> "SCALAR") (fields info).
Proof.
  intros Hkind Hinfo Hcount Hfields Hcomposite text. subst text. split_and!.
  - remember (S fuel) as fuel' eqn:Hfuel. cbn [materialize_output]. subst fuel'.
    rewrite (bool_decide_eq_true_2 _ Hkind). unfold materialize_output_object_fields_with.
    rewrite bool_decide_eq_false_2 by lia. rewrite Hinfo.
    rewrite flat_fields_loop by (by apply composite_flat). cbn [mbind outcome_bind].
    rewrite append_nil_l.
    rewrite bool_decide_eq_false_2; [by destruct include_name|].
    destruct (fields info) as [|f rest]; [done|]. simpl. by destruct (name f).
  - destruct include_name; [|done]. by destruct (name output).
  - eapply Forall_impl; [exact Hcomposite|]. by intros f [-> | ->].
Qed.

Lemma materialize_output_selects_composite_by_name_witness :
  materialize_output Examples.lookup_materializer 2 (Examples.object "lookup" "Lookup") []
    false
  = Ret (" {result, node, },", ["Lookup"])
  /\ " {result, node, }," <> ""
  /\ Forall (fun f => kind f <> "SCALAR") (fields Examples.Lookup).
Proof.
  apply (materialize_output_selects_composite_by_name Examples.lookup_materializer 0
           (Examples.object "lookup" "Lookup") Examples.Lookup [] false).
  - reflexivity.
  - reflexivity.
  - vm_compute. lia.
  - discriminate.
  - apply (bool_decide_unpack _). vm_compute. exact I.
Defined.

End output_facts.

(** ** The resolver: running it again, and descriptors that are not names *)

Section resolver_facts.
Import constants Resolver.

Lemma dependencies_length fs :
  length (omap hard_of fs) + length (omap soft_of fs) <= length fs.
Proof.
  induction fs as [|f fs IH]; cbn [omap list_omap length]; [done|].
  unfold hard_of at 1, soft_of at 1. destruct (classify f); simpl; lia.
Qed.

(** X19. Resolving is repeatable: [parse_gql_object] reads only the fields
    of the object, so the dependency lists that an object already carries
    play no part, parsing an object that has been parsed gives the same
    object, and so does [resolve] on a schema that has been resolved;
    [resolve] gives every object of the schema, under its key; and an object
    gets at most one dependency per field. *)
Theorem resolve_repeatable (objects : gmap string gql_object) (o : gql_object)
    (soft hard : list pyval) (key : string) :
  parse_gql_object (mk_object (fields o) soft hard) = parse_gql_object o
  /\ parse_gql_object (parse_gql_object o) = parse_gql_object o
  /\ resolve (resolve objects) = resolve objects
  /\ resolve objects !! key = parse_gql_object <$> objects !! key
  /\ length (hardDependsOn (parse_gql_object o)) + length (softDependsOn (parse_gql_object o))
     <= length (fields o).
Proof.
  split_and!.
  - by rewrite !parse_gql_object_lists.
  - by rewrite !parse_gql_object_lists.
  - unfold resolve. rewrite <- map_fmap_compose. apply map_fmap_ext.
    intros k o' _. simpl. by rewrite !parse_gql_object_lists.
  - unfold resolve. by rewrite lookup_fmap.
  - rewrite parse_gql_object_lists. simpl. apply dependencies_length.
Qed.

(** X20. The filter on built-in types only sees names: a value that is not
    a string (a nested type descriptor, as the materializers read under
    [ofType]) is in no case taken for a built-in type, so a NON_NULL field
    with such an [ofType] always gives a hard dependency, a LIST field with
    such an [ofType] a soft one, and a field of a plain kind with such a
    [type] a soft one. *)
Theorem descriptor_is_never_builtin (o : gql_object) (f : field) :
  f ∈ fields o ->
  (kind f = "NON_NULL" -> (forall s, ofType f <> PStr s) ->
     ofType f ∈ hardDependsOn (parse_gql_object o))
  /\ (kind f = "LIST" -> (forall s, ofType f <> PStr s) ->
        ofType f ∈ softDependsOn (parse_gql_object o))
  /\ (kind f ∈ BUILT_IN_TYPE_KINDS -> kind f <> "NON_NULL" -> kind f <> "LIST" ->
        (forall s, type f <> PStr s) ->
        type f ∈ softDependsOn (parse_gql_object o)).
Proof.
  intros Hf. rewrite parse_gql_object_lists. simpl. split_and!.
  - intros Hkind Hname. apply list_elem_of_omap. exists f. split; [done|].
    unfold hard_of, classify. rewrite Hkind. simpl.
    by rewrite not_a_name_not_builtin.
  - intros Hkind Hname. apply list_elem_of_omap. exists f. split; [done|].
    unfold soft_of, classify. rewrite Hkind. simpl.
    by rewrite not_a_name_not_builtin.
  - intros Hkind Hnn Hlist Hname. apply list_elem_of_omap. exists f. split; [done|].
    unfold soft_of, classify.
    rewrite (bool_decide_eq_false_2 _ Hnn), (bool_decide_eq_false_2 _ Hlist).
    rewrite (bool_decide_eq_true_2 _ Hkind).
    by rewrite not_a_name_not_builtin.
Qed.

Lemma descriptor_is_never_builtin_witness :
  PDict [("kind", PStr "SCALAR"); ("name", PStr "ID")]
  ∈ hardDependsOn
      (parse_gql_object
         (mk_object
            [mk_field "NON_NULL" PNone (PDict [("kind", PStr "SCALAR"); ("name", PStr "ID")])]
            [] [])).
Proof.
  destruct (descriptor_is_never_builtin
              (mk_object
                 [mk_field "NON_NULL" PNone
                    (PDict [("kind", PStr "SCALAR"); ("name", PStr "ID")])] [] [])
              (mk_field "NON_NULL" PNone (PDict [("kind", PStr "SCALAR"); ("name", PStr "ID")]))
              ltac:(simpl; left)) as [Hhard _].
  apply Hhard; [reflexivity | discriminate].
Defined.

End resolver_facts.

(** ** The compiler's constructor *)

Section compiler_facts.
Import Compiler.

(** X21. [Compiler.__init__] raises [AttributeError] for every save path
    and every URL: it reads [constants.COMPILED_OBJECT_LIST_FILE_NAME], which
    [constants.py] does not bind (the name there is
    [COMPILED_OBJECTS_FILE_NAME]). The six paths before it are built, and
    nothing has happened outside the interpreter by then: no parser is
    created, no directory made, no file initialized. *)
Theorem compiler_init_raises
    (cenv : CompilerEnv) (save_path url : string) (log : list effect) :
  init cenv save_path url log
  = (Raise (AttributeError "COMPILED_OBJECT_LIST_FILE_NAME"), log)
  /\ (forall v, ("COMPILED_OBJECT_LIST_FILE_NAME", v) ∉ constants_module)
  /\ getattr_constants "COMPILED_OBJECTS_FILE_NAME"
     = Ret (PStr "compiled/compiled_objects.yml").
Proof.
  split_and!.
  - unfold init, pure. unfold mbind at 1, C_bind at 1.
    vm_compute. reflexivity.
  - intros v Hv.
    assert (assoc "COMPILED_OBJECT_LIST_FILE_NAME" constants_module = None) as Hnone
      by (vm_compute; reflexivity).
    revert Hv Hnone. generalize constants_module.
    induction l as [|[k x] l IH]; simpl; [by intros ?%not_elem_of_nil|].
    intros [[= <- <-]|Hl]%elem_of_cons.
    + by rewrite bool_decide_eq_true_2.
    + case_bool_decide; [done|]. by apply IH.
  - vm_compute. reflexivity.
Qed.

End compiler_facts.

